(** * statsd metric pipeline: CountMetricProducer, activations and the pull scheduler

    A shallow embedding of

    - [MetricProducer.cpp]: the per-event pipeline common to all metric
      producers, the activation life cycle and its persistence;
    - [CountMetricProducer.cpp]: the count aggregate, the dimension
      guardrail, bucket rotation and report assembly;
    - [StatsPullerManager.cpp]: the alarm-driven pull rotation.

    [int64_t] values are integers in [Z]; every C++ operation on them is
    written with its two's-complement wrap-around ([Int64.add] and friends).
    [std::unordered_map] is a [gmap]; the ordered receiver table of the pull
    manager is an association list, traversed in list order.

    The file has two parts: the embedding (definitions only), then the
    properties proved about it. *)

From stdpp Require Import base numbers option list gmap fin_maps.
From Stdlib Require Import ZArith Lia.

Local Open Scope Z_scope.

(** * Part I: the embedding *)

(** ** Fixed-width integers *)

Module Int64.

Definition min_signed : Z := - 2 ^ 63.
Definition max_signed : Z := 2 ^ 63 - 1.

(** The value an [int64_t] holds after an operation whose mathematical
    result is [x]. *)
Definition wrap (x : Z) : Z := (x + 2 ^ 63) mod 2 ^ 64 - 2 ^ 63.

Definition in_range (x : Z) : Prop := min_signed <= x <= max_signed.

Definition add (a b : Z) : Z := wrap (a + b).
Definition sub (a b : Z) : Z := wrap (a - b).
Definition mul (a b : Z) : Z := wrap (a * b).
(** C++ [/] truncates towards zero. *)
Definition div (a b : Z) : Z := wrap (a ÷ b).

(** Narrowing conversion to a 32-bit [int]. *)
Definition to_int (x : Z) : Z := (x + 2 ^ 31) mod 2 ^ 32 - 2 ^ 31.

End Int64.

(** ** Enumerations *)

(** Modelled from the spec: the condition states of §3 ("state ∈ {false,
    true, unknown}"); the enum itself is declared in [condition_util.h]. *)
Inductive ConditionState := kUnknown | kFalse | kTrue.

Inductive ActivationState := kNotActive | kActive | kActiveOnBoot.

Inductive ActivationType :=
  ACTIVATION_TYPE_UNKNOWN | ACTIVATE_IMMEDIATELY | ACTIVATE_ON_BOOT.

(** The dump reasons [writeActiveMetricToProtoOutputStream] distinguishes;
    every other reason behaves alike and is [OTHER_REASON]. *)
Inductive DumpReportReason :=
  DEVICE_SHUTDOWN | TERMINATION_SIGNAL_RECEIVED | STATSCOMPANION_DIED
| OTHER_REASON.

Inductive DumpLatency := FAST | NO_TIME_CONSTRAINTS.

#[global] Instance ConditionState_eq_dec : EqDecision ConditionState.
Proof. solve_decision. Defined.
#[global] Instance ActivationState_eq_dec : EqDecision ActivationState.
Proof. solve_decision. Defined.
#[global] Instance ActivationType_eq_dec : EqDecision ActivationType.
Proof. solve_decision. Defined.
#[global] Instance DumpReportReason_eq_dec : EqDecision DumpReportReason.
Proof. solve_decision. Defined.

(** ** Activations *)

(** [struct Activation]: [ttl_ns] and [activationType] are fixed by the
    configuration, [start_ns] and [state] change. *)
Record Activation := {
  ttl_ns : Z;
  start_ns : Z;
  state : ActivationState;
  activationType : ActivationType
}.

Definition Activation_set_state (st : ActivationState) (a : Activation) : Activation :=
  {| ttl_ns := ttl_ns a; start_ns := start_ns a; state := st;
     activationType := activationType a |}.

Definition Activation_set_start_ns (t : Z) (a : Activation) : Activation :=
  {| ttl_ns := ttl_ns a; start_ns := t; state := state a;
     activationType := activationType a |}.

(** The persisted form of one activation ([ActiveEventActivation] in the
    active-metrics proto). [remaining_ttl_nanos] and [state] are optional
    fields. *)
Inductive ActiveEventActivation_State := UNNKNOWN | ACTIVE | ACTIVATE_ON_BOOT_STATE.

#[global] Instance ActiveEventActivation_State_eq_dec :
  EqDecision ActiveEventActivation_State.
Proof. solve_decision. Defined.

Record ActiveEventActivation := {
  atom_matcher_index : Z;
  remaining_ttl_nanos_field : option Z;
  state_field : option ActiveEventActivation_State
}.

(** Proto accessors: an absent integer field reads as 0. *)
Definition remaining_ttl_nanos (m : ActiveEventActivation) : Z :=
  default 0 (remaining_ttl_nanos_field m).

Definition has_state (m : ActiveEventActivation) : bool :=
  bool_decide (is_Some (state_field m)).

Record ActiveMetric := {
  active_metric_id : Z;
  activation : list ActiveEventActivation
}.

(** ** Collaborators

    What the producer only reaches through an interface: the dimension key
    type (hashable and comparable), the condition timer and the sampling
    predicate. The properties below hold for every implementation. *)

Class Collaborators := {
  MetricDimensionKey : Type;
  MetricDimensionKey_eq_dec :: EqDecision MetricDimensionKey;
  MetricDimensionKey_countable :: Countable MetricDimensionKey;
  (** [ConditionTimer]: constructor, [newBucketStart] (returns the
      condition-true time of the closed bucket and a correction) and
      [onConditionChanged]. *)
  ConditionTimer : Type;
  ConditionTimer_new : bool → Z → ConditionTimer;
  ConditionTimer_newBucketStart : ConditionTimer → Z → Z → ConditionTimer * (Z * Z);
  ConditionTimer_onConditionChanged : ConditionTimer → bool → Z → ConditionTimer;
  (** [shouldKeepSample(sampleFieldValue, shardOffset, shardCount)] and
      [ShardOffsetProvider::getInstance().getShardOffset()]. *)
  shouldKeepSample : Z → Z → Z → bool;
  getShardOffset : Z
}.

(** ** Events and buckets *)

(** What [onMatchedLogEventLocked] reads from a [LogEvent], after the
    helpers that project its field values: the elapsed timestamp, the sampled
    field ([filterValues] on [mSampledWhatFields[0]], [None] when filtering
    fails), the state the condition wizard returns for the condition key the
    event's links build, and the metric dimension key
    [(dimensionInWhat, stateValuesKey)]. *)
Record LogEvent `{Collaborators} := {
  GetElapsedTimestampNs : Z;
  sampleFieldValue : option Z;
  wizardQuery : ConditionState;
  metricKey : MetricDimensionKey
}.

Record CountBucket := {
  mBucketStartNs : Z;
  mBucketEndNs : Z;
  mCount : Z;
  mConditionTrueNs : Z
}.

Inductive UploadThreshold :=
| kLtInt (v : Z) | kGtInt (v : Z) | kLteInt (v : Z) | kGteInt (v : Z)
| kOtherComparison.

(** Calls into the [StatsdStats] singleton and the anomaly trackers, in
    the order the producer makes them. *)
Inductive StatsdStatsCall :=
| noteMetricDimensionSize (configKey metricId newTupleCount : Z)
| noteHardDimensionLimitReached (metricId : Z)
| noteBucketCount (metricId : Z)
| noteBucketDropped (metricId : Z).

Inductive AnomalyCall `{Collaborators} :=
| detectAndDeclareAnomaly (tracker : Z) (eventTimeNs bucketNum metricId : Z)
    (key : MetricDimensionKey) (countWholeBucket : Z)
| addPastBucket (tracker : Z) (counters : gmap MetricDimensionKey Z) (bucketNum : Z).

(** ** The producer object

    One record for a [CountMetricProducer] object: the fields it inherits
    from [MetricProducer] and its own. [mEventDeactivationMap] shares its
    [Activation] objects with [mEventActivationMap]; the shared objects are
    named by their key in [mEventActivationMap]. The last two fields record
    the calls made to the [StatsdStats] singleton and to the anomaly
    trackers. *)

Section Producer.
Context `{Collaborators}.

Record CountMetricProducer := {
  mMetricId : Z;
  mConfigKey : Z;
  mTimeBaseNs : Z;
  mCurrentBucketStartTimeNs : Z;
  mCurrentBucketNum : Z;
  mBucketSizeNs : Z;
  mCondition : ConditionState;
  mConditionTimer : ConditionTimer;
  mConditionTrackerIndex : Z;
  mConditionSliced : bool;
  mEventActivationMap : gmap Z Activation;
  mEventDeactivationMap : gmap Z (list Z);
  mIsActive : bool;
  mSlicedStateAtoms : list Z;
  mDimensionsInWhat : list Z;
  mShouldUseNestedDimensions : bool;
  mHasHitGuardrail : bool;
  mSampledWhatFields : list Z;
  mShardCount : Z;
  mAnomalyTrackers : list Z;
  mCurrentSlicedCounter : gmap MetricDimensionKey Z;
  mCurrentFullCounters : gmap MetricDimensionKey Z;
  mPastBuckets : gmap MetricDimensionKey (list CountBucket);
  mDimensionGuardrailHit : bool;
  mDimensionHardLimit : Z;
  mUploadThreshold : option UploadThreshold;
  statsdStats : list StatsdStatsCall;
  anomalyCalls : list AnomalyCall
}.

(** Field updates: each copies every field but one. *)

Definition set_mCurrentBucketStartTimeNs (v : Z) (p : CountMetricProducer) :=
  {| mMetricId := mMetricId p; mConfigKey := mConfigKey p; mTimeBaseNs := mTimeBaseNs p;
     mCurrentBucketStartTimeNs := v; mCurrentBucketNum := mCurrentBucketNum p;
     mBucketSizeNs := mBucketSizeNs p; mCondition := mCondition p;
     mConditionTimer := mConditionTimer p; mConditionTrackerIndex := mConditionTrackerIndex p;
     mConditionSliced := mConditionSliced p; mEventActivationMap := mEventActivationMap p;
     mEventDeactivationMap := mEventDeactivationMap p; mIsActive := mIsActive p;
     mSlicedStateAtoms := mSlicedStateAtoms p; mDimensionsInWhat := mDimensionsInWhat p;
     mShouldUseNestedDimensions := mShouldUseNestedDimensions p;
     mHasHitGuardrail := mHasHitGuardrail p; mSampledWhatFields := mSampledWhatFields p;
     mShardCount := mShardCount p; mAnomalyTrackers := mAnomalyTrackers p;
     mCurrentSlicedCounter := mCurrentSlicedCounter p;
     mCurrentFullCounters := mCurrentFullCounters p; mPastBuckets := mPastBuckets p;
     mDimensionGuardrailHit := mDimensionGuardrailHit p;
     mDimensionHardLimit := mDimensionHardLimit p; mUploadThreshold := mUploadThreshold p;
     statsdStats := statsdStats p; anomalyCalls := anomalyCalls p |}.

Definition set_mCurrentBucketNum (v : Z) (p : CountMetricProducer) :=
  {| mMetricId := mMetricId p; mConfigKey := mConfigKey p; mTimeBaseNs := mTimeBaseNs p;
     mCurrentBucketStartTimeNs := mCurrentBucketStartTimeNs p; mCurrentBucketNum := v;
     mBucketSizeNs := mBucketSizeNs p; mCondition := mCondition p;
     mConditionTimer := mConditionTimer p; mConditionTrackerIndex := mConditionTrackerIndex p;
     mConditionSliced := mConditionSliced p; mEventActivationMap := mEventActivationMap p;
     mEventDeactivationMap := mEventDeactivationMap p; mIsActive := mIsActive p;
     mSlicedStateAtoms := mSlicedStateAtoms p; mDimensionsInWhat := mDimensionsInWhat p;
     mShouldUseNestedDimensions := mShouldUseNestedDimensions p;
     mHasHitGuardrail := mHasHitGuardrail p; mSampledWhatFields := mSampledWhatFields p;
     mShardCount := mShardCount p; mAnomalyTrackers := mAnomalyTrackers p;
     mCurrentSlicedCounter := mCurrentSlicedCounter p;
     mCurrentFullCounters := mCurrentFullCounters p; mPastBuckets := mPastBuckets p;
     mDimensionGuardrailHit := mDimensionGuardrailHit p;
     mDimensionHardLimit := mDimensionHardLimit p; mUploadThreshold := mUploadThreshold p;
     statsdStats := statsdStats p; anomalyCalls := anomalyCalls p |}.

Definition set_mCondition (v : ConditionState) (p : CountMetricProducer) :=
  {| mMetricId := mMetricId p; mConfigKey := mConfigKey p; mTimeBaseNs := mTimeBaseNs p;
     mCurrentBucketStartTimeNs := mCurrentBucketStartTimeNs p;
     mCurrentBucketNum := mCurrentBucketNum p;
     mBucketSizeNs := mBucketSizeNs p; mCondition := v;
     mConditionTimer := mConditionTimer p; mConditionTrackerIndex := mConditionTrackerIndex p;
     mConditionSliced := mConditionSliced p; mEventActivationMap := mEventActivationMap p;
     mEventDeactivationMap := mEventDeactivationMap p; mIsActive := mIsActive p;
     mSlicedStateAtoms := mSlicedStateAtoms p; mDimensionsInWhat := mDimensionsInWhat p;
     mShouldUseNestedDimensions := mShouldUseNestedDimensions p;
     mHasHitGuardrail := mHasHitGuardrail p; mSampledWhatFields := mSampledWhatFields p;
     mShardCount := mShardCount p; mAnomalyTrackers := mAnomalyTrackers p;
     mCurrentSlicedCounter := mCurrentSlicedCounter p;
     mCurrentFullCounters := mCurrentFullCounters p; mPastBuckets := mPastBuckets p;
     mDimensionGuardrailHit := mDimensionGuardrailHit p;
     mDimensionHardLimit := mDimensionHardLimit p; mUploadThreshold := mUploadThreshold p;
     statsdStats := statsdStats p; anomalyCalls := anomalyCalls p |}.

Definition set_mConditionTimer (v : ConditionTimer) (p : CountMetricProducer) :=
  {| mMetricId := mMetricId p; mConfigKey := mConfigKey p; mTimeBaseNs := mTimeBaseNs p;
     mCurrentBucketStartTimeNs := mCurrentBucketStartTimeNs p;
     mCurrentBucketNum := mCurrentBucketNum p;
     mBucketSizeNs := mBucketSizeNs p; mCondition := mCondition p;
     mConditionTimer := v; mConditionTrackerIndex := mConditionTrackerIndex p;
     mConditionSliced := mConditionSliced p; mEventActivationMap := mEventActivationMap p;
     mEventDeactivationMap := mEventDeactivationMap p; mIsActive := mIsActive p;
     mSlicedStateAtoms := mSlicedStateAtoms p; mDimensionsInWhat := mDimensionsInWhat p;
     mShouldUseNestedDimensions := mShouldUseNestedDimensions p;
     mHasHitGuardrail := mHasHitGuardrail p; mSampledWhatFields := mSampledWhatFields p;
     mShardCount := mShardCount p; mAnomalyTrackers := mAnomalyTrackers p;
     mCurrentSlicedCounter := mCurrentSlicedCounter p;
     mCurrentFullCounters := mCurrentFullCounters p; mPastBuckets := mPastBuckets p;
     mDimensionGuardrailHit := mDimensionGuardrailHit p;
     mDimensionHardLimit := mDimensionHardLimit p; mUploadThreshold := mUploadThreshold p;
     statsdStats := statsdStats p; anomalyCalls := anomalyCalls p |}.

Definition set_mEventActivationMap (v : gmap Z Activation) (p : CountMetricProducer) :=
  {| mMetricId := mMetricId p; mConfigKey := mConfigKey p; mTimeBaseNs := mTimeBaseNs p;
     mCurrentBucketStartTimeNs := mCurrentBucketStartTimeNs p;
     mCurrentBucketNum := mCurrentBucketNum p;
     mBucketSizeNs := mBucketSizeNs p; mCondition := mCondition p;
     mConditionTimer := mConditionTimer p; mConditionTrackerIndex := mConditionTrackerIndex p;
     mConditionSliced := mConditionSliced p; mEventActivationMap := v;
     mEventDeactivationMap := mEventDeactivationMap p; mIsActive := mIsActive p;
     mSlicedStateAtoms := mSlicedStateAtoms p; mDimensionsInWhat := mDimensionsInWhat p;
     mShouldUseNestedDimensions := mShouldUseNestedDimensions p;
     mHasHitGuardrail := mHasHitGuardrail p; mSampledWhatFields := mSampledWhatFields p;
     mShardCount := mShardCount p; mAnomalyTrackers := mAnomalyTrackers p;
     mCurrentSlicedCounter := mCurrentSlicedCounter p;
     mCurrentFullCounters := mCurrentFullCounters p; mPastBuckets := mPastBuckets p;
     mDimensionGuardrailHit := mDimensionGuardrailHit p;
     mDimensionHardLimit := mDimensionHardLimit p; mUploadThreshold := mUploadThreshold p;
     statsdStats := statsdStats p; anomalyCalls := anomalyCalls p |}.

Definition set_mIsActive (v : bool) (p : CountMetricProducer) :=
  {| mMetricId := mMetricId p; mConfigKey := mConfigKey p; mTimeBaseNs := mTimeBaseNs p;
     mCurrentBucketStartTimeNs := mCurrentBucketStartTimeNs p;
     mCurrentBucketNum := mCurrentBucketNum p;
     mBucketSizeNs := mBucketSizeNs p; mCondition := mCondition p;
     mConditionTimer := mConditionTimer p; mConditionTrackerIndex := mConditionTrackerIndex p;
     mConditionSliced := mConditionSliced p; mEventActivationMap := mEventActivationMap p;
     mEventDeactivationMap := mEventDeactivationMap p; mIsActive := v;
     mSlicedStateAtoms := mSlicedStateAtoms p; mDimensionsInWhat := mDimensionsInWhat p;
     mShouldUseNestedDimensions := mShouldUseNestedDimensions p;
     mHasHitGuardrail := mHasHitGuardrail p; mSampledWhatFields := mSampledWhatFields p;
     mShardCount := mShardCount p; mAnomalyTrackers := mAnomalyTrackers p;
     mCurrentSlicedCounter := mCurrentSlicedCounter p;
     mCurrentFullCounters := mCurrentFullCounters p; mPastBuckets := mPastBuckets p;
     mDimensionGuardrailHit := mDimensionGuardrailHit p;
     mDimensionHardLimit := mDimensionHardLimit p; mUploadThreshold := mUploadThreshold p;
     statsdStats := statsdStats p; anomalyCalls := anomalyCalls p |}.

Definition set_mHasHitGuardrail (v : bool) (p : CountMetricProducer) :=
  {| mMetricId := mMetricId p; mConfigKey := mConfigKey p; mTimeBaseNs := mTimeBaseNs p;
     mCurrentBucketStartTimeNs := mCurrentBucketStartTimeNs p;
     mCurrentBucketNum := mCurrentBucketNum p;
     mBucketSizeNs := mBucketSizeNs p; mCondition := mCondition p;
     mConditionTimer := mConditionTimer p; mConditionTrackerIndex := mConditionTrackerIndex p;
     mConditionSliced := mConditionSliced p; mEventActivationMap := mEventActivationMap p;
     mEventDeactivationMap := mEventDeactivationMap p; mIsActive := mIsActive p;
     mSlicedStateAtoms := mSlicedStateAtoms p; mDimensionsInWhat := mDimensionsInWhat p;
     mShouldUseNestedDimensions := mShouldUseNestedDimensions p;
     mHasHitGuardrail := v; mSampledWhatFields := mSampledWhatFields p;
     mShardCount := mShardCount p; mAnomalyTrackers := mAnomalyTrackers p;
     mCurrentSlicedCounter := mCurrentSlicedCounter p;
     mCurrentFullCounters := mCurrentFullCounters p; mPastBuckets := mPastBuckets p;
     mDimensionGuardrailHit := mDimensionGuardrailHit p;
     mDimensionHardLimit := mDimensionHardLimit p; mUploadThreshold := mUploadThreshold p;
     statsdStats := statsdStats p; anomalyCalls := anomalyCalls p |}.

Definition set_mCurrentSlicedCounter (v : gmap MetricDimensionKey Z) (p : CountMetricProducer) :=
  {| mMetricId := mMetricId p; mConfigKey := mConfigKey p; mTimeBaseNs := mTimeBaseNs p;
     mCurrentBucketStartTimeNs := mCurrentBucketStartTimeNs p;
     mCurrentBucketNum := mCurrentBucketNum p;
     mBucketSizeNs := mBucketSizeNs p; mCondition := mCondition p;
     mConditionTimer := mConditionTimer p; mConditionTrackerIndex := mConditionTrackerIndex p;
     mConditionSliced := mConditionSliced p; mEventActivationMap := mEventActivationMap p;
     mEventDeactivationMap := mEventDeactivationMap p; mIsActive := mIsActive p;
     mSlicedStateAtoms := mSlicedStateAtoms p; mDimensionsInWhat := mDimensionsInWhat p;
     mShouldUseNestedDimensions := mShouldUseNestedDimensions p;
     mHasHitGuardrail := mHasHitGuardrail p; mSampledWhatFields := mSampledWhatFields p;
     mShardCount := mShardCount p; mAnomalyTrackers := mAnomalyTrackers p;
     mCurrentSlicedCounter := v;
     mCurrentFullCounters := mCurrentFullCounters p; mPastBuckets := mPastBuckets p;
     mDimensionGuardrailHit := mDimensionGuardrailHit p;
     mDimensionHardLimit := mDimensionHardLimit p; mUploadThreshold := mUploadThreshold p;
     statsdStats := statsdStats p; anomalyCalls := anomalyCalls p |}.

Definition set_mCurrentFullCounters (v : gmap MetricDimensionKey Z) (p : CountMetricProducer) :=
  {| mMetricId := mMetricId p; mConfigKey := mConfigKey p; mTimeBaseNs := mTimeBaseNs p;
     mCurrentBucketStartTimeNs := mCurrentBucketStartTimeNs p;
     mCurrentBucketNum := mCurrentBucketNum p;
     mBucketSizeNs := mBucketSizeNs p; mCondition := mCondition p;
     mConditionTimer := mConditionTimer p; mConditionTrackerIndex := mConditionTrackerIndex p;
     mConditionSliced := mConditionSliced p; mEventActivationMap := mEventActivationMap p;
     mEventDeactivationMap := mEventDeactivationMap p; mIsActive := mIsActive p;
     mSlicedStateAtoms := mSlicedStateAtoms p; mDimensionsInWhat := mDimensionsInWhat p;
     mShouldUseNestedDimensions := mShouldUseNestedDimensions p;
     mHasHitGuardrail := mHasHitGuardrail p; mSampledWhatFields := mSampledWhatFields p;
     mShardCount := mShardCount p; mAnomalyTrackers := mAnomalyTrackers p;
     mCurrentSlicedCounter := mCurrentSlicedCounter p;
     mCurrentFullCounters := v; mPastBuckets := mPastBuckets p;
     mDimensionGuardrailHit := mDimensionGuardrailHit p;
     mDimensionHardLimit := mDimensionHardLimit p; mUploadThreshold := mUploadThreshold p;
     statsdStats := statsdStats p; anomalyCalls := anomalyCalls p |}.

Definition set_mPastBuckets (v : gmap MetricDimensionKey (list CountBucket))
    (p : CountMetricProducer) :=
  {| mMetricId := mMetricId p; mConfigKey := mConfigKey p; mTimeBaseNs := mTimeBaseNs p;
     mCurrentBucketStartTimeNs := mCurrentBucketStartTimeNs p;
     mCurrentBucketNum := mCurrentBucketNum p;
     mBucketSizeNs := mBucketSizeNs p; mCondition := mCondition p;
     mConditionTimer := mConditionTimer p; mConditionTrackerIndex := mConditionTrackerIndex p;
     mConditionSliced := mConditionSliced p; mEventActivationMap := mEventActivationMap p;
     mEventDeactivationMap := mEventDeactivationMap p; mIsActive := mIsActive p;
     mSlicedStateAtoms := mSlicedStateAtoms p; mDimensionsInWhat := mDimensionsInWhat p;
     mShouldUseNestedDimensions := mShouldUseNestedDimensions p;
     mHasHitGuardrail := mHasHitGuardrail p; mSampledWhatFields := mSampledWhatFields p;
     mShardCount := mShardCount p; mAnomalyTrackers := mAnomalyTrackers p;
     mCurrentSlicedCounter := mCurrentSlicedCounter p;
     mCurrentFullCounters := mCurrentFullCounters p; mPastBuckets := v;
     mDimensionGuardrailHit := mDimensionGuardrailHit p;
     mDimensionHardLimit := mDimensionHardLimit p; mUploadThreshold := mUploadThreshold p;
     statsdStats := statsdStats p; anomalyCalls := anomalyCalls p |}.

Definition set_mDimensionGuardrailHit (v : bool) (p : CountMetricProducer) :=
  {| mMetricId := mMetricId p; mConfigKey := mConfigKey p; mTimeBaseNs := mTimeBaseNs p;
     mCurrentBucketStartTimeNs := mCurrentBucketStartTimeNs p;
     mCurrentBucketNum := mCurrentBucketNum p;
     mBucketSizeNs := mBucketSizeNs p; mCondition := mCondition p;
     mConditionTimer := mConditionTimer p; mConditionTrackerIndex := mConditionTrackerIndex p;
     mConditionSliced := mConditionSliced p; mEventActivationMap := mEventActivationMap p;
     mEventDeactivationMap := mEventDeactivationMap p; mIsActive := mIsActive p;
     mSlicedStateAtoms := mSlicedStateAtoms p; mDimensionsInWhat := mDimensionsInWhat p;
     mShouldUseNestedDimensions := mShouldUseNestedDimensions p;
     mHasHitGuardrail := mHasHitGuardrail p; mSampledWhatFields := mSampledWhatFields p;
     mShardCount := mShardCount p; mAnomalyTrackers := mAnomalyTrackers p;
     mCurrentSlicedCounter := mCurrentSlicedCounter p;
     mCurrentFullCounters := mCurrentFullCounters p; mPastBuckets := mPastBuckets p;
     mDimensionGuardrailHit := v;
     mDimensionHardLimit := mDimensionHardLimit p; mUploadThreshold := mUploadThreshold p;
     statsdStats := statsdStats p; anomalyCalls := anomalyCalls p |}.

Definition set_statsdStats (v : list StatsdStatsCall) (p : CountMetricProducer) :=
  {| mMetricId := mMetricId p; mConfigKey := mConfigKey p; mTimeBaseNs := mTimeBaseNs p;
     mCurrentBucketStartTimeNs := mCurrentBucketStartTimeNs p;
     mCurrentBucketNum := mCurrentBucketNum p;
     mBucketSizeNs := mBucketSizeNs p; mCondition := mCondition p;
     mConditionTimer := mConditionTimer p; mConditionTrackerIndex := mConditionTrackerIndex p;
     mConditionSliced := mConditionSliced p; mEventActivationMap := mEventActivationMap p;
     mEventDeactivationMap := mEventDeactivationMap p; mIsActive := mIsActive p;
     mSlicedStateAtoms := mSlicedStateAtoms p; mDimensionsInWhat := mDimensionsInWhat p;
     mShouldUseNestedDimensions := mShouldUseNestedDimensions p;
     mHasHitGuardrail := mHasHitGuardrail p; mSampledWhatFields := mSampledWhatFields p;
     mShardCount := mShardCount p; mAnomalyTrackers := mAnomalyTrackers p;
     mCurrentSlicedCounter := mCurrentSlicedCounter p;
     mCurrentFullCounters := mCurrentFullCounters p; mPastBuckets := mPastBuckets p;
     mDimensionGuardrailHit := mDimensionGuardrailHit p;
     mDimensionHardLimit := mDimensionHardLimit p; mUploadThreshold := mUploadThreshold p;
     statsdStats := v; anomalyCalls := anomalyCalls p |}.

Definition set_anomalyCalls (v : list AnomalyCall) (p : CountMetricProducer) :=
  {| mMetricId := mMetricId p; mConfigKey := mConfigKey p; mTimeBaseNs := mTimeBaseNs p;
     mCurrentBucketStartTimeNs := mCurrentBucketStartTimeNs p;
     mCurrentBucketNum := mCurrentBucketNum p;
     mBucketSizeNs := mBucketSizeNs p; mCondition := mCondition p;
     mConditionTimer := mConditionTimer p; mConditionTrackerIndex := mConditionTrackerIndex p;
     mConditionSliced := mConditionSliced p; mEventActivationMap := mEventActivationMap p;
     mEventDeactivationMap := mEventDeactivationMap p; mIsActive := mIsActive p;
     mSlicedStateAtoms := mSlicedStateAtoms p; mDimensionsInWhat := mDimensionsInWhat p;
     mShouldUseNestedDimensions := mShouldUseNestedDimensions p;
     mHasHitGuardrail := mHasHitGuardrail p; mSampledWhatFields := mSampledWhatFields p;
     mShardCount := mShardCount p; mAnomalyTrackers := mAnomalyTrackers p;
     mCurrentSlicedCounter := mCurrentSlicedCounter p;
     mCurrentFullCounters := mCurrentFullCounters p; mPastBuckets := mPastBuckets p;
     mDimensionGuardrailHit := mDimensionGuardrailHit p;
     mDimensionHardLimit := mDimensionHardLimit p; mUploadThreshold := mUploadThreshold p;
     statsdStats := statsdStats p; anomalyCalls := v |}.

Definition StatsdStats_note (c : StatsdStatsCall) (p : CountMetricProducer) :=
  set_statsdStats (statsdStats p ++ [c]) p.

End Producer.

(** ** Reports *)

Section Reports.
Context `{Collaborators}.

(** [CountBucketInfo]: a bucket is identified either by its number or by its
    start and end in elapsed milliseconds. *)
Record CountBucketInfo := {
  bucket_num : option Z;
  start_bucket_elapsed_millis : option Z;
  end_bucket_elapsed_millis : option Z;
  count : Z;
  condition_true_ns : option Z
}.

(** [CountMetricData]: the dimension is written nested ([dimension_in_what])
    or as leaf nodes ([dimension_leaf_values_in_what]); the state values of
    the key follow, then one [bucket_info] per closed bucket. *)
Record CountMetricData := {
  data_key : MetricDimensionKey;
  dimension_nested : bool;
  bucket_info : list CountBucketInfo
}.

Record StatsLogReport := {
  report_id : Z;
  is_active : bool;
  dimension_guardrail_hit : option bool;
  time_base : option Z;
  bucket_size : option Z;
  dimension_path_in_what : option (list Z);
  count_metrics : list CountMetricData
}.

End Reports.

(** ** Guardrail constants ([StatsdStats.h]) *)

(** Modelled from the spec: §4.1.2, "dimension_soft_limit = 500" and
    "dimension_hard_limit per atom clamped to [800, 3000]"; the constants
    and [clampDimensionKeySizeLimit] are declared in [StatsdStats.h]. *)
Definition kDimensionKeySizeSoftLimit : Z := 500.
Definition kDimensionKeySizeHardLimitMin : Z := 800.
Definition kDimensionKeySizeHardLimitMax : Z := 3000.

Definition clampDimensionKeySizeLimit (dimLimit : Z) : Z :=
  if dimLimit <? kDimensionKeySizeHardLimitMin then kDimensionKeySizeHardLimitMin
  else if kDimensionKeySizeHardLimitMax <? dimLimit then kDimensionKeySizeHardLimitMax
  else dimLimit.

(** Modelled from the spec: "explicit [start, end] millis" (§4.1.3);
    [NanoToMillis] is declared in [stats_log_util.h]. *)
Definition NanoToMillis (ns : Z) : Z := Int64.div ns 1000000.

(** ** MetricProducer and CountMetricProducer operations *)

Section Operations.
Context `{Collaborators}.

Implicit Types p : CountMetricProducer.

(** Modelled from the spec: §3, a bucket has the fixed length
    [bucket_size_ns] and buckets are "numbered from time_base_ns", so the
    bucket numbered [n] ends at [time_base + (n + 1) * bucket_size]. Both
    helpers are declared in [MetricProducer.h]. *)
Definition getCurrentBucketEndTimeNs p : Z :=
  Int64.add (mTimeBaseNs p)
            (Int64.mul (Int64.add (mCurrentBucketNum p) 1) (mBucketSizeNs p)).

Definition getBucketNumFromEndTimeNs p (endNs : Z) : Z :=
  Int64.sub (Int64.div (Int64.sub endNs (mTimeBaseNs p)) (mBucketSizeNs p)) 1.

(** [MetricProducer.h]: [isActiveLocked] reads the flag. *)
Definition isActiveLocked p : bool := mIsActive p.

(** *** Activation life cycle ([MetricProducer.cpp]) *)

(** One iteration of the loop of [evaluateActiveStateLocked]: an active
    activation whose [ttl_ns + start_ns] the time has passed becomes not
    active. *)
Definition expireActivation (elapsedTimestampNs : Z) (a : Activation) : Activation :=
  if bool_decide (state a = kActive)
     && (Int64.add (ttl_ns a) (start_ns a) <? elapsedTimestampNs)
  then Activation_set_state kNotActive a
  else a.

Definition evaluateActiveStateLocked (elapsedTimestampNs : Z) p
    : CountMetricProducer * bool :=
  let '(acts, isActive) :=
    map_fold
      (λ k a '(acts, isActive),
         let a' := expireActivation elapsedTimestampNs a in
         (<[k := a']> acts,
          if bool_decide (state a' = kActive) then true else isActive))
      (mEventActivationMap p, bool_decide (mEventActivationMap p = ∅))
      (mEventActivationMap p) in
  (set_mEventActivationMap acts p, isActive).

(** *** Bucket rotation ([CountMetricProducer.cpp]) *)

Definition countPassesThreshold p (c : Z) : bool :=
  match mUploadThreshold p with
  | None => true
  | Some (kLtInt v) => c <? v
  | Some (kGtInt v) => v <? c
  | Some (kLteInt v) => c <=? v
  | Some (kGteInt v) => v <=? c
  | Some kOtherComparison => false
  end.

(** [mCurrentFullCounters[key] += value] for every current counter; a key
    that is not there yet starts from 0. *)
Definition accumulateFullCounters (sliced full : gmap MetricDimensionKey Z)
    : gmap MetricDimensionKey Z :=
  map_fold (λ k v full, <[k := Int64.add (default 0 (full !! k)) v]> full) full sliced.

(** The loop that appends the closed bucket to [mPastBuckets] for every
    counter that passes the upload threshold. *)
Definition appendPastBuckets p (info : Z → CountBucket)
    : gmap MetricDimensionKey (list CountBucket) :=
  map_fold
    (λ k c past,
       if countPassesThreshold p c
       then <[k := default [] (past !! k) ++ [info c]]> past
       else past)
    (mPastBuckets p) (mCurrentSlicedCounter p).

Definition closedBucketInfo p (eventTimeNs globalConditionTrueNs c : Z) : CountBucket :=
  let fullBucketEndTimeNs := getCurrentBucketEndTimeNs p in
  {| mBucketStartNs := mCurrentBucketStartTimeNs p;
     mBucketEndNs := if eventTimeNs <? fullBucketEndTimeNs then eventTimeNs
                     else fullBucketEndTimeNs;
     mCount := c;
     mConditionTrueNs := globalConditionTrueNs |}.

Definition flushCurrentBucketLocked (eventTimeNs nextBucketStartTimeNs : Z) p
    : CountMetricProducer :=
  let fullBucketEndTimeNs := getCurrentBucketEndTimeNs p in
  let '(timer, (globalConditionTrueNs, _)) :=
    ConditionTimer_newBucketStart (mConditionTimer p) eventTimeNs nextBucketStartTimeNs in
  let past := appendPastBuckets p (closedBucketInfo p eventTimeNs globalConditionTrueNs) in
  let trackers := mAnomalyTrackers p in
  let '(full, calls) :=
    if (0 <? Z.of_nat (length trackers)) then
      if fullBucketEndTimeNs <? eventTimeNs then
        if 0 <? Z.of_nat (size (mCurrentFullCounters p)) then
          let acc := accumulateFullCounters (mCurrentSlicedCounter p)
                                            (mCurrentFullCounters p) in
          (∅, (λ t, addPastBucket t acc (mCurrentBucketNum p)) <$> trackers)
        else
          (mCurrentFullCounters p,
           (λ t, addPastBucket t (mCurrentSlicedCounter p) (mCurrentBucketNum p))
             <$> trackers)
      else
        (accumulateFullCounters (mCurrentSlicedCounter p) (mCurrentFullCounters p), [])
    else (mCurrentFullCounters p, []) in
  set_mHasHitGuardrail false
    (set_mCurrentBucketStartTimeNs nextBucketStartTimeNs
       (set_mCurrentSlicedCounter ∅
          (StatsdStats_note (noteBucketCount (mMetricId p))
             (set_anomalyCalls (anomalyCalls p ++ calls)
                (set_mCurrentFullCounters full
                   (set_mPastBuckets past
                      (set_mConditionTimer timer p))))))).

Definition flushIfNeededLocked (eventTimeNs : Z) p : CountMetricProducer :=
  let currentBucketEndTimeNs := getCurrentBucketEndTimeNs p in
  if eventTimeNs <? currentBucketEndTimeNs then p
  else
    let numBucketsForward :=
      Int64.add 1 (Int64.div (Int64.sub eventTimeNs currentBucketEndTimeNs)
                             (mBucketSizeNs p)) in
    let nextBucketNs :=
      Int64.add currentBucketEndTimeNs
                (Int64.mul (Int64.sub numBucketsForward 1) (mBucketSizeNs p)) in
    let p1 := flushCurrentBucketLocked eventTimeNs nextBucketNs p in
    set_mCurrentBucketNum (Int64.add (mCurrentBucketNum p1) numBucketsForward) p1.

(** Modelled from the spec: a dump that includes the current partial
    bucket, like an active-state flip, forces the end of the current bucket
    ("a partial bucket is one whose start or end was forced by an app
    upgrade, active-state flip, or explicit dump", §3; "it only splits the
    current bucket", §4.1.3): rotate if a boundary was crossed, then close
    the current bucket at [eventTimeNs] and start the next one there.
    [flushLocked] is declared in [MetricProducer.h]. *)
Definition flushLocked (eventTimeNs : Z) p : CountMetricProducer :=
  flushCurrentBucketLocked eventTimeNs eventTimeNs (flushIfNeededLocked eventTimeNs p).

(** Modelled from the spec: the base-class handler of an active-state
    change; deactivation closes the current bucket (§3, §4.1.3, as above),
    activation leaves the buckets alone. It is declared in
    [MetricProducer.h]. *)
Definition MetricProducer_onActiveStateChangedLocked (eventTimeNs : Z) (isActive : bool) p
    : CountMetricProducer :=
  if negb isActive then flushLocked eventTimeNs p else p.

Definition onActiveStateChangedLocked (eventTimeNs : Z) (isActive : bool) p
    : CountMetricProducer :=
  let p := MetricProducer_onActiveStateChangedLocked eventTimeNs isActive p in
  if negb (bool_decide (mCondition p = kTrue)) then p
  else set_mConditionTimer
         (ConditionTimer_onConditionChanged (mConditionTimer p) isActive eventTimeNs) p.

Definition onConditionChangedLocked (conditionMet : bool) (eventTime : Z) p
    : CountMetricProducer :=
  let p := set_mCondition (if conditionMet then kTrue else kFalse) p in
  if negb (mIsActive p) then p
  else set_mConditionTimer
         (ConditionTimer_onConditionChanged (mConditionTimer p)
            (bool_decide (mCondition p = kTrue)) eventTime) p.

Definition flushIfExpire (elapsedTimestampNs : Z) p : CountMetricProducer :=
  if negb (mIsActive p) then p
  else
    let '(p, isActive) := evaluateActiveStateLocked elapsedTimestampNs p in
    if negb isActive
    then set_mIsActive false (onActiveStateChangedLocked elapsedTimestampNs false p)
    else p.

Definition activateLocked (activationTrackerIndex elapsedTimestampNs : Z) p
    : CountMetricProducer :=
  match mEventActivationMap p !! activationTrackerIndex with
  | None => p
  | Some activation =>
    if bool_decide (activationType activation = ACTIVATE_ON_BOOT) then
      if bool_decide (state activation = kNotActive)
      then set_mEventActivationMap
             (<[activationTrackerIndex := Activation_set_state kActiveOnBoot activation]>
                (mEventActivationMap p)) p
      else p
    else
      let activation :=
        Activation_set_state kActive
          (Activation_set_start_ns elapsedTimestampNs activation) in
      let p := set_mEventActivationMap
                 (<[activationTrackerIndex := activation]> (mEventActivationMap p)) p in
      if negb (mIsActive p)
      then onActiveStateChangedLocked elapsedTimestampNs true (set_mIsActive true p)
      else p
  end.

Definition cancelEventActivationLocked (deactivationTrackerIndex : Z) p
    : CountMetricProducer :=
  match mEventDeactivationMap p !! deactivationTrackerIndex with
  | None => p
  | Some toCancel =>
    set_mEventActivationMap
      (foldl (λ acts k, alter (Activation_set_state kNotActive) k acts)
             (mEventActivationMap p) toCancel) p
  end.

End Operations.

Section EventPipeline.
Context `{Collaborators}.

Implicit Types p : CountMetricProducer.

(** *** The dimension guardrail and the count update *)

(** Returns the producer (flags and telemetry updated) and whether the new
    key must be dropped. [size() + 1] is a [size_t]; a map never holds
    2^64 - 1 keys, so the sum is exact. *)
Definition hitGuardRailLocked (newKey : MetricDimensionKey) p
    : CountMetricProducer * bool :=
  if bool_decide (is_Some (mCurrentSlicedCounter p !! newKey)) then (p, false)
  else if kDimensionKeySizeSoftLimit <=? Z.of_nat (size (mCurrentSlicedCounter p)) then
    let newTupleCount := Z.of_nat (size (mCurrentSlicedCounter p)) + 1 in
    let p := StatsdStats_note
               (noteMetricDimensionSize (mConfigKey p) (mMetricId p) newTupleCount) p in
    if mDimensionHardLimit p <? newTupleCount then
      let p := if negb (mHasHitGuardrail p) then set_mHasHitGuardrail true p else p in
      let p := set_mDimensionGuardrailHit true p in
      (StatsdStats_note (noteHardDimensionLimitReached (mMetricId p)) p, true)
    else (p, false)
  else (p, false).

(** The loop over [mAnomalyTrackers] at the end of
    [onMatchedLogEventInternalLocked]. *)
Definition notifyAnomalyTrackers (eventTimeNs : Z) (eventKey : MetricDimensionKey) p
    : CountMetricProducer :=
  let calls :=
    (λ tracker,
       let countWholeBucket := default 0 (mCurrentSlicedCounter p !! eventKey) in
       let countWholeBucket :=
         match mCurrentFullCounters p !! eventKey with
         | Some prev => Int64.add countWholeBucket prev
         | None => countWholeBucket
         end in
       detectAndDeclareAnomaly tracker eventTimeNs (mCurrentBucketNum p) (mMetricId p)
                               eventKey countWholeBucket)
      <$> mAnomalyTrackers p in
  set_anomalyCalls (anomalyCalls p ++ calls) p.

Definition onMatchedLogEventInternalLocked (matcherIndex : Z)
    (eventKey : MetricDimensionKey) (condition : bool) (event : LogEvent) p
    : CountMetricProducer :=
  let eventTimeNs := GetElapsedTimestampNs event in
  let p := flushIfNeededLocked eventTimeNs p in
  if negb condition then p
  else
    match mCurrentSlicedCounter p !! eventKey with
    | None =>
      let '(p, hit) := hitGuardRailLocked eventKey p in
      if hit then p
      else
        notifyAnomalyTrackers eventTimeNs eventKey
          (set_mCurrentSlicedCounter (<[eventKey := 1]> (mCurrentSlicedCounter p)) p)
    | Some c =>
      notifyAnomalyTrackers eventTimeNs eventKey
        (set_mCurrentSlicedCounter
           (<[eventKey := Int64.add c 1]> (mCurrentSlicedCounter p)) p)
    end.

(** *** The common pipeline ([MetricProducer::onMatchedLogEventLocked]) *)

Definition passesSampleCheckLocked (event : LogEvent) p : bool :=
  if (mShardCount p <=? 1) || (Z.of_nat (length (mSampledWhatFields p)) =? 0) then true
  else
    match sampleFieldValue event with
    | None => true
    | Some v => shouldKeepSample v getShardOffset (mShardCount p)
    end.

(** The [condition] flag the pipeline hands to the variant-specific update. *)
Definition eventCondition (event : LogEvent) p : bool :=
  if mConditionSliced p then bool_decide (wizardQuery event = kTrue)
  else bool_decide (mCondition p = kTrue).

Definition onMatchedLogEventLocked (matcherIndex : Z) (event : LogEvent) p
    : CountMetricProducer :=
  if negb (mIsActive p) then p
  else
    let eventTimeNs := GetElapsedTimestampNs event in
    if eventTimeNs <? mTimeBaseNs p then p
    else if negb (passesSampleCheckLocked event p) then p
    else
      onMatchedLogEventInternalLocked matcherIndex (metricKey event)
        (eventCondition event p) event p.

(** *** Persistence of activations *)

Definition loadActiveEventActivation (currentTimeNs : Z) p
    (activeEventActivation : ActiveEventActivation) : CountMetricProducer :=
  match mEventActivationMap p !! atom_matcher_index activeEventActivation with
  | None => p
  | Some activation =>
    if negb (has_state activeEventActivation)
       || bool_decide (state_field activeEventActivation = Some ACTIVE) then
      let activation :=
        Activation_set_state kActive
          (Activation_set_start_ns
             (Int64.sub (Int64.add currentTimeNs (remaining_ttl_nanos activeEventActivation))
                        (ttl_ns activation))
             activation) in
      set_mIsActive true
        (set_mEventActivationMap
           (<[atom_matcher_index activeEventActivation := activation]>
              (mEventActivationMap p)) p)
    else if bool_decide (state_field activeEventActivation = Some ACTIVATE_ON_BOOT_STATE) then
      set_mEventActivationMap
        (<[atom_matcher_index activeEventActivation :=
             Activation_set_state kActiveOnBoot activation]> (mEventActivationMap p)) p
    else p
  end.

Definition loadActiveMetricLocked (activeMetric : ActiveMetric) (currentTimeNs : Z) p
    : CountMetricProducer :=
  if Z.of_nat (size (mEventActivationMap p)) =? 0 then p
  else foldl (loadActiveEventActivation currentTimeNs) p (activation activeMetric).

(** The message written for one entry of [mEventActivationMap], if any. *)
Definition writeActiveEventActivation (currentTimeNs : Z) (reason : DumpReportReason)
    (entry : Z * Activation) : option ActiveEventActivation :=
  let '(atom_matcher_index, activation) := entry in
  if bool_decide (state activation = kNotActive)
     || (bool_decide (state activation = kActive)
         && (Int64.add (start_ns activation) (ttl_ns activation) <? currentTimeNs))
  then None
  else
    Some
      match state activation with
      | kActive =>
        let remainingTtlNs :=
          Int64.sub (Int64.add (start_ns activation) (ttl_ns activation)) currentTimeNs in
        {| atom_matcher_index := atom_matcher_index;
           remaining_ttl_nanos_field := Some remainingTtlNs;
           state_field := Some ACTIVE |}
      | kActiveOnBoot =>
        match reason with
        | DEVICE_SHUTDOWN | TERMINATION_SIGNAL_RECEIVED =>
          {| atom_matcher_index := atom_matcher_index;
             remaining_ttl_nanos_field := Some (ttl_ns activation);
             state_field := Some ACTIVE |}
        | STATSCOMPANION_DIED =>
          {| atom_matcher_index := atom_matcher_index;
             remaining_ttl_nanos_field := None;
             state_field := Some ACTIVATE_ON_BOOT_STATE |}
        | OTHER_REASON =>
          {| atom_matcher_index := atom_matcher_index;
             remaining_ttl_nanos_field := None;
             state_field := None |}
        end
      | kNotActive =>
        (* not reached: skipped by the test above *)
        {| atom_matcher_index := atom_matcher_index;
           remaining_ttl_nanos_field := None;
           state_field := None |}
      end.

Definition writeActiveMetricToProtoOutputStream (currentTimeNs : Z)
    (reason : DumpReportReason) p : ActiveMetric :=
  {| active_metric_id := mMetricId p;
     activation :=
       omap (writeActiveEventActivation currentTimeNs reason)
            (map_to_list (mEventActivationMap p)) |}.

(** *** Reports and data drops *)

Definition clearPastBucketsLocked (dumpTimeNs : Z) p : CountMetricProducer :=
  set_mPastBuckets ∅ p.

Definition writeCountBucketInfo p (bucket : CountBucket) : CountBucketInfo :=
  let partial :=
    negb (Int64.sub (mBucketEndNs bucket) (mBucketStartNs bucket) =? mBucketSizeNs p) in
  {| bucket_num :=
       if partial then None else Some (getBucketNumFromEndTimeNs p (mBucketEndNs bucket));
     start_bucket_elapsed_millis :=
       if partial then Some (NanoToMillis (mBucketStartNs bucket)) else None;
     end_bucket_elapsed_millis :=
       if partial then Some (NanoToMillis (mBucketEndNs bucket)) else None;
     count := mCount bucket;
     condition_true_ns :=
       if (0 <=? mConditionTrackerIndex p)
          && bool_decide (mSlicedStateAtoms p = [])
          && negb (mConditionSliced p)
       then Some (mConditionTrueNs bucket) else None |}.

Definition writeCountMetricData p (counter : MetricDimensionKey * list CountBucket)
    : CountMetricData :=
  {| data_key := counter.1;
     dimension_nested := mShouldUseNestedDimensions p;
     bucket_info := writeCountBucketInfo p <$> counter.2 |}.

(** The first statement of [onDumpReportLocked]. *)
Definition flushedForDump (dumpTimeNs : Z) (include_current_partial_bucket : bool) p
    : CountMetricProducer :=
  if include_current_partial_bucket then flushLocked dumpTimeNs p
  else flushIfNeededLocked dumpTimeNs p.

Definition onDumpReportLocked (dumpTimeNs : Z) (include_current_partial_bucket : bool)
    (erase_data : bool) (dumpLatency : DumpLatency) p
    : CountMetricProducer * StatsLogReport :=
  let p := flushedForDump dumpTimeNs include_current_partial_bucket p in
  if bool_decide (mPastBuckets p = ∅) then
    (p, {| report_id := mMetricId p; is_active := isActiveLocked p;
           dimension_guardrail_hit := None; time_base := None; bucket_size := None;
           dimension_path_in_what := None; count_metrics := [] |})
  else
    let report :=
      {| report_id := mMetricId p; is_active := isActiveLocked p;
         dimension_guardrail_hit :=
           if mDimensionGuardrailHit p then Some (mDimensionGuardrailHit p) else None;
         time_base := Some (mTimeBaseNs p);
         bucket_size := Some (mBucketSizeNs p);
         dimension_path_in_what :=
           if negb (mShouldUseNestedDimensions p)
              && negb (bool_decide (mDimensionsInWhat p = []))
           then Some (mDimensionsInWhat p) else None;
         count_metrics := writeCountMetricData p <$> map_to_list (mPastBuckets p) |} in
    if erase_data
    then (set_mDimensionGuardrailHit false (set_mPastBuckets ∅ p), report)
    else (p, report).

Definition dropDataLocked (dropTimeNs : Z) p : CountMetricProducer :=
  let p := flushIfNeededLocked dropTimeNs p in
  let p := StatsdStats_note (noteBucketDropped (mMetricId p)) p in
  set_mPastBuckets ∅ p.

End EventPipeline.

(** *** Construction *)

Section Construction.
Context `{Collaborators}.

(** The fields of the [CountMetric] configuration message the constructor
    reads. [bucket] is the bucket size in milliseconds that
    [TimeUnitToBucketSizeInMillisGuardrailed] returns, when the metric has a
    bucket; [use_nested_dimensions] is the result of
    [ShouldUseNestedDimensions]; [has_links] says whether the metric links
    its fields to a sliced condition. *)
Record CountMetric := {
  metric_id : Z;
  bucket : option Z;
  max_dimensions_per_bucket : Z;
  dimensions_in_what : list Z;
  use_nested_dimensions : bool;
  has_links : bool;
  threshold : option UploadThreshold
}.

Definition LLONG_MAX : Z := Int64.max_signed.

Definition newCountMetricProducer (key : Z) (metric : CountMetric) (conditionIndex : Z)
    (initialCondition : ConditionState) (timeBaseNs startTimeNs : Z)
    (eventActivationMap : gmap Z Activation) (eventDeactivationMap : gmap Z (list Z))
    (slicedStateAtoms : list Z) : CountMetricProducer :=
  let p :=
    {| mMetricId := metric_id metric; mConfigKey := key; mTimeBaseNs := timeBaseNs;
       mCurrentBucketStartTimeNs := timeBaseNs; mCurrentBucketNum := 0;
       mBucketSizeNs := match bucket metric with
                        | Some millis => Int64.mul millis 1000000
                        | None => LLONG_MAX
                        end;
       mCondition := initialCondition;
       mConditionTimer := ConditionTimer_new false timeBaseNs;
       mConditionTrackerIndex := conditionIndex;
       mConditionSliced := has_links metric;
       mEventActivationMap := eventActivationMap;
       mEventDeactivationMap := eventDeactivationMap;
       mIsActive := bool_decide (eventActivationMap = ∅);
       mSlicedStateAtoms := slicedStateAtoms;
       mDimensionsInWhat := dimensions_in_what metric;
       mShouldUseNestedDimensions := use_nested_dimensions metric;
       mHasHitGuardrail := false; mSampledWhatFields := []; mShardCount := 0;
       mAnomalyTrackers := [];
       mCurrentSlicedCounter := ∅; mCurrentFullCounters := ∅; mPastBuckets := ∅;
       mDimensionGuardrailHit := false;
       mDimensionHardLimit :=
         clampDimensionKeySizeLimit (max_dimensions_per_bucket metric);
       mUploadThreshold := threshold metric;
       statsdStats := []; anomalyCalls := [] |} in
  let p := flushIfNeededLocked startTimeNs p in
  let p := set_mCurrentBucketStartTimeNs startTimeNs p in
  let p := set_mConditionTimer
             (ConditionTimer_newBucketStart (mConditionTimer p)
                (mCurrentBucketStartTimeNs p) (mCurrentBucketStartTimeNs p)).1 p in
  set_mConditionTimer
    (ConditionTimer_onConditionChanged (mConditionTimer p)
       (mIsActive p && bool_decide (mCondition p = kTrue))
       (mCurrentBucketStartTimeNs p)) p.

End Construction.

(** ** The pull scheduler ([StatsPullerManager.cpp]) *)

Definition NS_PER_SEC : Z := 1000000000.
Definition NO_ALARM_UPDATE : Z := Int64.max_signed.

Inductive PullErrorCode := PULL_SUCCESS | PULL_FAIL | PULL_DEAD_OBJECT.
Inductive PullResult := PULL_RESULT_SUCCESS | PULL_RESULT_FAIL | PULL_NOT_NEEDED.

#[global] Instance PullErrorCode_eq_dec : EqDecision PullErrorCode.
Proof. solve_decision. Defined.

(** [ConfigKey] is [(uid, id)], [PullerKey] is [(uid, atomTag)]. *)
Record ReceiverKey := {
  atomTag : Z;
  configKey : Z * Z
}.

#[global] Instance ReceiverKey_eq_dec : EqDecision ReceiverKey.
Proof. solve_decision. Defined.

(** [receiver] is the weak pointer, named by the object it points to. *)
Record ReceiverInfo := {
  intervalNs : Z;
  nextPullTimeNs : Z;
  receiver : Z
}.

Definition set_nextPullTimeNs (v : Z) (r : ReceiverInfo) : ReceiverInfo :=
  {| intervalNs := intervalNs r; nextPullTimeNs := v; receiver := receiver r |}.

(** A pulled event: its payload and the two timestamps [OnAlarmFired] sets. *)
Record PulledEvent := {
  payload : Z;
  elapsedTimestampNs : Z;
  logdWallClockTimestampNs : Z
}.

(** The world outside the manager at the time of a call: which weak
    pointers still promote, what the receivers and uid providers answer,
    what each puller returns, and the wall clock. *)
Record Environment := {
  receiver_promote : Z → bool;
  isPullNeeded : Z → bool;
  provider_promote : Z → bool;
  getPullAtomUids : Z → Z → list Z;
  puller_Pull : Z → Z → PullErrorCode * list PulledEvent;
  getWallClockNs : Z
}.

(** Calls the manager makes, in order. [PullLocked_called] marks each pull
    [OnAlarmFired] dispatches. *)
Inductive PullerEffect :=
| PullLocked_called (tagId : Z) (configKey : Z * Z) (eventTimeNs : Z)
| onDataPulled (receiver : Z) (data : list PulledEvent) (result : PullResult)
    (elapsedTimeNs : Z)
| setPullingAlarm (millis : Z)
| notePullUidProviderNotFound (tagId : Z)
| notePullFailed (tagId : Z)
| notePullerCallbackRegistrationChanged (tagId : Z) (registered : bool)
| notePullerNotFound (tagId : Z).

Record StatsPullerManager := {
  kAllPullAtomInfo : gmap (Z * Z) Z;
  mReceivers : list (ReceiverKey * list ReceiverInfo);
  mPullUidProviders : gmap (Z * Z) Z;
  mNextPullTimeNs : Z;
  mStatsCompanionService : bool;
  effects : list PullerEffect
}.

Definition set_kAllPullAtomInfo (v : gmap (Z * Z) Z) (s : StatsPullerManager) :=
  {| kAllPullAtomInfo := v; mReceivers := mReceivers s;
     mPullUidProviders := mPullUidProviders s; mNextPullTimeNs := mNextPullTimeNs s;
     mStatsCompanionService := mStatsCompanionService s; effects := effects s |}.

Definition set_mReceivers (v : list (ReceiverKey * list ReceiverInfo))
    (s : StatsPullerManager) :=
  {| kAllPullAtomInfo := kAllPullAtomInfo s; mReceivers := v;
     mPullUidProviders := mPullUidProviders s; mNextPullTimeNs := mNextPullTimeNs s;
     mStatsCompanionService := mStatsCompanionService s; effects := effects s |}.

Definition set_mNextPullTimeNs (v : Z) (s : StatsPullerManager) :=
  {| kAllPullAtomInfo := kAllPullAtomInfo s; mReceivers := mReceivers s;
     mPullUidProviders := mPullUidProviders s; mNextPullTimeNs := v;
     mStatsCompanionService := mStatsCompanionService s; effects := effects s |}.

Definition set_effects (v : list PullerEffect) (s : StatsPullerManager) :=
  {| kAllPullAtomInfo := kAllPullAtomInfo s; mReceivers := mReceivers s;
     mPullUidProviders := mPullUidProviders s; mNextPullTimeNs := mNextPullTimeNs s;
     mStatsCompanionService := mStatsCompanionService s; effects := v |}.

Definition emit (e : PullerEffect) (s : StatsPullerManager) : StatsPullerManager :=
  set_effects (effects s ++ [e]) s.

(** [PullLocked(tagId, uids, ...)]: the first uid with a registered puller
    decides. *)
Fixpoint PullLocked_uids (env : Environment) (tagId : Z) (uids : list Z) (eventTimeNs : Z)
    (s : StatsPullerManager) : StatsPullerManager * bool * list PulledEvent :=
  match uids with
  | [] => (emit (notePullerNotFound tagId) s, false, [])
  | uid :: uids =>
    match kAllPullAtomInfo s !! (uid, tagId) with
    | Some puller =>
      let '(status, data) := puller_Pull env puller eventTimeNs in
      let s := if bool_decide (status = PULL_SUCCESS) then s
               else emit (notePullFailed tagId) s in
      let s := if bool_decide (status = PULL_DEAD_OBJECT)
               then set_kAllPullAtomInfo (delete (uid, tagId) (kAllPullAtomInfo s))
                      (emit (notePullerCallbackRegistrationChanged tagId false) s)
               else s in
      (s, bool_decide (status = PULL_SUCCESS), data)
    | None => PullLocked_uids env tagId uids eventTimeNs s
    end
  end.

Definition PullLocked (env : Environment) (tagId : Z) (configKey : Z * Z) (eventTimeNs : Z)
    (s : StatsPullerManager) : StatsPullerManager * bool * list PulledEvent :=
  match mPullUidProviders s !! configKey with
  | None => (emit (notePullUidProviderNotFound tagId) s, false, [])
  | Some provider =>
    if negb (provider_promote env provider)
    then (emit (notePullUidProviderNotFound tagId) s, false, [])
    else PullLocked_uids env tagId (getPullAtomUids env provider tagId) eventTimeNs s
  end.

Definition updateAlarmLocked (s : StatsPullerManager) : StatsPullerManager :=
  if mNextPullTimeNs s =? NO_ALARM_UPDATE then s
  else if mStatsCompanionService s
       then emit (setPullingAlarm (Int64.div (mNextPullTimeNs s) 1000000)) s
       else s.

Definition roundedIntervalNs (intervalNs : Z) : Z :=
  let rounded :=
    Int64.mul (Int64.mul (Int64.div (Int64.div intervalNs NS_PER_SEC) 60) NS_PER_SEC) 60 in
  if rounded <? Int64.mul 60 NS_PER_SEC then Int64.mul 60 NS_PER_SEC else rounded.

(** [RegisterReceiver]. A key that is not in the table yet gets a list of its
    own ([mReceivers[key]]). [mReceivers] is a [std::map], kept in the order
    of [ReceiverKey]'s [operator<], which [StatsPullerManager.h] declares;
    here a new key is added at the end, so the table is in the order in which
    the keys were first registered. The position of a key decides only when
    [OnAlarmFired] comes to it among the other keys; the properties below
    are stated for a table in any order, or by key. [None]: the receiver is
    already registered under the key. *)
Fixpoint registerInTable (key : ReceiverKey) (receiverInfo : ReceiverInfo)
    (table : list (ReceiverKey * list ReceiverInfo))
    : option (list (ReceiverKey * list ReceiverInfo)) :=
  match table with
  | [] => Some [(key, [receiverInfo])]
  | (k, receivers) :: rest =>
    if bool_decide (k = key) then
      if bool_decide (receiver receiverInfo ∈ receiver <$> receivers) then None
      else Some ((k, receivers ++ [receiverInfo]) :: rest)
    else cons (k, receivers) <$> registerInTable key receiverInfo rest
  end.

Definition RegisterReceiver (tagId : Z) (configKey : Z * Z) (receiver : Z)
    (nextPullTimeNs intervalNs : Z) (s : StatsPullerManager) : StatsPullerManager :=
  let receiverInfo :=
    {| intervalNs := roundedIntervalNs intervalNs;
       nextPullTimeNs := nextPullTimeNs;
       receiver := receiver |} in
  match registerInTable {| atomTag := tagId; configKey := configKey |} receiverInfo
                        (mReceivers s) with
  | None => s
  | Some table =>
    let s := set_mReceivers table s in
    if nextPullTimeNs <? mNextPullTimeNs s
    then updateAlarmLocked (set_mNextPullTimeNs nextPullTimeNs s)
    else s
  end.

(** The three lines both loops of [OnAlarmFired] use to move a receiver's
    next pull time: [numBucketsAhead] is a 32-bit [int]. *)
Definition advanceNextPullTime (elapsedTimeNs : Z) (receiverInfo : ReceiverInfo)
    : ReceiverInfo :=
  let numBucketsAhead :=
    Int64.to_int (Int64.div (Int64.sub elapsedTimeNs (nextPullTimeNs receiverInfo))
                            (intervalNs receiverInfo)) in
  set_nextPullTimeNs
    (Int64.add (nextPullTimeNs receiverInfo)
               (Int64.mul (Int64.to_int (numBucketsAhead + 1)) (intervalNs receiverInfo)))
    receiverInfo.

(** First loop of [OnAlarmFired], over the receivers of one key. [j] is the
    position of the first receiver of [receivers] in the key's list; the
    result lists the positions of the receivers that will pull (the
    [ReceiverInfo*] the source collects). [None]: the source calls
    [onDataPulled] through a null [receiverPtr]. *)
Fixpoint scanReceiverList (env : Environment) (elapsedTimeNs : Z) (j : nat)
    (receivers : list ReceiverInfo) (minNextPullTimeNs : Z) (eff : list PullerEffect)
    : option (list ReceiverInfo * list nat * Z * list PullerEffect) :=
  match receivers with
  | [] => Some ([], [], minNextPullTimeNs, eff)
  | receiverInfo :: rest =>
    let receiverPtr := receiver_promote env (receiver receiverInfo) in
    let pullNecessary := receiverPtr && isPullNeeded env (receiver receiverInfo) in
    if (nextPullTimeNs receiverInfo <=? elapsedTimeNs) && pullNecessary then
      '(rest, selected, minNextPullTimeNs, eff) ←
        scanReceiverList env elapsedTimeNs (S j) rest minNextPullTimeNs eff;
      Some (receiverInfo :: rest, j :: selected, minNextPullTimeNs, eff)
    else if nextPullTimeNs receiverInfo <=? elapsedTimeNs then
      if receiverPtr then
        let eff := eff ++ [onDataPulled (receiver receiverInfo) [] PULL_NOT_NEEDED
                                        elapsedTimeNs] in
        let receiverInfo := advanceNextPullTime elapsedTimeNs receiverInfo in
        '(rest, selected, minNextPullTimeNs, eff) ←
          scanReceiverList env elapsedTimeNs (S j) rest
            (Z.min (nextPullTimeNs receiverInfo) minNextPullTimeNs) eff;
        Some (receiverInfo :: rest, selected, minNextPullTimeNs, eff)
      else None
    else
      '(rest, selected, minNextPullTimeNs, eff) ←
        scanReceiverList env elapsedTimeNs (S j) rest
          (Z.min (nextPullTimeNs receiverInfo) minNextPullTimeNs) eff;
      Some (receiverInfo :: rest, selected, minNextPullTimeNs, eff)
  end.

(** First loop of [OnAlarmFired], over the table. [i] is the position of
    the first entry of [table] in [mReceivers]; [needToPull] pairs the
    position of a key with the positions of its receivers that will pull. *)
Fixpoint scanReceivers (env : Environment) (elapsedTimeNs : Z) (i : nat)
    (table : list (ReceiverKey * list ReceiverInfo)) (minNextPullTimeNs : Z)
    (eff : list PullerEffect)
    : option (list (ReceiverKey * list ReceiverInfo) * list (nat * list nat)
              * Z * list PullerEffect) :=
  match table with
  | [] => Some ([], [], minNextPullTimeNs, eff)
  | (key, receivers) :: rest =>
    if negb (Z.of_nat (length receivers) =? 0) then
      '(receivers, selected, minNextPullTimeNs, eff) ←
        scanReceiverList env elapsedTimeNs 0 receivers minNextPullTimeNs eff;
      '(rest, needToPull, minNextPullTimeNs, eff) ←
        scanReceivers env elapsedTimeNs (S i) rest minNextPullTimeNs eff;
      Some ((key, receivers) :: rest,
            if 0 <? Z.of_nat (length selected) then (i, selected) :: needToPull
            else needToPull,
            minNextPullTimeNs, eff)
    else
      '(rest, needToPull, minNextPullTimeNs, eff) ←
        scanReceivers env elapsedTimeNs (S i) rest minNextPullTimeNs eff;
      Some ((key, receivers) :: rest, needToPull, minNextPullTimeNs, eff)
  end.

(** Second loop, inner part: hand the data to every selected receiver of a
    key and move its next pull time, through the collected positions. *)
Definition notifyReceiver (env : Environment) (elapsedTimeNs : Z)
    (data : list PulledEvent) (pullResult : PullResult)
    (acc : list ReceiverInfo * Z * list PullerEffect) (j : nat)
    : list ReceiverInfo * Z * list PullerEffect :=
  let '(receivers, minNextPullTimeNs, eff) := acc in
  match receivers !! j with
  | Some receiverInfo =>
    if receiver_promote env (receiver receiverInfo) then
      let eff := eff ++ [onDataPulled (receiver receiverInfo) data pullResult
                                      elapsedTimeNs] in
      let receiverInfo := advanceNextPullTime elapsedTimeNs receiverInfo in
      (<[j := receiverInfo]> receivers,
       Z.min (nextPullTimeNs receiverInfo) minNextPullTimeNs, eff)
    else acc
  | None => acc
  end.

Definition stampPulledEvent (elapsedTimeNs wallClockNs : Z) (event : PulledEvent)
    : PulledEvent :=
  {| payload := payload event; elapsedTimestampNs := elapsedTimeNs;
     logdWallClockTimestampNs := wallClockNs |}.

(** Second loop, one entry of [needToPull]. *)
Definition pullAndNotify (env : Environment) (elapsedTimeNs wallClockNs : Z)
    (acc : StatsPullerManager * Z) (pullInfo : nat * list nat) : StatsPullerManager * Z :=
  let '(s, minNextPullTimeNs) := acc in
  match mReceivers s !! pullInfo.1 with
  | Some (key, receivers) =>
    let s := emit (PullLocked_called (atomTag key) (configKey key) elapsedTimeNs) s in
    let '(s, ok, data) := PullLocked env (atomTag key) (configKey key) elapsedTimeNs s in
    let pullResult := if ok then PULL_RESULT_SUCCESS else PULL_RESULT_FAIL in
    let data := stampPulledEvent elapsedTimeNs wallClockNs <$> data in
    let '(receivers, minNextPullTimeNs, eff) :=
      foldl (notifyReceiver env elapsedTimeNs data pullResult)
            (receivers, minNextPullTimeNs, effects s) pullInfo.2 in
    (set_effects eff (set_mReceivers (<[pullInfo.1 := (key, receivers)]> (mReceivers s)) s),
     minNextPullTimeNs)
  | None => acc
  end.

Definition OnAlarmFired (env : Environment) (elapsedTimeNs : Z) (s : StatsPullerManager)
    : option StatsPullerManager :=
  let wallClockNs := getWallClockNs env in
  '(table, needToPull, minNextPullTimeNs, eff) ←
    scanReceivers env elapsedTimeNs 0 (mReceivers s) NO_ALARM_UPDATE (effects s);
  let s := set_effects eff (set_mReceivers table s) in
  let '(s, minNextPullTimeNs) :=
    foldl (pullAndNotify env elapsedTimeNs wallClockNs) (s, minNextPullTimeNs) needToPull in
  Some (updateAlarmLocked (set_mNextPullTimeNs minNextPullTimeNs s)).

(** The pulls a call dispatched: the [PullLocked_called] marks among the
    effects it added. *)
Definition isPull (e : PullerEffect) : bool :=
  match e with PullLocked_called _ _ _ => true | _ => false end.

Definition isDataPulled (e : PullerEffect) : bool :=
  match e with onDataPulled _ _ _ _ => true | _ => false end.

(** ** Registration ([StatsPullerManager.cpp]) *)

Definition set_mPullUidProviders (v : gmap (Z * Z) Z) (s : StatsPullerManager) :=
  {| kAllPullAtomInfo := kAllPullAtomInfo s; mReceivers := mReceivers s;
     mPullUidProviders := v; mNextPullTimeNs := mNextPullTimeNs s;
     mStatsCompanionService := mStatsCompanionService s; effects := effects s |}.

Definition set_mStatsCompanionService (v : bool) (s : StatsPullerManager) :=
  {| kAllPullAtomInfo := kAllPullAtomInfo s; mReceivers := mReceivers s;
     mPullUidProviders := mPullUidProviders s; mNextPullTimeNs := mNextPullTimeNs s;
     mStatsCompanionService := v; effects := effects s |}.

(** [SetStatsCompanionService]; [true] is a service that is not null. The
    pullers of [kAllPullAtomInfo] are handed the service as well; what they
    do with it is not part of the manager's state. *)
Definition SetStatsCompanionService (statsCompanionService : bool) (s : StatsPullerManager)
    : StatsPullerManager :=
  let s := set_mStatsCompanionService statsCompanionService s in
  if mStatsCompanionService s then updateAlarmLocked s else s.

(** The loop of [UnRegisterReceiver]: erase the first entry of the list that
    holds the receiver. *)
Fixpoint eraseReceiver (target : Z) (receivers : list ReceiverInfo) : list ReceiverInfo :=
  match receivers with
  | [] => []
  | receiverInfo :: rest =>
    if bool_decide (target = receiver receiverInfo) then rest
    else receiverInfo :: eraseReceiver target rest
  end.

Fixpoint unregisterInTable (key : ReceiverKey) (target : Z)
    (table : list (ReceiverKey * list ReceiverInfo))
    : list (ReceiverKey * list ReceiverInfo) :=
  match table with
  | [] => []
  | (k, receivers) :: rest =>
    if bool_decide (k = key) then (k, eraseReceiver target receivers) :: rest
    else (k, receivers) :: unregisterInTable key target rest
  end.

Definition UnRegisterReceiver (tagId : Z) (configKey : Z * Z) (receiver : Z)
    (s : StatsPullerManager) : StatsPullerManager :=
  set_mReceivers
    (unregisterInTable {| atomTag := tagId; configKey := configKey |} receiver
       (mReceivers s)) s.

Definition RegisterPullUidProvider (configKey : Z * Z) (provider : Z)
    (s : StatsPullerManager) : StatsPullerManager :=
  set_mPullUidProviders (<[configKey := provider]> (mPullUidProviders s)) s.

Definition UnregisterPullUidProvider (configKey : Z * Z) (provider : Z)
    (s : StatsPullerManager) : StatsPullerManager :=
  match mPullUidProviders s !! configKey with
  | Some registered =>
    if bool_decide (registered = provider)
    then set_mPullUidProviders (delete configKey (mPullUidProviders s)) s
    else s
  | None => s
  end.

(** [RegisterPullAtomCallback]; [None] is a null callback. The new
    [StatsCallbackPuller] is named by its callback; the cool-down and the
    time-out the constructor of the puller is given stay inside the puller
    object. *)
Definition RegisterPullAtomCallback (uid atomTag : Z) (callback : option Z)
    (s : StatsPullerManager) : StatsPullerManager :=
  match callback with
  | None => s
  | Some puller =>
    let key := (uid, atomTag) in
    let s := if bool_decide (is_Some (kAllPullAtomInfo s !! key))
             then emit (notePullerCallbackRegistrationChanged atomTag false) s
             else s in
    emit (notePullerCallbackRegistrationChanged atomTag true)
         (set_kAllPullAtomInfo (<[key := puller]> (kAllPullAtomInfo s)) s)
  end.

Definition UnregisterPullAtomCallback (uid atomTag : Z) (s : StatsPullerManager)
    : StatsPullerManager :=
  let key := (uid, atomTag) in
  if bool_decide (is_Some (kAllPullAtomInfo s !! key))
  then set_kAllPullAtomInfo (delete key (kAllPullAtomInfo s))
         (emit (notePullerCallbackRegistrationChanged atomTag false) s)
  else s.

(** ** Input sequences

    What reaches a producer between two bucket boundaries: matched events,
    changes of its unsliced condition, and activation or deactivation
    triggers. *)
Inductive Input `{Collaborators} :=
| MatchedLogEvent (matcherIndex : Z) (event : LogEvent)
| ConditionChanged (conditionMet : bool) (eventTime : Z)
| Activate (activationTrackerIndex elapsedTimestampNs : Z)
| CancelEventActivation (deactivationTrackerIndex : Z).

Definition deliver `{Collaborators} (p : CountMetricProducer) (input : Input)
    : CountMetricProducer :=
  match input with
  | MatchedLogEvent matcherIndex event => onMatchedLogEventLocked matcherIndex event p
  | ConditionChanged conditionMet eventTime =>
    onConditionChangedLocked conditionMet eventTime p
  | Activate index elapsedTimestampNs => activateLocked index elapsedTimestampNs p
  | CancelEventActivation index => cancelEventActivationLocked index p
  end.

Definition deliverAll `{Collaborators} (p : CountMetricProducer) (inputs : list Input)
    : CountMetricProducer :=
  foldl deliver p inputs.

(** ** Counting events

    The checks an event passes before the count update: the metric is
    active, the event is not older than the time base, it passes the
    sampling check and its condition is true. The event is counted when,
    moreover, the dimension guardrail does not drop its key. *)
Definition reachesCountUpdate `{Collaborators} (p : CountMetricProducer) (event : LogEvent)
    : bool :=
  mIsActive p
  && (mTimeBaseNs p <=? GetElapsedTimestampNs event)
  && passesSampleCheckLocked event p
  && eventCondition event p.

Definition droppedByGuardrail `{Collaborators} (p : CountMetricProducer)
    (key : MetricDimensionKey) : bool :=
  (hitGuardRailLocked key p).2.

Definition eventIsCounted `{Collaborators} (p : CountMetricProducer) (event : LogEvent)
    : bool :=
  reachesCountUpdate p event && negb (droppedByGuardrail p (metricKey event)).

(** The number of events for key [k] among [inputs] that are counted, each
    judged in the state the producer has when the event arrives. *)
Fixpoint countedEvents `{Collaborators} (k : MetricDimensionKey) (p : CountMetricProducer)
    (inputs : list Input) : nat :=
  match inputs with
  | [] => 0%nat
  | input :: rest =>
    ((match input with
      | MatchedLogEvent _ event =>
        if eventIsCounted p event && bool_decide (metricKey event = k) then 1 else 0
      | _ => 0
      end) + countedEvents k (deliver p input) rest)%nat
  end.

(** An input sequence stays within the current bucket when no event of it
    reaches the end of the bucket. *)
Definition inCurrentBucket `{Collaborators} (p : CountMetricProducer) (input : Input)
    : Prop :=
  match input with
  | MatchedLogEvent _ event => GetElapsedTimestampNs event < getCurrentBucketEndTimeNs p
  | _ => True
  end.

(** ** Pull rotation: what a call of [OnAlarmFired] is expected to do

    A receiver is due at [t] when its next pull time is not after [t]. The
    call is defined when every due receiver still promotes; the arithmetic
    does not overflow when intervals are at least a minute (as
    [RegisterReceiver] makes them), next pull times are not negative and
    [t] plus one interval fits an [int64_t]. *)
Definition advanceIfDue (elapsedTimeNs : Z) (r : ReceiverInfo) : ReceiverInfo :=
  if nextPullTimeNs r <=? elapsedTimeNs then advanceNextPullTime elapsedTimeNs r else r.

Definition advanceDueReceivers (elapsedTimeNs : Z)
    (table : list (ReceiverKey * list ReceiverInfo))
    : list (ReceiverKey * list ReceiverInfo) :=
  (λ entry : ReceiverKey * list ReceiverInfo,
     (entry.1, advanceIfDue elapsedTimeNs <$> entry.2)) <$> table.

Definition dueReceiverAlive (env : Environment) (elapsedTimeNs : Z) (r : ReceiverInfo)
    : Prop :=
  nextPullTimeNs r <= elapsedTimeNs → receiver_promote env (receiver r) = true.

Definition dueReceiversAlive (env : Environment) (elapsedTimeNs : Z)
    (table : list (ReceiverKey * list ReceiverInfo)) : Prop :=
  Forall (λ entry : ReceiverKey * list ReceiverInfo,
            Forall (dueReceiverAlive env elapsedTimeNs) entry.2) table.

Definition receiverInRange (elapsedTimeNs : Z) (r : ReceiverInfo) : Prop :=
  60 * NS_PER_SEC <= intervalNs r
  ∧ 0 <= nextPullTimeNs r
  ∧ elapsedTimeNs + intervalNs r <= Int64.max_signed.

Definition receiversInRange (elapsedTimeNs : Z)
    (table : list (ReceiverKey * list ReceiverInfo)) : Prop :=
  Forall (λ entry : ReceiverKey * list ReceiverInfo,
            Forall (receiverInRange elapsedTimeNs) entry.2) table.

(** The quotient rounded up, for a positive divisor. *)
Definition ceilDiv (a b : Z) : Z := (a + b - 1) / b.

(** ** The receiver table

    The receivers registered under a key ([mReceivers] is a map: the first
    entry of a key is its only one), the next pull times of all receivers,
    and the earliest of them, [NO_ALARM_UPDATE] when there is none. A
    receiver is registered once when no list holds it twice. *)
Fixpoint receiversOf (key : ReceiverKey) (table : list (ReceiverKey * list ReceiverInfo))
    : list ReceiverInfo :=
  match table with
  | [] => []
  | (k, receivers) :: rest =>
    if bool_decide (k = key) then receivers else receiversOf key rest
  end.

Definition nextPullTimes (table : list (ReceiverKey * list ReceiverInfo)) : list Z :=
  table ≫= λ entry : ReceiverKey * list ReceiverInfo, nextPullTimeNs <$> entry.2.

Definition earliestNextPullTime (table : list (ReceiverKey * list ReceiverInfo)) : Z :=
  foldr Z.min NO_ALARM_UPDATE (nextPullTimes table).

Definition registeredOnce (table : list (ReceiverKey * list ReceiverInfo)) : Prop :=
  Forall (λ entry : ReceiverKey * list ReceiverInfo, NoDup (receiver <$> entry.2)) table.

(** The alarm is not late when it is not after any receiver's next pull
    time. *)
Definition alarmNotLate (s : StatsPullerManager) : Prop :=
  Forall (λ t, mNextPullTimeNs s <= t) (nextPullTimes (mReceivers s)).

(** ** Notifications

    The receivers a sequence of calls hands data to, in order; the
    receivers that are due at a time, list by list; and what a receiver is
    to be told at an alarm: the time of the alarm, with no data and
    [PULL_NOT_NEEDED] when it does not need the pull, and with the outcome
    of the pull otherwise. *)
Definition notifiedReceivers (calls : list PullerEffect) : list Z :=
  omap (λ e, match e with
             | onDataPulled receiver _ _ _ => Some receiver
             | _ => None
             end) calls.

Definition dueReceivers (elapsedTimeNs : Z) (table : list (ReceiverKey * list ReceiverInfo))
    : list Z :=
  table ≫= λ entry : ReceiverKey * list ReceiverInfo,
    receiver <$> filter (λ r, nextPullTimeNs r <= elapsedTimeNs) entry.2.

Definition wellNotified (env : Environment) (elapsedTimeNs : Z) (e : PullerEffect) : Prop :=
  match e with
  | onDataPulled receiver data result time =>
    time = elapsedTimeNs
    ∧ (isPullNeeded env receiver = false → result = PULL_NOT_NEEDED ∧ data = [])
    ∧ (isPullNeeded env receiver = true → result ≠ PULL_NOT_NEEDED)
  | _ => True
  end.

(** The pulls a sequence of calls dispatched, in order, and the pulls an
    alarm at a time is to dispatch: one for every key with a receiver that
    is due, alive and in need of the pull ([pullNecessary] and the time test
    of the first loop). *)
Definition dispatchedPulls (calls : list PullerEffect) : list (Z * (Z * Z) * Z) :=
  omap (λ e, match e with
             | PullLocked_called tagId configKey eventTimeNs =>
               Some (tagId, configKey, eventTimeNs)
             | _ => None
             end) calls.

Definition pullNecessaryNow (env : Environment) (elapsedTimeNs : Z) (r : ReceiverInfo)
    : bool :=
  (nextPullTimeNs r <=? elapsedTimeNs)
  && (receiver_promote env (receiver r) && isPullNeeded env (receiver r)).

Definition expectedPulls (env : Environment) (elapsedTimeNs : Z)
    (table : list (ReceiverKey * list ReceiverInfo)) : list (Z * (Z * Z) * Z) :=
  omap (λ entry : ReceiverKey * list ReceiverInfo,
          if existsb (pullNecessaryNow env elapsedTimeNs) entry.2
          then Some (atomTag entry.1, configKey entry.1, elapsedTimeNs) else None) table.

(** ** Ranges

    The conditions under which the bucket arithmetic of a producer does not
    overflow: a positive bucket size, a time base and bucket number that are
    not negative, and a current bucket end that fits an [int64_t]. *)
Definition bucketsInRange `{Collaborators} (p : CountMetricProducer) : Prop :=
  0 < mBucketSizeNs p
  ∧ 0 <= mTimeBaseNs p
  ∧ 0 <= mCurrentBucketNum p
  ∧ mTimeBaseNs p + (mCurrentBucketNum p + 1) * mBucketSizeNs p <= Int64.max_signed.

(** The current counter of a key; a key without an entry counts 0. *)
Definition counterAt `{Collaborators} (k : MetricDimensionKey) (p : CountMetricProducer) : Z :=
  default 0 (mCurrentSlicedCounter p !! k).

(** ** Concrete instances used in examples *)

(** Integer dimension keys, a condition timer that records nothing, and
    sampling that keeps a value whose remainder is the shard offset. *)
#[global] Instance exampleCollaborators : Collaborators := {|
  MetricDimensionKey := Z;
  ConditionTimer := unit;
  ConditionTimer_new := λ _ _, tt;
  ConditionTimer_newBucketStart := λ _ _ _, (tt, (0, 0));
  ConditionTimer_onConditionChanged := λ _ _ _, tt;
  shouldKeepSample := λ v offset shards, v mod shards =? offset;
  getShardOffset := 0
|}.

(** Scenario 1 of the specification: one-minute buckets from time 0, no
    condition, no activation. *)
Definition exampleMetric : CountMetric :=
  {| metric_id := 1; bucket := Some 60000; max_dimensions_per_bucket := 0;
     dimensions_in_what := [1]; use_nested_dimensions := false; has_links := false;
     threshold := None |}.

Definition exampleProducer : CountMetricProducer :=
  newCountMetricProducer 0 exampleMetric (-1) kTrue 0 0 ∅ ∅ [].

Definition exampleEvent (seconds : Z) (key : Z) : LogEvent :=
  {| GetElapsedTimestampNs := seconds * NS_PER_SEC; sampleFieldValue := None;
     wizardQuery := kUnknown; metricKey := key |}.

(** Scenario 4: one activation with a TTL of 100 s, started at 10 s. *)
Definition exampleActivation : Activation :=
  {| ttl_ns := 100 * NS_PER_SEC; start_ns := 10 * NS_PER_SEC; state := kActive;
     activationType := ACTIVATE_IMMEDIATELY |}.

Definition exampleActivatedProducer : CountMetricProducer :=
  set_mIsActive true
    (newCountMetricProducer 0 exampleMetric (-1) kTrue 0 0
       {[ 7 := exampleActivation ]} ∅ []).

(** The same producer re-created after a restart: the activation is
    configured with the same TTL and has not started. *)
Definition exampleRestartedProducer : CountMetricProducer :=
  newCountMetricProducer 0 exampleMetric (-1) kTrue 0 0
    {[ 7 := {| ttl_ns := 100 * NS_PER_SEC; start_ns := 0; state := kNotActive;
               activationType := ACTIVATE_IMMEDIATELY |} ]} ∅ [].

(** 801 events at 10 s with pairwise distinct keys: one more than the
    hard limit of the example metric (800). *)
Definition exampleBurst : list Input :=
  (λ k, MatchedLogEvent 0 (exampleEvent 10 (Z.of_nat k))) <$> seq 0 801.

(** Inputs within the first bucket: two counted events for key 5, the
    condition turning false, one more event for key 5, one for key 6. *)
Definition exampleInputs : list Input :=
  [ MatchedLogEvent 0 (exampleEvent 10 5); MatchedLogEvent 0 (exampleEvent 20 5);
    ConditionChanged false (25 * NS_PER_SEC);
    MatchedLogEvent 0 (exampleEvent 30 5); MatchedLogEvent 0 (exampleEvent 40 6) ].

(** Scenario 6: one receiver with an interval of 60 s, due at 60 s; the
    receiver is alive and needs its pull, the puller of uid 1000 succeeds. *)
Definition exampleReceiver : ReceiverInfo :=
  {| intervalNs := 60 * NS_PER_SEC; nextPullTimeNs := 60 * NS_PER_SEC; receiver := 1 |}.

Definition exampleManager : StatsPullerManager :=
  {| kAllPullAtomInfo := {[ (1000, 10001) := 1 ]};
     mReceivers := [({| atomTag := 10001; configKey := (0, 12345) |}, [exampleReceiver])];
     mPullUidProviders := {[ (0, 12345) := 1 ]};
     mNextPullTimeNs := 60 * NS_PER_SEC;
     mStatsCompanionService := true;
     effects := [] |}.

Definition exampleEnvironment : Environment :=
  {| receiver_promote := λ _, true;
     isPullNeeded := λ _, true;
     provider_promote := λ _, true;
     getPullAtomUids := λ _ _, [1000];
     puller_Pull := λ _ _, (PULL_SUCCESS, [{| payload := 42; elapsedTimestampNs := 0;
                                              logdWallClockTimestampNs := 0 |}]);
     getWallClockNs := 1700000000 * NS_PER_SEC |}.

(** A producer like [exampleProducer] that two anomaly trackers follow. *)
Definition exampleTrackedProducer : CountMetricProducer :=
  {| mMetricId := mMetricId exampleProducer; mConfigKey := mConfigKey exampleProducer;
     mTimeBaseNs := mTimeBaseNs exampleProducer;
     mCurrentBucketStartTimeNs := mCurrentBucketStartTimeNs exampleProducer;
     mCurrentBucketNum := mCurrentBucketNum exampleProducer;
     mBucketSizeNs := mBucketSizeNs exampleProducer;
     mCondition := mCondition exampleProducer;
     mConditionTimer := mConditionTimer exampleProducer;
     mConditionTrackerIndex := mConditionTrackerIndex exampleProducer;
     mConditionSliced := mConditionSliced exampleProducer;
     mEventActivationMap := mEventActivationMap exampleProducer;
     mEventDeactivationMap := mEventDeactivationMap exampleProducer;
     mIsActive := mIsActive exampleProducer;
     mSlicedStateAtoms := mSlicedStateAtoms exampleProducer;
     mDimensionsInWhat := mDimensionsInWhat exampleProducer;
     mShouldUseNestedDimensions := mShouldUseNestedDimensions exampleProducer;
     mHasHitGuardrail := mHasHitGuardrail exampleProducer;
     mSampledWhatFields := mSampledWhatFields exampleProducer;
     mShardCount := mShardCount exampleProducer;
     mAnomalyTrackers := [1; 2];
     mCurrentSlicedCounter := {[ 5 := 3 ]};
     mCurrentFullCounters := mCurrentFullCounters exampleProducer;
     mPastBuckets := mPastBuckets exampleProducer;
     mDimensionGuardrailHit := mDimensionGuardrailHit exampleProducer;
     mDimensionHardLimit := mDimensionHardLimit exampleProducer;
     mUploadThreshold := mUploadThreshold exampleProducer;
     statsdStats := statsdStats exampleProducer;
     anomalyCalls := anomalyCalls exampleProducer |}.

(** The same world, but the process of the puller has died. *)
Definition exampleDeadEnvironment : Environment :=
  {| receiver_promote := λ _, true;
     isPullNeeded := λ _, true;
     provider_promote := λ _, true;
     getPullAtomUids := λ _ _, [1000];
     puller_Pull := λ _ _, (PULL_DEAD_OBJECT, []);
     getWallClockNs := 1700000000 * NS_PER_SEC |}.

(** The same world, but the receivers are gone: no weak pointer to a
    receiver promotes any more. *)
Definition exampleGoneEnvironment : Environment :=
  {| receiver_promote := λ _, false;
     isPullNeeded := λ _, true;
     provider_promote := λ _, true;
     getPullAtomUids := λ _ _, [1000];
     puller_Pull := λ _ _, (PULL_SUCCESS, []);
     getWallClockNs := 1700000000 * NS_PER_SEC |}.

(** * Part II: properties *)

(** ** Fixed-width arithmetic *)

Lemma Int64_wrap_in_range x : Int64.in_range (Int64.wrap x).
Proof.
  unfold Int64.in_range, Int64.wrap, Int64.min_signed, Int64.max_signed.
  pose proof (Z.mod_pos_bound (x + 2 ^ 63) (2 ^ 64)). lia.
Qed.

Lemma Int64_wrap_id x : Int64.in_range x → Int64.wrap x = x.
Proof.
  unfold Int64.in_range, Int64.wrap, Int64.min_signed, Int64.max_signed.
  intros Hx. rewrite Z.mod_small; lia.
Qed.

Lemma Int64_wrap_wrap_add x y : Int64.wrap (Int64.wrap x + y) = Int64.wrap (x + y).
Proof.
  unfold Int64.wrap.
  replace ((x + 2 ^ 63) mod 2 ^ 64 - 2 ^ 63 + y + 2 ^ 63)
    with ((x + 2 ^ 63) mod 2 ^ 64 + y) by lia.
  rewrite Zplus_mod_idemp_l. f_equal. f_equal. lia.
Qed.

Lemma Int64_add_exact a b : Int64.in_range (a + b) → Int64.add a b = a + b.
Proof. apply Int64_wrap_id. Qed.

Lemma Int64_sub_exact a b : Int64.in_range (a - b) → Int64.sub a b = a - b.
Proof. apply Int64_wrap_id. Qed.

Lemma Int64_mul_exact a b : Int64.in_range (a * b) → Int64.mul a b = a * b.
Proof. apply Int64_wrap_id. Qed.

Lemma Int64_div_exact a b : Int64.in_range (a ÷ b) → Int64.div a b = a ÷ b.
Proof. apply Int64_wrap_id. Qed.

Lemma Int64_to_int_id x : - 2 ^ 31 <= x < 2 ^ 31 → Int64.to_int x = x.
Proof. unfold Int64.to_int. intros Hx. rewrite Z.mod_small; lia. Qed.

Lemma Int64_add_sub_cancel a b : Int64.add (Int64.sub a b) b = Int64.wrap a.
Proof. unfold Int64.add, Int64.sub. rewrite Int64_wrap_wrap_add. f_equal. lia. Qed.

Lemma Int64_in_range_bounds x : Int64.in_range x ↔ - 2 ^ 63 <= x <= 2 ^ 63 - 1.
Proof. reflexivity. Qed.

(** ** Activation life cycle *)

Section ActivationProofs.
Context `{Collaborators}.

Implicit Types p : CountMetricProducer.

Lemma expireActivation_state now (a : Activation) :
  state (expireActivation now a) = kActive
  ↔ state a = kActive ∧ now <= Int64.add (ttl_ns a) (start_ns a).
Proof.
  unfold expireActivation.
  destruct (state a) eqn:Hst; simpl;
    try (rewrite Hst; split; [discriminate | intros [? _]; discriminate]).
  destruct (Z.ltb_spec (Int64.add (ttl_ns a) (start_ns a)) now); simpl.
  - split; [discriminate | lia].
  - rewrite Hst. split; [intros _; split; [done | lia] | done].
Qed.

Lemma expireActivation_flips now (a : Activation) :
  state a = kActive →
  state (expireActivation now a) = kNotActive
  ↔ Int64.add (ttl_ns a) (start_ns a) < now.
Proof.
  intros Hst. unfold expireActivation. rewrite Hst. simpl.
  destruct (Z.ltb_spec (Int64.add (ttl_ns a) (start_ns a)) now); simpl.
  - split; [lia | done].
  - rewrite Hst. split; [discriminate | lia].
Qed.

(** The loop of [evaluateActiveStateLocked], whatever the iteration order:
    every activation is passed through [expireActivation], and the flag is
    raised iff it started raised or one activation is still active. *)
Lemma evaluateActiveState_fold now (m0 m : gmap Z Activation) (b0 : bool) :
  let r := map_fold
      (λ k a '(acts, isActive),
         let a' := expireActivation now a in
         (<[k := a']> acts,
          if bool_decide (state a' = kActive) then true else isActive))
      (m0, b0) m in
  r.1 = (expireActivation now <$> m) ∪ m0
  ∧ (r.2 = true ↔
     b0 = true ∨ ∃ k a, m !! k = Some a ∧ state (expireActivation now a) = kActive).
Proof.
  cbv zeta.
  apply (map_fold_weak_ind
    (λ r m, r.1 = (expireActivation now <$> m) ∪ m0
            ∧ (r.2 = true ↔
               b0 = true ∨ ∃ k a, m !! k = Some a
                                  ∧ state (expireActivation now a) = kActive))).
  - split; [by rewrite fmap_empty, (left_id_L ∅ (∪)) |].
    simpl. split; [by left | intros [? | (k & a & Hk & _)]; [done |]].
    by rewrite lookup_empty in Hk.
  - intros k a m' [acts act] Hk [IH1 IH2]. simpl in *. split.
    + rewrite IH1, fmap_insert. by rewrite insert_union_l.
    + case_bool_decide as Hact.
      * split; [intros _ | done]. right. exists k, a.
        by rewrite lookup_insert_eq.
      * rewrite IH2. split.
        -- intros [? | (k' & a' & Hk' & Ha')]; [by left |].
           right. exists k', a'. split; [| done].
           rewrite lookup_insert_ne; [done |]. intros ->. congruence.
        -- intros [? | (k' & a' & Hk' & Ha')]; [by left |].
           destruct (decide (k = k')) as [<- | Hne].
           ++ rewrite lookup_insert_eq in Hk'. congruence.
           ++ rewrite lookup_insert_ne in Hk' by done. right. eauto.
Qed.

Lemma evaluateActiveStateLocked_map now p :
  mEventActivationMap (evaluateActiveStateLocked now p).1
  = expireActivation now <$> mEventActivationMap p.
Proof.
  unfold evaluateActiveStateLocked.
  pose proof (evaluateActiveState_fold now (mEventActivationMap p)
                (mEventActivationMap p) (bool_decide (mEventActivationMap p = ∅)))
    as [Hmap _].
  cbv zeta in Hmap. destruct (map_fold _ _ _) as [acts act]. simpl in *.
  rewrite Hmap. apply map_eq. intros i.
  rewrite lookup_union, !lookup_fmap.
  by destruct (mEventActivationMap p !! i).
Qed.

Lemma evaluateActiveStateLocked_result now p :
  (evaluateActiveStateLocked now p).2 = true
  ↔ mEventActivationMap p = ∅
    ∨ ∃ i a, mEventActivationMap p !! i = Some a ∧ state a = kActive
             ∧ now <= Int64.add (ttl_ns a) (start_ns a).
Proof.
  unfold evaluateActiveStateLocked.
  pose proof (evaluateActiveState_fold now (mEventActivationMap p)
                (mEventActivationMap p) (bool_decide (mEventActivationMap p = ∅)))
    as [_ Hact].
  cbv zeta in Hact. destruct (map_fold _ _ _) as [acts act]. simpl in *.
  rewrite Hact, bool_decide_eq_true.
  split; (intros [? | (i & a & Hi & Ha)]; [by left | right; exists i, a]).
  - apply expireActivation_state in Ha. tauto.
  - split; [tauto |]. apply expireActivation_state. tauto.
Qed.

Lemma evaluateActiveStateLocked_mIsActive now p :
  mIsActive (evaluateActiveStateLocked now p).1 = mIsActive p.
Proof.
  unfold evaluateActiveStateLocked. by destruct (map_fold _ _ _) as [acts act].
Qed.

End ActivationProofs.

(** C3 (amended): after evaluating the active state at elapsed time [now],
    the metric is active iff its activation map is empty or some activation
    is Active with [now <= start_ns + ttl_ns] (the bound is inclusive); an
    Active activation becomes NotActive exactly when [now] exceeds
    [start_ns + ttl_ns], never earlier, and [flushIfExpire] on an active
    metric stores that verdict in [mIsActive]. The sums are assumed not to
    overflow. *)
Theorem C3_active_iff_ttl_not_exceeded `{Collaborators} (p : CountMetricProducer)
    (now : Z)
    (Hrange : ∀ i a, mEventActivationMap p !! i = Some a →
                     Int64.in_range (ttl_ns a + start_ns a)) :
  ((evaluateActiveStateLocked now p).2 = true
   ↔ mEventActivationMap p = ∅
     ∨ ∃ i a, mEventActivationMap p !! i = Some a ∧ state a = kActive
              ∧ now <= start_ns a + ttl_ns a)
  ∧ (∀ i a, mEventActivationMap p !! i = Some a → state a = kActive →
       ∃ a', mEventActivationMap (evaluateActiveStateLocked now p).1 !! i = Some a'
             ∧ ttl_ns a' = ttl_ns a ∧ start_ns a' = start_ns a
             ∧ (state a' = kNotActive ↔ start_ns a + ttl_ns a < now)
             ∧ (state a' = kActive ↔ now <= start_ns a + ttl_ns a))
  ∧ (mIsActive p = true →
     mIsActive (flushIfExpire now p) = (evaluateActiveStateLocked now p).2).
Proof.
  split; [| split].
  - rewrite evaluateActiveStateLocked_result.
    split; (intros [? | (i & a & Hi & Hst & Hle)]; [by left | right; exists i, a]);
      (split; [done |]; split; [done |]);
      rewrite Int64_add_exact in * by eauto; lia.
  - intros i a Hi Hst. exists (expireActivation now a).
    rewrite evaluateActiveStateLocked_map, lookup_fmap, Hi. simpl.
    pose proof (expireActivation_flips now a Hst) as Hflip.
    pose proof (expireActivation_state now a) as Hkeep.
    rewrite Int64_add_exact in Hflip, Hkeep by eauto.
    repeat split; try (unfold expireActivation; by case_match).
    + intros ?. apply Hflip in H0. lia.
    + intros ?. apply Hflip. lia.
    + intros ?. apply Hkeep in H0. lia.
    + intros ?. apply Hkeep. split; [done | lia].
  - intros Hact. unfold flushIfExpire. rewrite Hact. simpl.
    pose proof (evaluateActiveStateLocked_mIsActive now p) as Hkeep.
    destruct (evaluateActiveStateLocked now p) as [p1 [|]]; simpl in *; [congruence | done].
Qed.

Lemma C3_active_iff_ttl_not_exceeded_witness :
  (∀ i a, mEventActivationMap exampleActivatedProducer !! i = Some a →
          Int64.in_range (ttl_ns a + start_ns a))
  ∧ ((evaluateActiveStateLocked (50 * NS_PER_SEC) exampleActivatedProducer).2 = true
     ↔ mEventActivationMap exampleActivatedProducer = ∅
       ∨ ∃ i a, mEventActivationMap exampleActivatedProducer !! i = Some a
                ∧ state a = kActive ∧ 50 * NS_PER_SEC <= start_ns a + ttl_ns a).
Proof.
  assert (Hr : ∀ i a, mEventActivationMap exampleActivatedProducer !! i = Some a →
                      Int64.in_range (ttl_ns a + start_ns a)).
  { intros i a Hi. change (({[7 := exampleActivation]} : gmap Z Activation) !! i = Some a) in Hi.
    apply lookup_singleton_Some in Hi as [_ <-]. vm_compute. split; discriminate. }
  split; [exact Hr |].
  exact (proj1 (C3_active_iff_ttl_not_exceeded exampleActivatedProducer (50 * NS_PER_SEC) Hr)).
Defined.

(** C3 as stated fails at the boundary: at [now = start_ns + ttl_ns] the
    activation of the example (started at 10 s, TTL 100 s) is still Active
    and the metric active, although [now < start_ns + ttl_ns] is false. *)
Lemma C3_counterexample :
  (evaluateActiveStateLocked (110 * NS_PER_SEC) exampleActivatedProducer).2 = true
  ∧ ¬ (mEventActivationMap exampleActivatedProducer = ∅
       ∨ ∃ i a, mEventActivationMap exampleActivatedProducer !! i = Some a
                ∧ state a = kActive ∧ 110 * NS_PER_SEC < start_ns a + ttl_ns a).
Proof.
  split; [by vm_compute |].
  change (mEventActivationMap exampleActivatedProducer)
    with ({[7 := exampleActivation]} : gmap Z Activation).
  intros [Hempty | (i & a & Hi & _ & Hlt)].
  - by apply (map_non_empty_singleton (M := gmap Z)) in Hempty.
  - apply lookup_singleton_Some in Hi as [_ <-]. vm_compute in Hlt. discriminate.
Qed.

(** ** Persistence of activations *)

Section PersistenceProofs.
Context `{Collaborators}.

Implicit Types p : CountMetricProducer.

Lemma loadActiveEventActivation_other now p msg i :
  atom_matcher_index msg ≠ i →
  mEventActivationMap (loadActiveEventActivation now p msg) !! i
  = mEventActivationMap p !! i.
Proof.
  intros Hne. unfold loadActiveEventActivation.
  destruct (mEventActivationMap p !! atom_matcher_index msg); [| done].
  repeat case_match; simpl; by rewrite ?lookup_insert_ne.
Qed.

Lemma loadActiveEventActivation_stays_active now p msg :
  mIsActive p = true → mIsActive (loadActiveEventActivation now p msg) = true.
Proof.
  intros Hact. unfold loadActiveEventActivation.
  repeat case_match; simpl; done.
Qed.

Lemma load_fold_other now msgs p i :
  Forall (λ msg, atom_matcher_index msg ≠ i) msgs →
  mEventActivationMap (foldl (loadActiveEventActivation now) p msgs) !! i
  = mEventActivationMap p !! i.
Proof.
  intros Hall. revert p. induction Hall as [| msg msgs Hne _ IH]; intros p; [done |].
  simpl. by rewrite IH, loadActiveEventActivation_other.
Qed.

Lemma load_fold_stays_active now msgs p :
  mIsActive p = true → mIsActive (foldl (loadActiveEventActivation now) p msgs) = true.
Proof.
  revert p. induction msgs as [| msg msgs IH]; intros p Hact; [done |].
  simpl. by apply IH, loadActiveEventActivation_stays_active.
Qed.

(** Loading a list of messages with distinct matcher indices: the message
    for [i], when it says ACTIVE, decides the activation at [i]. *)
Lemma load_fold_active now msgs p i msg a :
  NoDup (atom_matcher_index <$> msgs) →
  msg ∈ msgs →
  atom_matcher_index msg = i →
  state_field msg = Some ACTIVE →
  mEventActivationMap p !! i = Some a →
  let q := foldl (loadActiveEventActivation now) p msgs in
  mEventActivationMap q !! i
  = Some (Activation_set_state kActive
            (Activation_set_start_ns
               (Int64.sub (Int64.add now (remaining_ttl_nanos msg)) (ttl_ns a)) a))
  ∧ mIsActive q = true.
Proof.
  intros Hnd Hin Hidx Hst. revert p Hnd.
  induction msgs as [| m msgs IH]; intros p Hnd Ha; [by apply elem_of_nil in Hin |].
  rewrite fmap_cons in Hnd. apply NoDup_cons in Hnd as [Hfresh Hnd].
  apply elem_of_cons in Hin as [<- | Hin]; simpl.
  - assert (Hload : mEventActivationMap (loadActiveEventActivation now p msg) !! i
                    = Some (Activation_set_state kActive
                              (Activation_set_start_ns
                                 (Int64.sub (Int64.add now (remaining_ttl_nanos msg))
                                            (ttl_ns a)) a))
                    ∧ mIsActive (loadActiveEventActivation now p msg) = true).
    { unfold loadActiveEventActivation. rewrite Hidx, Ha, Hst.
      rewrite bool_decide_eq_true_2, orb_true_r by done. simpl.
      by rewrite lookup_insert_eq. }
    destruct Hload as [Hmap Hact]. split.
    + rewrite load_fold_other; [done |].
      apply Forall_forall. intros m' Hm' Heq. apply Hfresh.
      rewrite Hidx, <- Heq. by apply list_elem_of_fmap_2.
    + by apply load_fold_stays_active.
  - apply IH; [done | done |].
    rewrite loadActiveEventActivation_other; [done |].
    intros Heq. apply Hfresh. rewrite Heq, <- Hidx. by apply list_elem_of_fmap_2.
Qed.

Lemma writeActiveEventActivation_index t reason entry msg :
  writeActiveEventActivation t reason entry = Some msg →
  atom_matcher_index msg = entry.1.
Proof.
  destruct entry as [i a]. unfold writeActiveEventActivation.
  case_match; [done |]. intros [= <-]. by repeat case_match.
Qed.

Lemma written_indices_NoDup t reason (l : list (Z * Activation)) :
  NoDup l.*1 →
  NoDup (atom_matcher_index <$> omap (writeActiveEventActivation t reason) l).
Proof.
  induction l as [| entry l IH]; [constructor |].
  rewrite fmap_cons. intros [Hfresh Hnd]%NoDup_cons. simpl.
  destruct (writeActiveEventActivation t reason entry) as [msg |] eqn:Hw; [| by apply IH].
  rewrite fmap_cons. apply NoDup_cons. split; [| by apply IH].
  intros (m' & Hidx & Hm')%list_elem_of_fmap.
  apply list_elem_of_omap in Hm' as (entry' & Hin & Hw').
  apply Hfresh. apply writeActiveEventActivation_index in Hw, Hw'.
  rewrite <- Hw, Hidx, Hw'. by apply list_elem_of_fmap_2.
Qed.

(** An Active activation whose TTL has not run out at [t] is written with
    its remaining TTL. *)
Lemma written_active t reason p i a :
  mEventActivationMap p !! i = Some a →
  state a = kActive →
  ¬ Int64.add (start_ns a) (ttl_ns a) < t →
  {| atom_matcher_index := i;
     remaining_ttl_nanos_field :=
       Some (Int64.sub (Int64.add (start_ns a) (ttl_ns a)) t);
     state_field := Some ACTIVE |}
  ∈ activation (writeActiveMetricToProtoOutputStream t reason p).
Proof.
  intros Hi Hst Hlive. simpl. apply list_elem_of_omap. exists (i, a).
  split; [by apply elem_of_map_to_list |].
  unfold writeActiveEventActivation. rewrite Hst. simpl.
  destruct (Z.ltb_spec (Int64.add (start_ns a) (ttl_ns a)) t); [lia | done].
Qed.

End PersistenceProofs.

(** C5 (amended): persisting an Active activation at time [t] records
    [remaining_ttl_ns = start_ns + ttl_ns - t]; loading the snapshot at
    [now = t + δ] into the re-created producer (same TTL) yields an
    activation that is Active with [start_ns = now + remaining_ttl_ns -
    ttl_ns], hence [start_ns + ttl_ns = (t + δ) + remaining_ttl_ns]: the
    remaining TTL counts from the load time, and the metric is active. The
    sums are assumed not to overflow. *)
Theorem C5_load_restores_remaining_ttl `{Collaborators} (p p' : CountMetricProducer)
    (i : Z) (a a' : Activation) (t δ : Z) (reason : DumpReportReason)
    (Hsaved : mEventActivationMap p !! i = Some a)
    (Hactive : state a = kActive)
    (Hexpiry : Int64.in_range (start_ns a + ttl_ns a))
    (Hlive : t <= start_ns a + ttl_ns a)
    (Hremaining : Int64.in_range (start_ns a + ttl_ns a - t))
    (Hconfig : mEventActivationMap p' !! i = Some a')
    (Httl : ttl_ns a' = ttl_ns a)
    (Hsum : Int64.in_range (t + δ + (start_ns a + ttl_ns a - t)))
    (Hstart : Int64.in_range (t + δ + (start_ns a + ttl_ns a - t) - ttl_ns a)) :
  let remaining_ttl_ns := start_ns a + ttl_ns a - t in
  let now := t + δ in
  let q := loadActiveMetricLocked (writeActiveMetricToProtoOutputStream t reason p) now p' in
  ∃ b, mEventActivationMap q !! i = Some b
       ∧ state b = kActive
       ∧ ttl_ns b = ttl_ns a
       ∧ start_ns b = now + remaining_ttl_ns - ttl_ns a
       ∧ start_ns b + ttl_ns b = t + δ + remaining_ttl_ns
       ∧ mIsActive q = true
       ∧ (evaluateActiveStateLocked now q).2 = true.
Proof.
  intros remaining now q.
  assert (Hw := written_active t reason p i a Hsaved Hactive).
  rewrite (Int64_add_exact (start_ns a)), Int64_sub_exact in Hw by done.
  specialize (Hw ltac:(lia)).
  assert (Hnonempty : (Z.of_nat (size (mEventActivationMap p')) =? 0) = false).
  { apply Z.eqb_neq. intros Hz.
    assert (Hempty : mEventActivationMap p' = ∅) by (apply map_size_empty_inv; lia).
    rewrite Hempty, lookup_empty in Hconfig. done. }
  assert (Hqdef : q = foldl (loadActiveEventActivation now) p'
                        (activation (writeActiveMetricToProtoOutputStream t reason p))).
  { unfold q, loadActiveMetricLocked. by rewrite Hnonempty. }
  pose proof (load_fold_active now
              (activation (writeActiveMetricToProtoOutputStream t reason p)) p' i _ a'
              (written_indices_NoDup t reason _ (NoDup_fst_map_to_list _))
              Hw eq_refl eq_refl Hconfig) as Hload.
  cbv zeta in Hload. rewrite <- Hqdef in Hload. destruct Hload as [Hq Hact].
  unfold remaining_ttl_nanos in Hq. simpl in Hq.
  rewrite Httl in Hq.
  rewrite (Int64_add_exact now), Int64_sub_exact in Hq by done.
  fold remaining in Hq, Hsum, Hstart. fold now in Hsum, Hstart.
  eexists. split; [exact Hq |]. simpl. rewrite Httl.
  repeat split; [lia | done |].
  apply evaluateActiveStateLocked_result. right.
  eexists i, _. split; [exact Hq |]. simpl. split; [done |].
  rewrite Httl, Int64_add_exact.
  - unfold remaining. lia.
  - replace (ttl_ns a + (now + remaining - ttl_ns a)) with (now + remaining) by lia.
    done.
Qed.

Lemma C5_load_restores_remaining_ttl_witness :
  mEventActivationMap exampleActivatedProducer !! 7 = Some exampleActivation
  ∧ state exampleActivation = kActive
  ∧ ∃ b, mEventActivationMap
           (loadActiveMetricLocked
              (writeActiveMetricToProtoOutputStream (50 * NS_PER_SEC) DEVICE_SHUTDOWN
                 exampleActivatedProducer)
              (50 * NS_PER_SEC + 20 * NS_PER_SEC) exampleRestartedProducer) !! 7 = Some b
         ∧ state b = kActive
         ∧ start_ns b + ttl_ns b = 50 * NS_PER_SEC + 20 * NS_PER_SEC + 60 * NS_PER_SEC.
Proof.
  split; [reflexivity |]. split; [reflexivity |].
  destruct (C5_load_restores_remaining_ttl exampleActivatedProducer
              exampleRestartedProducer 7 exampleActivation
              {| ttl_ns := 100 * NS_PER_SEC; start_ns := 0; state := kNotActive;
                 activationType := ACTIVATE_IMMEDIATELY |}
              (50 * NS_PER_SEC) (20 * NS_PER_SEC) DEVICE_SHUTDOWN)
    as (b & Hb & Hst & _ & _ & Hsum & _);
    try reflexivity; try (vm_compute; split; discriminate); try (vm_compute; discriminate).
  exists b. split; [exact Hb |]. split; [exact Hst |]. exact Hsum.
Defined.

(** C5 as stated fails: with the snapshot taken at [t = 50 s] (remaining
    TTL 60 s) and loaded at [t + δ] for [δ = 20 s < 60 s], the loaded
    activation expires at 130 s, not at [t + remaining_ttl = 110 s]; the
    difference is [δ], not at most 1 ns. *)
Lemma C5_counterexample :
  let t := 50 * NS_PER_SEC in
  let δ := 20 * NS_PER_SEC in
  let remaining_ttl :=
    start_ns exampleActivation + ttl_ns exampleActivation - t in
  let q := loadActiveMetricLocked
             (writeActiveMetricToProtoOutputStream t DEVICE_SHUTDOWN
                exampleActivatedProducer)
             (t + δ) exampleRestartedProducer in
  δ < remaining_ttl
  ∧ ∃ b, mEventActivationMap q !! 7 = Some b
         ∧ state b = kActive
         ∧ ¬ (Z.abs (start_ns b + ttl_ns b - (t + remaining_ttl)) <= 1).
Proof.
  cbv zeta. split; [by vm_compute |].
  eexists. split; [by vm_compute |]. split; [reflexivity |].
  vm_compute. intros Hle. by apply Hle.
Qed.

(** ** Bucket rotation *)

Section BucketProofs.
Context `{Collaborators}.

Implicit Types p : CountMetricProducer.

Lemma getCurrentBucketEndTimeNs_exact p :
  bucketsInRange p →
  getCurrentBucketEndTimeNs p
  = mTimeBaseNs p + (mCurrentBucketNum p + 1) * mBucketSizeNs p.
Proof.
  intros (Hsize & Hbase & Hnum & Hend). unfold getCurrentBucketEndTimeNs.
  unfold Int64.max_signed in Hend.
  rewrite (Int64_add_exact (mCurrentBucketNum p)), Int64_mul_exact, Int64_add_exact;
    [done | ..]; apply Int64_in_range_bounds; nia.
Qed.

Lemma flushIfNeededLocked_noop p ts :
  ts < getCurrentBucketEndTimeNs p → flushIfNeededLocked ts p = p.
Proof.
  intros Hlt. unfold flushIfNeededLocked.
  destruct (Z.ltb_spec ts (getCurrentBucketEndTimeNs p)); [done | lia].
Qed.

(** What [flushCurrentBucketLocked] does to each field. *)
Ltac flush_fields :=
  intros; unfold flushCurrentBucketLocked;
  destruct (ConditionTimer_newBucketStart _ _ _) as [? [? ?]];
  repeat case_match; reflexivity.

Lemma flushCurrentBucketLocked_counter ts next p :
  mCurrentSlicedCounter (flushCurrentBucketLocked ts next p) = ∅.
Proof. flush_fields. Qed.

Lemma flushCurrentBucketLocked_start ts next p :
  mCurrentBucketStartTimeNs (flushCurrentBucketLocked ts next p) = next.
Proof. flush_fields. Qed.

Lemma flushCurrentBucketLocked_num ts next p :
  mCurrentBucketNum (flushCurrentBucketLocked ts next p) = mCurrentBucketNum p.
Proof. flush_fields. Qed.

Lemma flushCurrentBucketLocked_base ts next p :
  mTimeBaseNs (flushCurrentBucketLocked ts next p) = mTimeBaseNs p.
Proof. flush_fields. Qed.

Lemma flushCurrentBucketLocked_size ts next p :
  mBucketSizeNs (flushCurrentBucketLocked ts next p) = mBucketSizeNs p.
Proof. flush_fields. Qed.

Lemma flushCurrentBucketLocked_reported_flag ts next p :
  mDimensionGuardrailHit (flushCurrentBucketLocked ts next p) = mDimensionGuardrailHit p.
Proof. flush_fields. Qed.

Lemma flushCurrentBucketLocked_logging_flag ts next p :
  mHasHitGuardrail (flushCurrentBucketLocked ts next p) = false.
Proof. flush_fields. Qed.

Lemma flushCurrentBucketLocked_limit ts next p :
  mDimensionHardLimit (flushCurrentBucketLocked ts next p) = mDimensionHardLimit p.
Proof. flush_fields. Qed.

Lemma flushCurrentBucketLocked_threshold ts next p :
  mUploadThreshold (flushCurrentBucketLocked ts next p) = mUploadThreshold p.
Proof. flush_fields. Qed.

Lemma flushCurrentBucketLocked_condition ts next p :
  mCondition (flushCurrentBucketLocked ts next p) = mCondition p.
Proof. flush_fields. Qed.

Lemma flushCurrentBucketLocked_past ts next p :
  mPastBuckets (flushCurrentBucketLocked ts next p)
  = appendPastBuckets p
      (closedBucketInfo p ts (ConditionTimer_newBucketStart (mConditionTimer p) ts next).2.1).
Proof. flush_fields. Qed.

End BucketProofs.

Section RotationProofs.
Context `{Collaborators}.

Implicit Types p : CountMetricProducer.

(** The closing loop, whatever the iteration order: every counter that
    passes the upload threshold gets one more bucket, the other keys keep
    their list. *)
Lemma appendPastBuckets_lookup p (info : Z → CountBucket) (k : MetricDimensionKey) :
  appendPastBuckets p info !! k
  = match mCurrentSlicedCounter p !! k with
    | Some c =>
      if countPassesThreshold p c
      then Some (default [] (mPastBuckets p !! k) ++ [info c])
      else mPastBuckets p !! k
    | None => mPastBuckets p !! k
    end.
Proof.
  unfold appendPastBuckets.
  apply (map_fold_weak_ind
    (λ (r : gmap MetricDimensionKey (list CountBucket)) (m : gmap MetricDimensionKey Z),
       r !! k = match m !! k with
                | Some c =>
                  if countPassesThreshold p c
                  then Some (default [] (mPastBuckets p !! k) ++ [info c])
                  else mPastBuckets p !! k
                | None => mPastBuckets p !! k
                end)).
  - by rewrite lookup_empty.
  - intros k' c m r Hfresh IH.
    destruct (decide (k' = k)) as [-> | Hne].
    + rewrite lookup_insert_eq. rewrite Hfresh in IH.
      destruct (countPassesThreshold p c); [| done].
      by rewrite lookup_insert_eq, IH.
    + rewrite (lookup_insert_ne m) by done.
      destruct (countPassesThreshold p c); [| done].
      by rewrite lookup_insert_ne.
Qed.

Lemma appendPastBuckets_empty p info :
  mCurrentSlicedCounter p = ∅ → appendPastBuckets p info = mPastBuckets p.
Proof.
  intros Hempty. apply map_eq. intros k.
  by rewrite appendPastBuckets_lookup, Hempty, lookup_empty.
Qed.

(** A rotation: the number of buckets to move forward, the start of the
    new bucket and the new bucket number, without modular arithmetic. *)
Lemma flushIfNeededLocked_rotate p ts :
  bucketsInRange p →
  mTimeBaseNs p + (mCurrentBucketNum p + 1) * mBucketSizeNs p <= ts →
  ts <= Int64.max_signed →
  let bucketEnd := mTimeBaseNs p + (mCurrentBucketNum p + 1) * mBucketSizeNs p in
  let forward := (ts - bucketEnd) / mBucketSizeNs p in
  flushIfNeededLocked ts p
  = set_mCurrentBucketNum (mCurrentBucketNum p + 1 + forward)
      (flushCurrentBucketLocked ts (bucketEnd + forward * mBucketSizeNs p) p).
Proof.
  intros Hwf Hge Hmax bucketEnd forward.
  pose proof (getCurrentBucketEndTimeNs_exact p Hwf) as Hend.
  destruct Hwf as (Hsize & Hbase & Hnum & Hfit).
  unfold flushIfNeededLocked. rewrite Hend. fold bucketEnd in Hge, Hfit |- *.
  destruct (Z.ltb_spec ts bucketEnd) as [? | _]; [lia |].
  unfold Int64.max_signed in *.
  assert (Hpos : 1 <= bucketEnd) by (unfold bucketEnd; nia).
  assert (Hquot : (ts - bucketEnd) ÷ mBucketSizeNs p = forward)
    by (apply Z.quot_div_nonneg; lia).
  assert (Hfwd : 0 <= forward <= ts - bucketEnd).
  { unfold forward. split; [apply Z.div_pos; lia |].
    apply Z.div_le_upper_bound; nia. }
  assert (Hmul : forward * mBucketSizeNs p <= ts - bucketEnd).
  { unfold forward. rewrite Z.mul_comm. apply Z.mul_div_le. lia. }
  rewrite (Int64_sub_exact ts) by (apply Int64_in_range_bounds; lia).
  rewrite Int64_div_exact by (rewrite Hquot; apply Int64_in_range_bounds; lia).
  rewrite Hquot.
  rewrite (Int64_add_exact 1) by (apply Int64_in_range_bounds; lia).
  rewrite (Int64_sub_exact (1 + forward))
    by (apply Int64_in_range_bounds; lia).
  replace (1 + forward - 1) with forward by lia.
  rewrite Int64_mul_exact by (apply Int64_in_range_bounds; nia).
  rewrite (Int64_add_exact bucketEnd) by (apply Int64_in_range_bounds; nia).
  rewrite flushCurrentBucketLocked_num.
  rewrite Int64_add_exact.
  - f_equal. lia.
  - apply Int64_in_range_bounds.
    assert (mCurrentBucketNum p + 1 <= bucketEnd) by (unfold bucketEnd; nia). lia.
Qed.

Lemma writeCountBucketInfo_partial p (b : CountBucket) :
  Int64.in_range (mBucketEndNs b - mBucketStartNs b) →
  mBucketEndNs b - mBucketStartNs b ≠ mBucketSizeNs p →
  start_bucket_elapsed_millis (writeCountBucketInfo p b)
  = Some (NanoToMillis (mBucketStartNs b))
  ∧ end_bucket_elapsed_millis (writeCountBucketInfo p b)
    = Some (NanoToMillis (mBucketEndNs b))
  ∧ bucket_num (writeCountBucketInfo p b) = None.
Proof.
  intros Hr Hne. unfold writeCountBucketInfo. simpl.
  rewrite Int64_sub_exact by done.
  by destruct (Z.eqb_spec (mBucketEndNs b - mBucketStartNs b) (mBucketSizeNs p)).
Qed.

Lemma writeCountBucketInfo_full p (b : CountBucket) :
  Int64.in_range (mBucketEndNs b - mBucketStartNs b) →
  mBucketEndNs b - mBucketStartNs b = mBucketSizeNs p →
  start_bucket_elapsed_millis (writeCountBucketInfo p b) = None
  ∧ end_bucket_elapsed_millis (writeCountBucketInfo p b) = None
  ∧ bucket_num (writeCountBucketInfo p b)
    = Some (getBucketNumFromEndTimeNs p (mBucketEndNs b)).
Proof.
  intros Hr Heq. unfold writeCountBucketInfo. simpl.
  rewrite Int64_sub_exact by done.
  by destruct (Z.eqb_spec (mBucketEndNs b - mBucketStartNs b) (mBucketSizeNs p)).
Qed.

End RotationProofs.

(** ** The guardrail flags across rotations and dumps *)

Section FlagProofs.
Context `{Collaborators}.

Implicit Types p : CountMetricProducer.

Lemma flushIfNeededLocked_reported_flag ts p :
  mDimensionGuardrailHit (flushIfNeededLocked ts p) = mDimensionGuardrailHit p.
Proof.
  unfold flushIfNeededLocked. case_match; [done |]. simpl.
  apply flushCurrentBucketLocked_reported_flag.
Qed.

Lemma flushIfNeededLocked_threshold ts p :
  mUploadThreshold (flushIfNeededLocked ts p) = mUploadThreshold p.
Proof.
  unfold flushIfNeededLocked. case_match; [done |]. simpl.
  apply flushCurrentBucketLocked_threshold.
Qed.

Lemma flushIfNeededLocked_limit ts p :
  mDimensionHardLimit (flushIfNeededLocked ts p) = mDimensionHardLimit p.
Proof.
  unfold flushIfNeededLocked. case_match; [done |]. simpl.
  apply flushCurrentBucketLocked_limit.
Qed.

Lemma flushIfNeededLocked_condition ts p :
  mCondition (flushIfNeededLocked ts p) = mCondition p.
Proof.
  unfold flushIfNeededLocked. case_match; [done |]. simpl.
  apply flushCurrentBucketLocked_condition.
Qed.

Lemma flushLocked_reported_flag ts p :
  mDimensionGuardrailHit (flushLocked ts p) = mDimensionGuardrailHit p.
Proof.
  unfold flushLocked.
  by rewrite flushCurrentBucketLocked_reported_flag, flushIfNeededLocked_reported_flag.
Qed.

Lemma flushedForDump_reported_flag t incl p :
  mDimensionGuardrailHit (flushedForDump t incl p) = mDimensionGuardrailHit p.
Proof.
  destruct incl; [apply flushLocked_reported_flag | apply flushIfNeededLocked_reported_flag].
Qed.

Lemma onDumpReportLocked_entries t incl erase lat p :
  count_metrics (onDumpReportLocked t incl erase lat p).2
  = writeCountMetricData (flushedForDump t incl p)
      <$> map_to_list (mPastBuckets (flushedForDump t incl p)).
Proof.
  unfold onDumpReportLocked. case_bool_decide as Hempty.
  - simpl. by rewrite Hempty, map_to_list_empty.
  - by destruct erase.
Qed.

Lemma onDumpReportLocked_no_entries t incl erase lat p :
  count_metrics (onDumpReportLocked t incl erase lat p).2 = []
  ↔ mPastBuckets (flushedForDump t incl p) = ∅.
Proof.
  rewrite onDumpReportLocked_entries. split.
  - intros Hnil%fmap_nil_inv. by apply map_to_list_empty_iff.
  - intros ->. by rewrite map_to_list_empty.
Qed.

Lemma onDumpReportLocked_reported_flag t incl erase lat p :
  dimension_guardrail_hit (onDumpReportLocked t incl erase lat p).2
  = if bool_decide (mPastBuckets (flushedForDump t incl p) = ∅) then None
    else if mDimensionGuardrailHit p then Some true else None.
Proof.
  unfold onDumpReportLocked. case_bool_decide; [done |].
  destruct erase; simpl; rewrite flushedForDump_reported_flag;
    by destruct (mDimensionGuardrailHit p).
Qed.

Lemma onDumpReportLocked_flag_after t incl erase lat p :
  mDimensionGuardrailHit (onDumpReportLocked t incl erase lat p).1
  = if erase && negb (bool_decide (mPastBuckets (flushedForDump t incl p) = ∅))
    then false else mDimensionGuardrailHit p.
Proof.
  unfold onDumpReportLocked. case_bool_decide; simpl.
  - by rewrite andb_false_r, flushedForDump_reported_flag.
  - destruct erase; simpl; [done | apply flushedForDump_reported_flag].
Qed.

End FlagProofs.

(** C8 (amended): a rotation by [flushIfNeededLocked] empties the counters
    and resets the per-bucket flag [mHasHitGuardrail] (which only gates a
    log line), but it never changes [mDimensionGuardrailHit], the flag the
    report carries as [dimension_guardrail_hit]: that flag stays set across
    buckets, is reported whenever the report has past-bucket entries, and is
    cleared only by a dump with [erase_data] that has entries. *)
Theorem C8_rotation_keeps_reported_flag `{Collaborators} (p : CountMetricProducer)
    (ts : Z) :
  (getCurrentBucketEndTimeNs p <= ts →
   mHasHitGuardrail (flushIfNeededLocked ts p) = false
   ∧ mCurrentSlicedCounter (flushIfNeededLocked ts p) = ∅)
  ∧ mDimensionGuardrailHit (flushIfNeededLocked ts p) = mDimensionGuardrailHit p
  ∧ (∀ t incl erase lat,
       let r := onDumpReportLocked t incl erase lat p in
       (dimension_guardrail_hit r.2 = Some true
        ↔ mDimensionGuardrailHit p = true ∧ count_metrics r.2 ≠ [])
       ∧ mDimensionGuardrailHit r.1
         = if erase && negb (bool_decide (count_metrics r.2 = [])) then false
           else mDimensionGuardrailHit p).
Proof.
  split; [| split].
  - intros Hge. unfold flushIfNeededLocked.
    destruct (Z.ltb_spec ts (getCurrentBucketEndTimeNs p)); [lia |]. simpl.
    by rewrite flushCurrentBucketLocked_logging_flag, flushCurrentBucketLocked_counter.
  - apply flushIfNeededLocked_reported_flag.
  - intros t incl erase lat r. unfold r.
    pose proof (onDumpReportLocked_no_entries t incl erase lat p) as Hnone.
    rewrite onDumpReportLocked_reported_flag, onDumpReportLocked_flag_after.
    rewrite (bool_decide_ext _ _ Hnone).
    case_bool_decide as Hempty; simpl.
    + split; [| by rewrite andb_false_r]. split; [done |]. intros [_ Hne]. tauto.
    + split; [| done].
      destruct (mDimensionGuardrailHit p); split; try done; try tauto.
      intros [? _]. done.
Qed.

Lemma C8_rotation_keeps_reported_flag_witness :
  getCurrentBucketEndTimeNs exampleProducer <= 70 * NS_PER_SEC
  ∧ mHasHitGuardrail (flushIfNeededLocked (70 * NS_PER_SEC) exampleProducer) = false
  ∧ mCurrentSlicedCounter (flushIfNeededLocked (70 * NS_PER_SEC) exampleProducer) = ∅.
Proof.
  assert (Hge : getCurrentBucketEndTimeNs exampleProducer <= 70 * NS_PER_SEC)
    by (by vm_compute).
  split; [exact Hge |].
  exact (proj1 (C8_rotation_keeps_reported_flag exampleProducer (70 * NS_PER_SEC)) Hge).
Defined.

(** C8 as stated fails: 801 events with distinct keys in bucket 0 hit the
    hard limit (800); the rotation at 70 s starts bucket 1 with no counter
    at all, yet the flag the report carries is still set, and the report
    dumped at 130 s shows [dimension_guardrail_hit = true]. *)
Lemma C8_counterexample :
  let p1 := deliverAll exampleProducer exampleBurst in
  let p2 := flushIfNeededLocked (70 * NS_PER_SEC) p1 in
  mCurrentBucketNum p1 = 0
  ∧ mCurrentBucketNum p2 = 1
  ∧ mCurrentSlicedCounter p2 = ∅
  ∧ mDimensionGuardrailHit p2 = true
  ∧ dimension_guardrail_hit
      (onDumpReportLocked (130 * NS_PER_SEC) false false FAST p2).2 = Some true.
Proof. vm_compute. repeat split. Qed.

(** ** Dropping data, then dumping *)

Section DropProofs.
Context `{Collaborators}.

Implicit Types p : CountMetricProducer.

Lemma getCurrentBucketEndTimeNs_ext p q :
  mTimeBaseNs q = mTimeBaseNs p →
  mCurrentBucketNum q = mCurrentBucketNum p →
  mBucketSizeNs q = mBucketSizeNs p →
  getCurrentBucketEndTimeNs q = getCurrentBucketEndTimeNs p.
Proof. unfold getCurrentBucketEndTimeNs. by intros -> -> ->. Qed.

(** After [flushIfNeededLocked t] the current bucket ends after [t]. *)
Lemma flushIfNeededLocked_end_after p t :
  bucketsInRange p →
  Int64.in_range t →
  (mTimeBaseNs p + (mCurrentBucketNum p + 1) * mBucketSizeNs p <= t →
   t + mBucketSizeNs p <= Int64.max_signed) →
  t < getCurrentBucketEndTimeNs (flushIfNeededLocked t p).
Proof.
  intros Hwf [_ Hmax] Hroom.
  pose proof (getCurrentBucketEndTimeNs_exact p Hwf) as Hend.
  set (bucketEnd := mTimeBaseNs p + (mCurrentBucketNum p + 1) * mBucketSizeNs p) in *.
  destruct (Z_lt_ge_dec t bucketEnd) as [Hlt | Hge].
  - rewrite flushIfNeededLocked_noop; lia.
  - pose proof (flushIfNeededLocked_rotate p t Hwf ltac:(fold bucketEnd; lia) Hmax) as Hrot.
    cbv zeta in Hrot. fold bucketEnd in Hrot. rewrite Hrot.
    set (forward := (t - bucketEnd) / mBucketSizeNs p) in *.
    destruct Hwf as (Hsize & Hbase & Hnum & Hfit).
    specialize (Hroom ltac:(lia)).
    pose proof (Z.div_mod (t - bucketEnd) (mBucketSizeNs p) ltac:(lia)) as Hdm.
    pose proof (Z.mod_pos_bound (t - bucketEnd) (mBucketSizeNs p) Hsize) as Hmod.
    fold forward in Hdm.
    assert (Hfwd : 0 <= forward) by (apply Z.div_pos; lia).
    rewrite getCurrentBucketEndTimeNs_exact.
    + simpl. rewrite flushCurrentBucketLocked_base, flushCurrentBucketLocked_size.
      unfold bucketEnd in *. nia.
    + unfold bucketsInRange. simpl.
      rewrite flushCurrentBucketLocked_base, flushCurrentBucketLocked_size.
      unfold bucketEnd in *. repeat split; [lia | lia | lia | nia].
Qed.

Lemma dropDataLocked_end_after p t :
  bucketsInRange p →
  Int64.in_range t →
  (mTimeBaseNs p + (mCurrentBucketNum p + 1) * mBucketSizeNs p <= t →
   t + mBucketSizeNs p <= Int64.max_signed) →
  t < getCurrentBucketEndTimeNs (dropDataLocked t p).
Proof.
  intros Hwf Ht Hroom.
  rewrite (getCurrentBucketEndTimeNs_ext (flushIfNeededLocked t p)) by done.
  by apply flushIfNeededLocked_end_after.
Qed.

Lemma dropDataLocked_counter p t :
  mCurrentSlicedCounter (dropDataLocked t p)
  = if t <? getCurrentBucketEndTimeNs p then mCurrentSlicedCounter p else ∅.
Proof.
  unfold dropDataLocked, flushIfNeededLocked. simpl.
  case_match; [done |]. simpl. apply flushCurrentBucketLocked_counter.
Qed.

Lemma countPassesThreshold_ext p q c :
  mUploadThreshold q = mUploadThreshold p →
  countPassesThreshold q c = countPassesThreshold p c.
Proof. unfold countPassesThreshold. by intros ->. Qed.

End DropProofs.

(** C9 (amended): [dropDataLocked t] immediately followed by
    [onDumpReportLocked t] with [include_current_partial_bucket = false]
    produces a report without past-bucket entries, whatever [erase_data] and
    the latency are. With [include_current_partial_bucket = true] the dump
    closes the current bucket at [t], and the report has exactly one entry
    for every current counter that passes the upload threshold; it is empty
    iff there is none. *)
Theorem C9_drop_then_dump `{Collaborators} (p : CountMetricProducer) (t : Z)
    (erase_data : bool) (dumpLatency : DumpLatency)
    (Hwf : bucketsInRange p) (Ht : Int64.in_range t)
    (Hroom : mTimeBaseNs p + (mCurrentBucketNum p + 1) * mBucketSizeNs p <= t →
             t + mBucketSizeNs p <= Int64.max_signed) :
  count_metrics
    (onDumpReportLocked t false erase_data dumpLatency (dropDataLocked t p)).2 = []
  ∧ ∀ k : MetricDimensionKey,
      (∃ d, d ∈ count_metrics
                  (onDumpReportLocked t true erase_data dumpLatency
                     (dropDataLocked t p)).2
            ∧ data_key d = k)
      ↔ t < mTimeBaseNs p + (mCurrentBucketNum p + 1) * mBucketSizeNs p
        ∧ ∃ c, mCurrentSlicedCounter p !! k = Some c ∧ countPassesThreshold p c = true.
Proof.
  pose proof (dropDataLocked_end_after p t Hwf Ht Hroom) as Hafter.
  pose proof (getCurrentBucketEndTimeNs_exact p Hwf) as Hend.
  split.
  - apply onDumpReportLocked_no_entries. unfold flushedForDump.
    by rewrite flushIfNeededLocked_noop.
  - intros k. rewrite onDumpReportLocked_entries. unfold flushedForDump, flushLocked.
    rewrite (flushIfNeededLocked_noop _ _ Hafter).
    pose proof (dropDataLocked_counter p t) as Hcounter.
    assert (Hpast : mPastBuckets (dropDataLocked t p) = ∅) by done.
    assert (Hthr : mUploadThreshold (dropDataLocked t p) = mUploadThreshold p)
      by apply flushIfNeededLocked_threshold.
    set (d := dropDataLocked t p) in *. clearbody d.
    set (q := flushCurrentBucketLocked t t d).
    assert (Hq : ∀ l, mPastBuckets q !! k = Some l ↔
                 ∃ c, mCurrentSlicedCounter d !! k = Some c
                      ∧ countPassesThreshold p c = true
                      ∧ l = [closedBucketInfo d t
                               (ConditionTimer_newBucketStart (mConditionTimer d) t t).2.1
                               c]).
    { intros l. unfold q.
      rewrite flushCurrentBucketLocked_past, appendPastBuckets_lookup, Hpast, lookup_empty.
      destruct (mCurrentSlicedCounter d !! k) as [c |];
        [| split; [intros [=] | intros (? & [=] & _)]].
      rewrite (countPassesThreshold_ext p d) by done.
      destruct (countPassesThreshold p c) eqn:Hpass; simpl.
      - split; [intros [= <-]; eauto | intros (? & [= <-] & _ & ->); done].
      - split; [intros [=] | intros (? & [= <-] & ? & _); congruence]. }
    rewrite Hcounter, Hend in Hq.
    split.
    + intros (data & (entry & -> & Hin)%list_elem_of_fmap & <-).
      destruct entry as [k' l]. apply elem_of_map_to_list in Hin. simpl in *.
      apply Hq in Hin as (c & Hc & Hpass & _).
      destruct (Z.ltb_spec t (mTimeBaseNs p + (mCurrentBucketNum p + 1) * mBucketSizeNs p));
        [eauto | by rewrite lookup_empty in Hc].
    + intros (Hlt & c & Hc & Hpass).
      destruct (Z.ltb_spec t (mTimeBaseNs p + (mCurrentBucketNum p + 1) * mBucketSizeNs p));
        [| lia].
      eexists. split; [apply list_elem_of_fmap_2, elem_of_map_to_list, Hq; eauto | done].
Qed.

Lemma C9_drop_then_dump_witness :
  let p := onMatchedLogEventLocked 0 (exampleEvent 10 5) exampleProducer in
  bucketsInRange p
  ∧ Int64.in_range (20 * NS_PER_SEC)
  ∧ count_metrics
      (onDumpReportLocked (20 * NS_PER_SEC) false true FAST
         (dropDataLocked (20 * NS_PER_SEC) p)).2 = [].
Proof.
  cbv zeta.
  assert (Hwf : bucketsInRange (onMatchedLogEventLocked 0 (exampleEvent 10 5) exampleProducer))
    by (repeat split; by vm_compute).
  assert (Ht : Int64.in_range (20 * NS_PER_SEC)) by (split; by vm_compute).
  split; [exact Hwf |]. split; [exact Ht |].
  apply (C9_drop_then_dump _ (20 * NS_PER_SEC) true FAST Hwf Ht).
  intros _. by vm_compute.
Defined.

(** C9 as stated fails for [include_current_partial_bucket = true]: after
    one event at 10 s, [dropDataLocked] at 20 s followed by a dump at 20 s
    that includes the current partial bucket reports that bucket, [0 s, 20 s]
    with count 1. *)
Lemma C9_counterexample :
  let p := onMatchedLogEventLocked 0 (exampleEvent 10 5) exampleProducer in
  count_metrics
    (onDumpReportLocked (20 * NS_PER_SEC) true false FAST
       (dropDataLocked (20 * NS_PER_SEC) p)).2
  = [ {| data_key := 5; dimension_nested := false;
         bucket_info := [ {| bucket_num := None;
                             start_bucket_elapsed_millis := Some 0;
                             end_bucket_elapsed_millis := Some 20000;
                             count := 1;
                             condition_true_ns := None |} ] |} ].
Proof. by vm_compute. Qed.

(** ** The count update *)

Section CountProofs.
Context `{Collaborators}.

Implicit Types p : CountMetricProducer.

Lemma hitGuardRailLocked_result k p :
  (hitGuardRailLocked k p).2 = true
  ↔ mCurrentSlicedCounter p !! k = None
    ∧ kDimensionKeySizeSoftLimit <= Z.of_nat (size (mCurrentSlicedCounter p))
    ∧ mDimensionHardLimit p < Z.of_nat (size (mCurrentSlicedCounter p)) + 1.
Proof.
  unfold hitGuardRailLocked.
  case_bool_decide as Hfound.
  { simpl. split; [done |]. intros (Hnone & _). rewrite Hnone in Hfound.
    by destruct Hfound. }
  assert (Hnone : mCurrentSlicedCounter p !! k = None).
  { destruct (mCurrentSlicedCounter p !! k) eqn:E; [| done]. destruct Hfound. eauto. }
  destruct (Z.leb_spec kDimensionKeySizeSoftLimit
              (Z.of_nat (size (mCurrentSlicedCounter p)))); simpl.
  - destruct (Z.ltb_spec (mDimensionHardLimit p)
                (Z.of_nat (size (mCurrentSlicedCounter p)) + 1)); simpl.
    + tauto.
    + split; [done | lia].
  - split; [done | lia].
Qed.

(** The guardrail leaves the counters, the limit and the bucket clock as
    they are; when it drops the key it raises the reported flag. *)
Lemma hitGuardRailLocked_frame k p :
  mCurrentSlicedCounter (hitGuardRailLocked k p).1 = mCurrentSlicedCounter p
  ∧ mDimensionHardLimit (hitGuardRailLocked k p).1 = mDimensionHardLimit p
  ∧ mTimeBaseNs (hitGuardRailLocked k p).1 = mTimeBaseNs p
  ∧ mCurrentBucketNum (hitGuardRailLocked k p).1 = mCurrentBucketNum p
  ∧ mBucketSizeNs (hitGuardRailLocked k p).1 = mBucketSizeNs p
  ∧ ((hitGuardRailLocked k p).2 = true →
     mDimensionGuardrailHit (hitGuardRailLocked k p).1 = true).
Proof. unfold hitGuardRailLocked. repeat case_match; simpl; by repeat split. Qed.

Lemma onMatchedLogEventInternalLocked_false i k event p :
  onMatchedLogEventInternalLocked i k false event p
  = flushIfNeededLocked (GetElapsedTimestampNs event) p.
Proof. done. Qed.

(** The count update, after the rotation the event may have caused: the
    counter of the key goes up by one unless the condition is false or the
    guardrail drops the key. *)
Lemma onMatchedLogEventInternalLocked_update i k condition event p :
  let p1 := flushIfNeededLocked (GetElapsedTimestampNs event) p in
  let p' := onMatchedLogEventInternalLocked i k condition event p in
  mCurrentSlicedCounter p'
  = (if condition && negb (hitGuardRailLocked k p1).2
     then <[k := Int64.add (counterAt k p1) 1]> (mCurrentSlicedCounter p1)
     else mCurrentSlicedCounter p1)
  ∧ mDimensionHardLimit p' = mDimensionHardLimit p1
  ∧ mTimeBaseNs p' = mTimeBaseNs p1
  ∧ mCurrentBucketNum p' = mCurrentBucketNum p1
  ∧ mBucketSizeNs p' = mBucketSizeNs p1
  ∧ (condition = true → (hitGuardRailLocked k p1).2 = true →
     mDimensionGuardrailHit p' = true).
Proof.
  cbv zeta. unfold onMatchedLogEventInternalLocked.
  generalize (flushIfNeededLocked (GetElapsedTimestampNs event) p). intros p1.
  destruct condition; simpl; [| by repeat split].
  pose proof (hitGuardRailLocked_frame k p1) as (Hc & Hl & Hb & Hn & Hs & Hflag).
  pose proof (hitGuardRailLocked_result k p1) as Hres.
  unfold counterAt.
  destruct (mCurrentSlicedCounter p1 !! k) as [c |] eqn:Hk.
  - assert (Hno : (hitGuardRailLocked k p1).2 = false).
    { destruct (hitGuardRailLocked k p1).2; [| done].
      destruct Hres as [Hres _]. by destruct (Hres eq_refl). }
    rewrite Hno. simpl. repeat split; done.
  - destruct (hitGuardRailLocked k p1) as [p2 [|]]; simpl in *.
    + repeat split; solve [done | tauto].
    + rewrite Hc. repeat split; done.
Qed.

Lemma onMatchedLogEventInternalLocked_in_bucket i k condition event p :
  GetElapsedTimestampNs event < getCurrentBucketEndTimeNs p →
  let p' := onMatchedLogEventInternalLocked i k condition event p in
  mCurrentSlicedCounter p'
  = (if condition && negb (hitGuardRailLocked k p).2
     then <[k := Int64.add (counterAt k p) 1]> (mCurrentSlicedCounter p)
     else mCurrentSlicedCounter p)
  ∧ mDimensionHardLimit p' = mDimensionHardLimit p
  ∧ mTimeBaseNs p' = mTimeBaseNs p
  ∧ mCurrentBucketNum p' = mCurrentBucketNum p
  ∧ mBucketSizeNs p' = mBucketSizeNs p
  ∧ (condition = true → (hitGuardRailLocked k p).2 = true →
     mDimensionGuardrailHit p' = true).
Proof.
  intros Hin.
  pose proof (onMatchedLogEventInternalLocked_update i k condition event p) as Hupd.
  by rewrite (flushIfNeededLocked_noop _ _ Hin) in Hupd.
Qed.

Lemma onMatchedLogEventLocked_in_bucket i event p :
  GetElapsedTimestampNs event < getCurrentBucketEndTimeNs p →
  let p' := onMatchedLogEventLocked i event p in
  mCurrentSlicedCounter p'
  = (if eventIsCounted p event
     then <[metricKey event := Int64.add (counterAt (metricKey event) p) 1]>
            (mCurrentSlicedCounter p)
     else mCurrentSlicedCounter p)
  ∧ mDimensionHardLimit p' = mDimensionHardLimit p
  ∧ mTimeBaseNs p' = mTimeBaseNs p
  ∧ mCurrentBucketNum p' = mCurrentBucketNum p
  ∧ mBucketSizeNs p' = mBucketSizeNs p.
Proof.
  intros Hin. cbv zeta.
  unfold onMatchedLogEventLocked, eventIsCounted, reachesCountUpdate, droppedByGuardrail.
  destruct (mIsActive p); simpl; [| done].
  destruct (Z.ltb_spec (GetElapsedTimestampNs event) (mTimeBaseNs p)) as [Hold | Hnew].
  { destruct (Z.leb_spec (mTimeBaseNs p) (GetElapsedTimestampNs event)); [lia | done]. }
  destruct (Z.leb_spec (mTimeBaseNs p) (GetElapsedTimestampNs event)); [| lia]. simpl.
  destruct (passesSampleCheckLocked event p); simpl; [| done].
  pose proof (onMatchedLogEventInternalLocked_in_bucket i (metricKey event)
                (eventCondition event p) event p Hin) as Hstep.
  cbv zeta in Hstep. tauto.
Qed.

(** Inputs other than events leave the counters, the limit and the bucket
    clock as they are. *)
Lemma deliver_other_frame input p :
  match input with
  | MatchedLogEvent _ _ => True
  | _ =>
    mCurrentSlicedCounter (deliver p input) = mCurrentSlicedCounter p
    ∧ mDimensionHardLimit (deliver p input) = mDimensionHardLimit p
    ∧ mTimeBaseNs (deliver p input) = mTimeBaseNs p
    ∧ mCurrentBucketNum (deliver p input) = mCurrentBucketNum p
    ∧ mBucketSizeNs (deliver p input) = mBucketSizeNs p
  end.
Proof.
  destruct input as [i event | met t | idx t | idx]; simpl; [done | ..].
  - unfold onConditionChangedLocked. by case_match.
  - unfold activateLocked, onActiveStateChangedLocked,
      MetricProducer_onActiveStateChangedLocked.
    repeat case_match; simpl; by repeat split.
  - unfold cancelEventActivationLocked. by case_match.
Qed.

Lemma deliver_in_bucket_frame input p :
  inCurrentBucket p input →
  mDimensionHardLimit (deliver p input) = mDimensionHardLimit p
  ∧ getCurrentBucketEndTimeNs (deliver p input) = getCurrentBucketEndTimeNs p.
Proof.
  intros Hin.
  assert (Hframe : mDimensionHardLimit (deliver p input) = mDimensionHardLimit p
                   ∧ mTimeBaseNs (deliver p input) = mTimeBaseNs p
                   ∧ mCurrentBucketNum (deliver p input) = mCurrentBucketNum p
                   ∧ mBucketSizeNs (deliver p input) = mBucketSizeNs p).
  { pose proof (deliver_other_frame input p) as Hother.
    destruct input as [i event | | |]; [| tauto ..].
    pose proof (onMatchedLogEventLocked_in_bucket i event p Hin) as Hstep.
    cbv zeta in Hstep. simpl. tauto. }
  destruct Hframe as (Hl & Hb & Hn & Hs).
  split; [done | by apply getCurrentBucketEndTimeNs_ext].
Qed.

(** One input, in the current bucket, seen from one key. *)
Lemma deliver_counterAt k input p :
  inCurrentBucket p input →
  counterAt k (deliver p input)
  = match input with
    | MatchedLogEvent _ event =>
      if eventIsCounted p event && bool_decide (metricKey event = k)
      then Int64.add (counterAt k p) 1
      else counterAt k p
    | _ => counterAt k p
    end.
Proof.
  intros Hin. unfold counterAt at 1.
  pose proof (deliver_other_frame input p) as Hother.
  destruct input as [i event | | |];
    [| destruct Hother as [-> _]; done ..].
  simpl. pose proof (onMatchedLogEventLocked_in_bucket i event p Hin) as Hstep.
  cbv zeta in Hstep. destruct Hstep as [-> _].
  destruct (eventIsCounted p event); simpl; [| done].
  case_bool_decide as Hk.
  - subst k. by rewrite lookup_insert_eq.
  - by rewrite lookup_insert_ne.
Qed.

Lemma counterAt_deliverAll k inputs p :
  Forall (inCurrentBucket p) inputs →
  counterAt k (deliverAll p inputs)
  = Int64.wrap (counterAt k p + Z.of_nat (countedEvents k p inputs))
  ∨ (countedEvents k p inputs = 0%nat ∧ counterAt k (deliverAll p inputs) = counterAt k p).
Proof.
  revert p. induction inputs as [| input inputs IH]; intros p Hall; [by right |].
  apply Forall_cons in Hall as [Hin Hall].
  assert (Hall' : Forall (inCurrentBucket (deliver p input)) inputs).
  { eapply Forall_impl; [exact Hall |]. intros [] Hx; simpl in *; [| done ..].
    by rewrite (proj2 (deliver_in_bucket_frame input p Hin)). }
  specialize (IH (deliver p input) Hall').
  pose proof (deliver_counterAt k input p Hin) as Hstep.
  change (deliverAll p (input :: inputs)) with (deliverAll (deliver p input) inputs).
  simpl countedEvents.
  destruct input as [i event | | |];
    try (rewrite Hstep in IH; simpl; exact IH).
  destruct (eventIsCounted p event && bool_decide (metricKey event = k)) eqn:Hcnt.
  - left. destruct IH as [-> | [-> ->]]; rewrite Hstep; unfold Int64.add.
    + rewrite Int64_wrap_wrap_add. f_equal. lia.
    + done.
  - rewrite Hstep in IH. simpl. exact IH.
Qed.

End CountProofs.

Section GuardrailProofs.
Context `{Collaborators}.

Implicit Types p : CountMetricProducer.

Lemma countedEvents_le_length k p inputs :
  (countedEvents k p inputs ≤ length inputs)%nat.
Proof.
  revert p. induction inputs as [| input inputs IH]; intros p; simpl; [lia |].
  specialize (IH (deliver p input)).
  destruct input; try lia. case_match; lia.
Qed.

Lemma clampDimensionKeySizeLimit_bounds n :
  kDimensionKeySizeHardLimitMin <= clampDimensionKeySizeLimit n
  <= kDimensionKeySizeHardLimitMax.
Proof.
  unfold clampDimensionKeySizeLimit, kDimensionKeySizeHardLimitMin,
    kDimensionKeySizeHardLimitMax.
  repeat case_match; lia.
Qed.

Lemma flushIfNeededLocked_counter_cases ts p :
  mCurrentSlicedCounter (flushIfNeededLocked ts p) = mCurrentSlicedCounter p
  ∨ mCurrentSlicedCounter (flushIfNeededLocked ts p) = ∅.
Proof.
  unfold flushIfNeededLocked. case_match; [by left |]. right. simpl.
  apply flushCurrentBucketLocked_counter.
Qed.

(** Every input keeps the hard limit, and keeps the number of keys within
    it when the limit is at least the soft limit. *)
Lemma deliver_within_limit input p :
  kDimensionKeySizeSoftLimit <= mDimensionHardLimit p →
  Z.of_nat (size (mCurrentSlicedCounter p)) <= mDimensionHardLimit p →
  mDimensionHardLimit (deliver p input) = mDimensionHardLimit p
  ∧ Z.of_nat (size (mCurrentSlicedCounter (deliver p input))) <= mDimensionHardLimit p.
Proof.
  intros Hsoft Hsize.
  pose proof (deliver_other_frame input p) as Hother.
  destruct input as [i event | | |];
    [| destruct Hother as (-> & -> & _); done ..].
  simpl. unfold onMatchedLogEventLocked.
  repeat (case_match; [done |]).
  pose proof (onMatchedLogEventInternalLocked_update i (metricKey event)
                (eventCondition event p) event p) as (Hc & Hl & _).
  cbv zeta in Hc, Hl.
  set (p1 := flushIfNeededLocked (GetElapsedTimestampNs event) p) in *.
  assert (Hl1 : mDimensionHardLimit p1 = mDimensionHardLimit p)
    by apply flushIfNeededLocked_limit.
  assert (Hsize1 : Z.of_nat (size (mCurrentSlicedCounter p1)) <= mDimensionHardLimit p).
  { destruct (flushIfNeededLocked_counter_cases (GetElapsedTimestampNs event) p)
      as [Heq | Heq]; fold p1 in Heq; rewrite Heq; [done |].
    rewrite map_size_empty. unfold kDimensionKeySizeSoftLimit in Hsoft. lia. }
  rewrite Hl, Hl1. split; [done |]. rewrite Hc.
  destruct (eventCondition event p && negb (hitGuardRailLocked (metricKey event) p1).2)
    eqn:Hcount; [| done].
  apply andb_prop in Hcount as [_ Hnohit]. apply negb_true_iff in Hnohit.
  destruct (mCurrentSlicedCounter p1 !! metricKey event) as [c |] eqn:Hk.
  - rewrite map_size_insert_Some; [done | eauto].
  - rewrite map_size_insert_None by done.
    pose proof (hitGuardRailLocked_result (metricKey event) p1) as Hres.
    rewrite Hnohit, Hl1 in Hres.
    destruct (Z_lt_ge_dec (Z.of_nat (size (mCurrentSlicedCounter p1)))
                kDimensionKeySizeSoftLimit); [lia |].
    destruct (Z_lt_ge_dec (mDimensionHardLimit p)
                (Z.of_nat (size (mCurrentSlicedCounter p1)) + 1)); [| lia].
    destruct Hres as [_ Hres]. discriminate Hres. repeat split; [done | lia | done].
Qed.

Lemma deliverAll_within_limit inputs p :
  kDimensionKeySizeSoftLimit <= mDimensionHardLimit p →
  Z.of_nat (size (mCurrentSlicedCounter p)) <= mDimensionHardLimit p →
  Z.of_nat (size (mCurrentSlicedCounter (deliverAll p inputs))) <= mDimensionHardLimit p.
Proof.
  revert p. induction inputs as [| input inputs IH]; intros p Hsoft Hsize; [done |].
  destruct (deliver_within_limit input p Hsoft Hsize) as [Hl Hs].
  change (deliverAll p (input :: inputs)) with (deliverAll (deliver p input) inputs).
  rewrite <- Hl. apply IH; by rewrite Hl.
Qed.

(** Moving [mCondition] across the rotation: the rotation does not read it. *)
Lemma flushIfNeededLocked_set_mCondition c ts p :
  flushIfNeededLocked ts (set_mCondition c p)
  = set_mCondition c (flushIfNeededLocked ts p).
Proof.
  unfold flushIfNeededLocked, flushCurrentBucketLocked, getCurrentBucketEndTimeNs,
    appendPastBuckets, closedBucketInfo, countPassesThreshold, getCurrentBucketEndTimeNs.
  simpl. case_match; [done |].
  destruct (ConditionTimer_newBucketStart _ _ _) as [? [? ?]].
  repeat case_match; reflexivity.
Qed.

End GuardrailProofs.

(** C1: for every key [k] and every sequence of inputs that stays within
    the current bucket, the counter at [k] grows by the number of events
    that were delivered while the metric was active, were not older than
    the time base, passed the sampling check, had a true condition and were
    not dropped by the dimension guardrail; starting from an empty bucket it
    equals that number. An event that fails one of the checks leaves every
    counter as it is. The counter is assumed not to overflow. *)
Theorem C1_counter_counts_accepted_events `{Collaborators} (p : CountMetricProducer)
    (inputs : list Input) (k : MetricDimensionKey)
    (Hbucket : Forall (inCurrentBucket p) inputs)
    (Hcounter : 0 <= counterAt k p)
    (Hfit : counterAt k p + Z.of_nat (length inputs) <= Int64.max_signed) :
  counterAt k (deliverAll p inputs)
  = counterAt k p + Z.of_nat (countedEvents k p inputs)
  ∧ (mCurrentSlicedCounter p = ∅ →
     counterAt k (deliverAll p inputs) = Z.of_nat (countedEvents k p inputs))
  ∧ (∀ q i event,
       GetElapsedTimestampNs event < getCurrentBucketEndTimeNs q →
       eventIsCounted q event = false →
       mCurrentSlicedCounter (onMatchedLogEventLocked i event q)
       = mCurrentSlicedCounter q).
Proof.
  assert (Hmain : counterAt k (deliverAll p inputs)
                  = counterAt k p + Z.of_nat (countedEvents k p inputs)).
  { pose proof (countedEvents_le_length k p inputs) as Hle.
    destruct (counterAt_deliverAll k inputs p Hbucket) as [-> | [-> ->]]; [| lia].
    apply Int64_wrap_id. unfold Int64.in_range, Int64.min_signed, Int64.max_signed in *.
    lia. }
  split; [exact Hmain |]. split.
  - intros Hfresh. rewrite Hmain. unfold counterAt. by rewrite Hfresh, lookup_empty.
  - intros q i event Hin Hfail.
    pose proof (onMatchedLogEventLocked_in_bucket i event q Hin) as Hstep.
    cbv zeta in Hstep. destruct Hstep as [-> _]. by rewrite Hfail.
Qed.

(** C4: when an event that reaches the count update brings a new key while
    the map already holds at least [hard_limit] keys, the event is dropped
    (the map is unchanged) and the reported guardrail flag is set; an event
    for a key already present is always counted; and the number of keys
    never exceeds the hard limit. The hard limit is the one the constructor
    computes, [clampDimensionKeySizeLimit] of the configured maximum. *)
Theorem C4_dimension_guardrail `{Collaborators} (p : CountMetricProducer)
    (max_dimensions : Z)
    (Hlimit : mDimensionHardLimit p = clampDimensionKeySizeLimit max_dimensions) :
  (∀ i event,
     GetElapsedTimestampNs event < getCurrentBucketEndTimeNs p →
     reachesCountUpdate p event = true →
     mCurrentSlicedCounter p !! metricKey event = None →
     mDimensionHardLimit p <= Z.of_nat (size (mCurrentSlicedCounter p)) →
     mCurrentSlicedCounter (onMatchedLogEventLocked i event p) = mCurrentSlicedCounter p
     ∧ mDimensionGuardrailHit (onMatchedLogEventLocked i event p) = true)
  ∧ (∀ i event c,
       GetElapsedTimestampNs event < getCurrentBucketEndTimeNs p →
       reachesCountUpdate p event = true →
       mCurrentSlicedCounter p !! metricKey event = Some c →
       mCurrentSlicedCounter (onMatchedLogEventLocked i event p)
       = <[metricKey event := Int64.add c 1]> (mCurrentSlicedCounter p))
  ∧ (Z.of_nat (size (mCurrentSlicedCounter p)) <= mDimensionHardLimit p →
     ∀ inputs,
       Z.of_nat (size (mCurrentSlicedCounter (deliverAll p inputs)))
       <= mDimensionHardLimit p).
Proof.
  pose proof (clampDimensionKeySizeLimit_bounds max_dimensions) as Hclamp.
  rewrite <- Hlimit in Hclamp.
  unfold kDimensionKeySizeHardLimitMin, kDimensionKeySizeHardLimitMax in Hclamp.
  split; [| split].
  - intros i event Hin Hreach Hnew Hfull.
    assert (Hhit : (hitGuardRailLocked (metricKey event) p).2 = true).
    { apply hitGuardRailLocked_result. unfold kDimensionKeySizeSoftLimit.
      split; [done | lia]. }
    unfold reachesCountUpdate in Hreach.
    apply andb_prop in Hreach as [Hreach Hcond].
    apply andb_prop in Hreach as [Hreach Hsample].
    apply andb_prop in Hreach as [Hactive Hbase].
    apply Z.leb_le in Hbase.
    unfold onMatchedLogEventLocked. rewrite Hactive, Hsample. simpl.
    destruct (Z.ltb_spec (GetElapsedTimestampNs event) (mTimeBaseNs p)); [lia |].
    pose proof (onMatchedLogEventInternalLocked_in_bucket i (metricKey event)
                  (eventCondition event p) event p Hin) as Hstep.
    cbv zeta in Hstep. destruct Hstep as (Hc & _ & _ & _ & _ & Hflag).
    rewrite Hc, Hhit, andb_false_r. split; [done |]. by apply Hflag.
  - intros i event c Hin Hreach Hold.
    pose proof (onMatchedLogEventLocked_in_bucket i event p Hin) as Hstep.
    cbv zeta in Hstep. destruct Hstep as [-> _].
    assert (Hnohit : droppedByGuardrail p (metricKey event) = false).
    { unfold droppedByGuardrail.
      destruct (hitGuardRailLocked (metricKey event) p).2 eqn:Hhit; [| done].
      apply hitGuardRailLocked_result in Hhit as [Hnone _]. congruence. }
    unfold eventIsCounted, counterAt. by rewrite Hreach, Hnohit, Hold.
  - intros Hsize inputs. apply deliverAll_within_limit; [| done].
    unfold kDimensionKeySizeSoftLimit. lia.
Qed.

(** C10: on a metric whose condition is not sliced, an unknown cached
    condition is treated exactly like false: the two runs of the pipeline
    differ in [mCondition] only. With a cached condition other than kTrue an
    event that passes the first checks only rotates the buckets
    ([flushIfNeededLocked]), and no counter is created or changed: every
    counter present afterwards was present with the same value before. *)
Theorem C10_unknown_condition_counts_nothing `{Collaborators} (p : CountMetricProducer)
    (i : Z) (event : LogEvent)
    (Hunsliced : mConditionSliced p = false) :
  onMatchedLogEventLocked i event (set_mCondition kUnknown p)
  = set_mCondition kUnknown (onMatchedLogEventLocked i event (set_mCondition kFalse p))
  ∧ (mCondition p ≠ kTrue →
     (onMatchedLogEventLocked i event p = p
      ∨ onMatchedLogEventLocked i event p
        = flushIfNeededLocked (GetElapsedTimestampNs event) p)
     ∧ (mIsActive p = true →
        mTimeBaseNs p <= GetElapsedTimestampNs event →
        passesSampleCheckLocked event p = true →
        onMatchedLogEventLocked i event p
        = flushIfNeededLocked (GetElapsedTimestampNs event) p)
     ∧ ∀ k c,
         mCurrentSlicedCounter (onMatchedLogEventLocked i event p) !! k = Some c →
         mCurrentSlicedCounter p !! k = Some c).
Proof.
  split.
  - unfold onMatchedLogEventLocked, eventCondition, passesSampleCheckLocked. simpl.
    rewrite Hunsliced. simpl.
    repeat (case_match; try done);
      rewrite !onMatchedLogEventInternalLocked_false, !flushIfNeededLocked_set_mCondition;
      done.
  - intros Hcond.
    assert (Hfalse : eventCondition event p = false).
    { unfold eventCondition. rewrite Hunsliced. by apply bool_decide_eq_false. }
    assert (Hcases : onMatchedLogEventLocked i event p = p
                     ∨ onMatchedLogEventLocked i event p
                       = flushIfNeededLocked (GetElapsedTimestampNs event) p).
    { unfold onMatchedLogEventLocked. rewrite Hfalse.
      repeat (case_match; [by left |]). by right. }
    split; [exact Hcases |]. split.
    + intros Hactive Hbase Hsample. unfold onMatchedLogEventLocked.
      rewrite Hactive, Hsample, Hfalse. simpl.
      by destruct (Z.ltb_spec (GetElapsedTimestampNs event) (mTimeBaseNs p)); [lia |].
    + intros k c. destruct Hcases as [-> | ->]; [done |].
      destruct (flushIfNeededLocked_counter_cases (GetElapsedTimestampNs event) p)
        as [-> | ->]; [done | by rewrite lookup_empty].
Qed.

Lemma C1_counter_counts_accepted_events_witness :
  Forall (inCurrentBucket exampleProducer) exampleInputs
  ∧ counterAt 5 (deliverAll exampleProducer exampleInputs) = 2.
Proof.
  assert (Hin : Forall (inCurrentBucket exampleProducer) exampleInputs)
    by (repeat constructor; by vm_compute).
  split; [exact Hin |].
  refine (proj1 (C1_counter_counts_accepted_events exampleProducer exampleInputs 5
                   Hin _ _)); by vm_compute.
Defined.

Lemma C4_dimension_guardrail_witness :
  mDimensionHardLimit exampleProducer = clampDimensionKeySizeLimit 0
  ∧ Z.of_nat (size (mCurrentSlicedCounter (deliverAll exampleProducer exampleBurst)))
    <= mDimensionHardLimit exampleProducer.
Proof.
  split; [reflexivity |].
  refine (proj2 (proj2 (C4_dimension_guardrail exampleProducer 0 eq_refl)) _ exampleBurst).
  by vm_compute.
Defined.

Lemma C10_unknown_condition_counts_nothing_witness :
  mConditionSliced exampleProducer = false
  ∧ onMatchedLogEventLocked 0 (exampleEvent 70 5) (set_mCondition kUnknown exampleProducer)
    = set_mCondition kUnknown
        (onMatchedLogEventLocked 0 (exampleEvent 70 5) (set_mCondition kFalse exampleProducer)).
Proof.
  split; [reflexivity |].
  exact (proj1 (C10_unknown_condition_counts_nothing exampleProducer 0
                  (exampleEvent 70 5) eq_refl)).
Defined.

(** ** Pull rotation *)

Section PullProofs.

Implicit Types (env : Environment) (s : StatsPullerManager) (r : ReceiverInfo).

(** The new next pull time of a due receiver, without modular arithmetic:
    one interval more than the whole intervals that have elapsed. *)
Lemma advanceNextPullTime_exact now r :
  receiverInRange now r →
  nextPullTimeNs r <= now →
  nextPullTimeNs (advanceNextPullTime now r)
  = nextPullTimeNs r + ((now - nextPullTimeNs r) / intervalNs r + 1) * intervalNs r.
Proof.
  intros (Hint & Hnext & Hfit) Hdue.
  unfold advanceNextPullTime, NS_PER_SEC, Int64.max_signed in *. simpl.
  set (next := nextPullTimeNs r) in *. set (interval := intervalNs r) in *.
  set (q := (now - next) / interval).
  assert (Hquot : (now - next) ÷ interval = q) by (apply Z.quot_div_nonneg; lia).
  assert (Hq : 0 <= q) by (apply Z.div_pos; lia).
  assert (Hmul : q * interval <= now - next).
  { unfold q. rewrite Z.mul_comm. apply Z.mul_div_le. lia. }
  assert (Hsmall : q < 2 ^ 31 - 1).
  { apply Z.lt_le_trans with (2 ^ 28); [| lia].
    destruct (Z_lt_ge_dec q (2 ^ 28)) as [| Hbig]; [done | exfalso].
    assert (2 ^ 28 * (60 * 1000000000) <= q * interval) by nia. lia. }
  rewrite Int64_sub_exact by (apply Int64_in_range_bounds; lia).
  rewrite Int64_div_exact by (rewrite Hquot; apply Int64_in_range_bounds; lia).
  rewrite Hquot, (Int64_to_int_id q) by lia.
  rewrite Int64_to_int_id by lia.
  rewrite Int64_mul_exact by (apply Int64_in_range_bounds; nia).
  rewrite Int64_add_exact by (apply Int64_in_range_bounds; nia).
  done.
Qed.

Lemma advanceNextPullTime_past now r :
  receiverInRange now r →
  nextPullTimeNs r <= now →
  now < nextPullTimeNs (advanceNextPullTime now r) <= now + intervalNs r.
Proof.
  intros Hrange Hdue. rewrite advanceNextPullTime_exact by done.
  destruct Hrange as (Hint & Hnext & _). unfold NS_PER_SEC in Hint.
  pose proof (Z.div_mod (now - nextPullTimeNs r) (intervalNs r) ltac:(lia)) as Hdm.
  pose proof (Z.mod_pos_bound (now - nextPullTimeNs r) (intervalNs r) ltac:(lia)) as Hmod.
  nia.
Qed.

Lemma advanceIfDue_past now r :
  receiverInRange now r → now < nextPullTimeNs (advanceIfDue now r).
Proof.
  intros Hrange. unfold advanceIfDue.
  destruct (Z.leb_spec (nextPullTimeNs r) now); [| lia].
  by apply advanceNextPullTime_past.
Qed.

(** *** The first loop, then the second, on the receivers of one key *)

Lemma notifyReceiver_selected env t data res (pre rest : list ReceiverInfo) r m0 e0 :
  receiver_promote env (receiver r) = true →
  notifyReceiver env t data res (pre ++ r :: rest, m0, e0) (length pre)
  = ((pre ++ [advanceNextPullTime t r]) ++ rest,
     Z.min (nextPullTimeNs (advanceNextPullTime t r)) m0,
     e0 ++ [onDataPulled (receiver r) data res t]).
Proof.
  intros Halive. unfold notifyReceiver.
  rewrite (list_lookup_middle pre rest r (length pre)) by done.
  rewrite Halive. f_equal. f_equal.
  rewrite <- (Nat.add_0_r (length pre)), insert_app_r.
  by rewrite <- app_assoc.
Qed.

Lemma scan_then_notify env t data res (rs : list ReceiverInfo) :
  Forall (dueReceiverAlive env t) rs →
  ∀ j m eff,
  ∃ rs1 sel m1 eff1,
    scanReceiverList env t j rs m eff = Some (rs1, sel, m1, eff1)
    ∧ ∀ (pre : list ReceiverInfo) m0 e0,
        length pre = j →
        (foldl (notifyReceiver env t data res) (pre ++ rs1, m0, e0) sel).1.1
        = pre ++ (advanceIfDue t <$> rs).
Proof.
  induction 1 as [| r rs Halive _ IH]; intros j m eff.
  { exists [], [], m, eff. split; [done |]. intros pre m0 e0 _. done. }
  unfold dueReceiverAlive in Halive.
  rewrite fmap_cons. unfold advanceIfDue at 1. cbn [scanReceiverList].
  destruct (Z.leb_spec (nextPullTimeNs r) t) as [Hdue | Hlater]; cbn [andb].
  - rewrite (Halive Hdue). cbn [andb].
    destruct (isPullNeeded env (receiver r)) eqn:Hneeded.
    + destruct (IH (S j) m eff) as (rs1 & sel & m1 & eff1 & -> & Hfold).
      eexists _, _, _, _. split; [done |]. intros pre m0 e0 Hlen.
      cbn [foldl]. rewrite <- Hlen, notifyReceiver_selected by auto.
      rewrite Hfold by (rewrite length_app; simpl; lia).
      by rewrite <- app_assoc.
    + destruct (IH (S j) (Z.min (nextPullTimeNs (advanceNextPullTime t r)) m)
                  (eff ++ [onDataPulled (receiver r) [] PULL_NOT_NEEDED t]))
        as (rs1 & sel & m1 & eff1 & -> & Hfold).
      eexists _, _, _, _. split; [done |]. intros pre m0 e0 Hlen.
      rewrite (cons_middle _ pre rs1), app_assoc.
      rewrite Hfold by (rewrite length_app; simpl; lia).
      by rewrite <- app_assoc.
  - destruct (IH (S j) (Z.min (nextPullTimeNs r) m) eff)
      as (rs1 & sel & m1 & eff1 & -> & Hfold).
    eexists _, _, _, _. split; [done |]. intros pre m0 e0 Hlen.
    rewrite (cons_middle _ pre rs1), app_assoc.
    rewrite Hfold by (rewrite length_app; simpl; lia).
    by rewrite <- app_assoc.
Qed.

Lemma PullLocked_uids_mReceivers env tag uids t s :
  mReceivers (PullLocked_uids env tag uids t s).1.1 = mReceivers s.
Proof.
  revert s. induction uids as [| uid uids IH]; intros s; simpl; [done |].
  destruct (kAllPullAtomInfo s !! (uid, tag)); [| apply IH].
  destruct (puller_Pull env z t) as [status data]. simpl.
  by repeat case_match.
Qed.

Lemma PullLocked_mReceivers env tag key t s :
  mReceivers (PullLocked env tag key t s).1.1 = mReceivers s.
Proof.
  unfold PullLocked. repeat case_match; try done. apply PullLocked_uids_mReceivers.
Qed.

(** *** Both loops on the whole table *)

Lemma scan_then_pull env t wall (table : list (ReceiverKey * list ReceiverInfo)) :
  dueReceiversAlive env t table →
  ∀ i m eff,
  ∃ table1 need m1 eff1,
    scanReceivers env t i table m eff = Some (table1, need, m1, eff1)
    ∧ ∀ (pre : list (ReceiverKey * list ReceiverInfo)) s m0,
        length pre = i →
        mReceivers s = pre ++ table1 →
        mReceivers (foldl (pullAndNotify env t wall) (s, m0) need).1
        = pre ++ advanceDueReceivers t table.
Proof.
  induction 1 as [| [key rs] table Halive _ IH]; intros i m eff.
  { exists [], [], m, eff. split; [done |]. intros pre s m0 _ Hs. done. }
  simpl in Halive. simpl scanReceivers.
  destruct (Z.eqb_spec (Z.of_nat (length rs)) 0) as [Hempty | Hsome]; simpl.
  - assert (rs = []) as -> by (destruct rs; [done | simpl in Hempty; lia]).
    destruct (IH (S i) m eff) as (table1 & need & m1 & eff1 & -> & Hfold). simpl.
    eexists _, _, _, _. split; [done |]. intros pre s m0 Hlen Hs.
    rewrite (cons_middle _ pre table1), app_assoc in Hs.
    rewrite (Hfold (pre ++ [(key, [])]) s m0).
    + by rewrite <- app_assoc.
    + rewrite length_app. simpl. lia.
    + done.
  - destruct (scan_then_notify env t [] PULL_RESULT_FAIL rs Halive 0%nat m eff)
      as (rs1 & sel & m1 & eff1 & Hscan & _).
    rewrite Hscan. simpl.
    destruct (IH (S i) m1 eff1) as (table1 & need & m2 & eff2 & -> & Hfold). simpl.
    eexists _, _, _, _. split; [done |]. intros pre s m0 Hlen Hs.
    destruct (Z.ltb_spec 0 (Z.of_nat (length sel))) as [Hsel | Hnosel].
    + cbn [foldl]. unfold pullAndNotify at 2. cbn [fst snd].
      rewrite Hs, (list_lookup_middle pre table1 (key, rs1) i) by done.
      pose proof (PullLocked_mReceivers env (atomTag key) (configKey key) t
                    (emit (PullLocked_called (atomTag key) (configKey key) t) s))
        as Hkeep.
      destruct (PullLocked env (atomTag key) (configKey key) t
                  (emit (PullLocked_called (atomTag key) (configKey key) t) s))
        as [[s' ok] data]. simpl in Hkeep.
      destruct (scan_then_notify env t (stampPulledEvent t wall <$> data)
                  (if ok then PULL_RESULT_SUCCESS else PULL_RESULT_FAIL)
                  rs Halive 0%nat m eff)
        as (rs1' & sel' & m1' & eff1' & Hscan' & Hnotify).
      rewrite Hscan in Hscan'. injection Hscan' as <- <- <- <-.
      specialize (Hnotify [] m0 (effects s') eq_refl). simpl in Hnotify.
      destruct (foldl _ (rs1, m0, effects s') sel) as [[rs2 m3] eff3].
      simpl in Hnotify. subst rs2.
      rewrite (Hfold (pre ++ [(key, advanceIfDue t <$> rs)])).
      * by rewrite <- app_assoc.
      * rewrite length_app. simpl. lia.
      * simpl. rewrite Hkeep. simpl. rewrite Hs.
        rewrite <- Hlen, <- (Nat.add_0_r (length pre)), insert_app_r.
        by rewrite <- app_assoc.
    + assert (sel = []) as -> by (destruct sel; [done | simpl in Hnosel; lia]).
      destruct (scan_then_notify env t [] PULL_RESULT_FAIL rs Halive 0%nat m eff)
        as (rs1' & sel' & m1' & eff1' & Hscan' & Hnotify).
      rewrite Hscan in Hscan'. injection Hscan' as <- <- <- <-.
      specialize (Hnotify [] m0 [] eq_refl). simpl in Hnotify. subst rs1.
      rewrite (Hfold (pre ++ [(key, advanceIfDue t <$> rs)])).
      * by rewrite <- app_assoc.
      * rewrite length_app. simpl. lia.
      * by rewrite Hs, <- app_assoc.
Qed.

Lemma updateAlarmLocked_mReceivers s :
  mReceivers (updateAlarmLocked s) = mReceivers s.
Proof. unfold updateAlarmLocked. by repeat case_match. Qed.

(** When every due receiver still promotes, [OnAlarmFired] returns, and it
    has advanced exactly the due receivers. *)
Lemma OnAlarmFired_receivers env t s :
  dueReceiversAlive env t (mReceivers s) →
  ∃ s', OnAlarmFired env t s = Some s'
        ∧ mReceivers s' = advanceDueReceivers t (mReceivers s).
Proof.
  intros Halive. unfold OnAlarmFired.
  destruct (scan_then_pull env t (getWallClockNs env) (mReceivers s) Halive
              0%nat NO_ALARM_UPDATE (effects s))
    as (table1 & need & m1 & eff1 & -> & Hfold). simpl.
  specialize (Hfold [] (set_effects eff1 (set_mReceivers table1 s)) m1 eq_refl eq_refl).
  destruct (foldl _ _ need) as [s2 m2]. simpl in *.
  eexists. split; [done |]. by rewrite updateAlarmLocked_mReceivers.
Qed.

End PullProofs.

Section PullIdempotence.

Implicit Types (env : Environment) (s : StatsPullerManager) (r : ReceiverInfo).

Lemma scanReceiverList_none_due env t (rs : list ReceiverInfo) :
  Forall (λ r, t < nextPullTimeNs r) rs →
  ∀ j m eff, ∃ m1, scanReceiverList env t j rs m eff = Some (rs, [], m1, eff).
Proof.
  induction 1 as [| r rs Hlater _ IH]; intros j m eff; [by exists m |].
  cbn [scanReceiverList].
  destruct (Z.leb_spec (nextPullTimeNs r) t); [lia |]. cbn [andb].
  destruct (IH (S j) (Z.min (nextPullTimeNs r) m) eff) as [m1 ->].
  by exists m1.
Qed.

Lemma scanReceivers_none_due env t (table : list (ReceiverKey * list ReceiverInfo)) :
  Forall (λ entry : ReceiverKey * list ReceiverInfo,
            Forall (λ r, t < nextPullTimeNs r) entry.2) table →
  ∀ i m eff, ∃ m1, scanReceivers env t i table m eff = Some (table, [], m1, eff).
Proof.
  induction 1 as [| [key rs] table Hlater _ IH]; intros i m eff; [by exists m |].
  cbn [scanReceivers]. simpl in Hlater.
  destruct (negb (Z.of_nat (length rs) =? 0)).
  - destruct (scanReceiverList_none_due env t rs Hlater 0%nat m eff) as [m1 ->].
    cbn [mbind option_bind].
    destruct (IH (S i) m1 eff) as [m2 ->]. by exists m2.
  - destruct (IH (S i) m eff) as [m1 ->]. by exists m1.
Qed.

(** A call at a time when no receiver is due dispatches nothing: the table
    is unchanged and the only effect it may add is the alarm update. *)
Lemma OnAlarmFired_none_due env t s :
  Forall (λ entry : ReceiverKey * list ReceiverInfo,
            Forall (λ r, t < nextPullTimeNs r) entry.2) (mReceivers s) →
  ∃ s' added,
    OnAlarmFired env t s = Some s'
    ∧ mReceivers s' = mReceivers s
    ∧ effects s' = effects s ++ added
    ∧ Forall (λ e, isPull e = false ∧ isDataPulled e = false) added.
Proof.
  intros Hlater. unfold OnAlarmFired.
  destruct (scanReceivers_none_due env t (mReceivers s) Hlater 0%nat
              NO_ALARM_UPDATE (effects s)) as [m1 ->].
  cbn [mbind option_bind foldl]. unfold updateAlarmLocked. cbn.
  destruct (m1 =? NO_ALARM_UPDATE); [| destruct (mStatsCompanionService s)].
  - exists (set_mNextPullTimeNs m1 (set_effects (effects s) (set_mReceivers (mReceivers s) s))), [].
    repeat split; [by rewrite app_nil_r | constructor].
  - eexists _, [_]. repeat split. by repeat constructor.
  - eexists _, []. repeat split; [by rewrite app_nil_r | constructor].
Qed.

Lemma advanceDueReceivers_past t (table : list (ReceiverKey * list ReceiverInfo)) :
  receiversInRange t table →
  Forall (λ entry : ReceiverKey * list ReceiverInfo,
            Forall (λ r, t < nextPullTimeNs r) entry.2) (advanceDueReceivers t table).
Proof.
  intros Hrange. unfold advanceDueReceivers. apply Forall_fmap.
  eapply Forall_impl; [exact Hrange |]. intros [key rs] Hrs. simpl in *.
  apply Forall_fmap. eapply Forall_impl; [exact Hrs |].
  intros r Hr. by apply advanceIfDue_past.
Qed.

End PullIdempotence.

(** C6 (amended): a due receiver's next pull time moves forward by a whole
    number of intervals, [(floor((now - next) / interval) + 1) * interval]:
    it ends strictly after [now] and at most one interval after it. This is
    [ceil((now - next) / interval) * interval] when [now - next] is not a
    multiple of the interval; when it is a multiple, the advance is that
    multiple plus one interval. [OnAlarmFired] applies this to every due
    receiver, whether its pull is dispatched or skipped as not needed. *)
Theorem C6_next_pull_advances_past_now (r : ReceiverInfo) (now : Z)
    (Hrange : receiverInRange now r) (Hdue : nextPullTimeNs r <= now) :
  let next := nextPullTimeNs r in
  let interval := intervalNs r in
  let next' := nextPullTimeNs (advanceNextPullTime now r) in
  next' = next + ((now - next) / interval + 1) * interval
  ∧ now < next' <= now + interval
  ∧ ((now - next) mod interval ≠ 0 →
     next' = next + ceilDiv (now - next) interval * interval)
  ∧ ((now - next) mod interval = 0 → next' = next + ((now - next) + interval))
  ∧ ∀ env s, dueReceiversAlive env now (mReceivers s) →
      ∃ s', OnAlarmFired env now s = Some s'
            ∧ mReceivers s' = advanceDueReceivers now (mReceivers s).
Proof.
  intros next interval next'.
  pose proof (advanceNextPullTime_exact now r Hrange Hdue) as Hexact.
  pose proof (advanceNextPullTime_past now r Hrange Hdue) as Hpast.
  fold next interval next' in Hexact, Hpast.
  destruct Hrange as (Hint & Hnext & _). unfold NS_PER_SEC in Hint.
  fold next interval in Hint, Hnext, Hdue.
  assert (Hpos : 0 < interval) by lia.
  pose proof (Z.div_mod (now - next) interval ltac:(lia)) as Hdm.
  pose proof (Z.mod_pos_bound (now - next) interval Hpos) as Hmod.
  split; [exact Hexact |]. split; [exact Hpast |]. split; [| split].
  - intros Hrem. rewrite Hexact. f_equal. f_equal. unfold ceilDiv.
    apply (Z.div_unique _ _ _ ((now - next) mod interval - 1)); lia.
  - intros Hrem. rewrite Hexact. nia.
  - intros env s. apply OnAlarmFired_receivers.
Qed.

Lemma C6_next_pull_advances_past_now_witness :
  receiverInRange (65 * NS_PER_SEC) exampleReceiver
  ∧ nextPullTimeNs exampleReceiver <= 65 * NS_PER_SEC
  ∧ 65 * NS_PER_SEC
    < nextPullTimeNs (advanceNextPullTime (65 * NS_PER_SEC) exampleReceiver)
    <= 65 * NS_PER_SEC + intervalNs exampleReceiver.
Proof.
  assert (Hrange : receiverInRange (65 * NS_PER_SEC) exampleReceiver)
    by (repeat split; by vm_compute).
  assert (Hdue : nextPullTimeNs exampleReceiver <= 65 * NS_PER_SEC) by (by vm_compute).
  split; [exact Hrange |]. split; [exact Hdue |].
  exact (proj1 (proj2 (C6_next_pull_advances_past_now exampleReceiver (65 * NS_PER_SEC)
                         Hrange Hdue))).
Defined.

(** C6 as stated fails when [now - next_pull_ns] is an exact multiple of
    the interval: with interval 60 s and next pull time 60 s, the alarm at
    120 s moves the next pull time to 180 s, an advance of two intervals,
    where [ceil((now - next) / interval) * interval] is one interval. *)
Lemma C6_counterexample :
  let now := 120 * NS_PER_SEC in
  let next := nextPullTimeNs exampleReceiver in
  let interval := intervalNs exampleReceiver in
  (now - next) mod interval = 0
  ∧ nextPullTimeNs (advanceNextPullTime now exampleReceiver) = 180 * NS_PER_SEC
  ∧ next + ceilDiv (now - next) interval * interval = 120 * NS_PER_SEC
  ∧ (mReceivers <$> OnAlarmFired exampleEnvironment now exampleManager)
    = Some [({| atomTag := 10001; configKey := (0, 12345) |},
             [set_nextPullTimeNs (180 * NS_PER_SEC) exampleReceiver])].
Proof. vm_compute. repeat split. Qed.

(** Scenario 6 of the specification, run on the model: the alarm at 65 s
    dispatches one pull and moves the next pull time from 60 s to 120 s; the
    same alarm again dispatches none. *)
Example pull_cadence_scenario :
  (s1 ← OnAlarmFired exampleEnvironment (65 * NS_PER_SEC) exampleManager;
   s2 ← OnAlarmFired exampleEnvironment (65 * NS_PER_SEC) s1;
   Some (filter (λ e, isPull e = true) (effects s1),
         nextPullTimeNs <$> concat (snd <$> mReceivers s1),
         filter (λ e, isPull e = true) (effects s2)))
  = Some ([PullLocked_called 10001 (0, 12345) (65 * NS_PER_SEC)],
          [120 * NS_PER_SEC],
          [PullLocked_called 10001 (0, 12345) (65 * NS_PER_SEC)]).
Proof. vm_compute. reflexivity. Qed.

(** * Part III: further properties of the embedded code *)

(** ** Activation and deactivation triggers *)

Section TriggerProofs.
Context `{Collaborators}.

Implicit Types p : CountMetricProducer.

Lemma evaluateActiveStateLocked_eq now p :
  evaluateActiveStateLocked now p
  = (set_mEventActivationMap (expireActivation now <$> mEventActivationMap p) p,
     (evaluateActiveStateLocked now p).2).
Proof.
  pose proof (evaluateActiveStateLocked_map now p) as Hmap.
  unfold evaluateActiveStateLocked in *.
  destruct (map_fold _ _ _) as [acts act]. simpl in *. by rewrite Hmap.
Qed.

Lemma expireActivation_idempotent now (a : Activation) :
  expireActivation now (expireActivation now a) = expireActivation now a.
Proof.
  unfold expireActivation.
  destruct (bool_decide (state a = kActive)
            && (Int64.add (ttl_ns a) (start_ns a) <? now)) eqn:Hexp.
  - done.
  - by rewrite Hexp.
Qed.

(** No activation is Active: the metric is inactive unless it has no
    activation at all. *)
Lemma evaluateActiveStateLocked_none_active now p :
  mEventActivationMap p ≠ ∅ →
  (∀ j b, mEventActivationMap p !! j = Some b → state b ≠ kActive) →
  (evaluateActiveStateLocked now p).2 = false.
Proof.
  intros Hne Hnone.
  destruct (evaluateActiveStateLocked now p).2 eqn:Hres; [| done].
  apply evaluateActiveStateLocked_result in Hres as [? | (j & b & Hj & Hst & _)];
    [done | by destruct (Hnone j b Hj)].
Qed.

Lemma activateLocked_frame i now p :
  mCurrentSlicedCounter (activateLocked i now p) = mCurrentSlicedCounter p
  ∧ mPastBuckets (activateLocked i now p) = mPastBuckets p
  ∧ mCurrentBucketNum (activateLocked i now p) = mCurrentBucketNum p
  ∧ mCurrentBucketStartTimeNs (activateLocked i now p) = mCurrentBucketStartTimeNs p.
Proof.
  unfold activateLocked, onActiveStateChangedLocked,
    MetricProducer_onActiveStateChangedLocked.
  repeat case_match; simpl; by repeat split.
Qed.

Lemma activateLocked_immediate_map i now p a :
  mEventActivationMap p !! i = Some a →
  activationType a ≠ ACTIVATE_ON_BOOT →
  mEventActivationMap (activateLocked i now p)
  = <[i := Activation_set_state kActive (Activation_set_start_ns now a)]>
      (mEventActivationMap p)
  ∧ mIsActive (activateLocked i now p) = true.
Proof.
  intros Hi Htype. unfold activateLocked. rewrite Hi.
  rewrite bool_decide_eq_false_2 by done. simpl.
  destruct (mIsActive p) eqn:Hact; simpl; [done |].
  unfold onActiveStateChangedLocked, MetricProducer_onActiveStateChangedLocked. simpl.
  by case_match.
Qed.

Lemma cancel_fold_lookup (l : list Z) (m : gmap Z Activation) (j : Z) :
  foldl (λ acts k, alter (Activation_set_state kNotActive) k acts) m l !! j
  = if bool_decide (j ∈ l) then Activation_set_state kNotActive <$> m !! j else m !! j.
Proof.
  revert m. induction l as [| k l IH]; intros m; cbn [foldl].
  { rewrite bool_decide_eq_false_2; [done | apply not_elem_of_nil]. }
  rewrite IH. destruct (decide (k = j)) as [-> | Hne].
  - rewrite lookup_alter_eq, (bool_decide_eq_true_2 (j ∈ j :: l)) by apply list_elem_of_here.
    case_bool_decide; [| done]. by destruct (m !! j).
  - rewrite lookup_alter_ne by done.
    destruct (decide (j ∈ l)) as [Hin | Hnotin].
    + rewrite !bool_decide_eq_true_2; [done | by apply list_elem_of_further | done].
    + rewrite !bool_decide_eq_false_2; [done | | done].
      intros [-> | ?]%elem_of_cons; done.
Qed.

End TriggerProofs.

(** X1: an activation trigger of a type other than ACTIVATE_ON_BOOT makes
    the metric active and restarts the activation at [now]; until
    [now + ttl_ns] (inclusive) the metric evaluates as active. The other
    activations, the counters and the past buckets are untouched. *)
Theorem activateLocked_active_within_ttl `{Collaborators} (p : CountMetricProducer)
    (i now t : Z) (a : Activation)
    (Hi : mEventActivationMap p !! i = Some a)
    (Htype : activationType a ≠ ACTIVATE_ON_BOOT)
    (Hrange : Int64.in_range (ttl_ns a + now))
    (Ht : t <= now + ttl_ns a) :
  let q := activateLocked i now p in
  mIsActive q = true
  ∧ mEventActivationMap q !! i
    = Some {| ttl_ns := ttl_ns a; start_ns := now; state := kActive;
              activationType := activationType a |}
  ∧ (∀ j, j ≠ i → mEventActivationMap q !! j = mEventActivationMap p !! j)
  ∧ mCurrentSlicedCounter q = mCurrentSlicedCounter p
  ∧ mPastBuckets q = mPastBuckets p
  ∧ (evaluateActiveStateLocked t q).2 = true.
Proof.
  intros q. unfold q.
  destruct (activateLocked_immediate_map i now p a Hi Htype) as [Hmap Hact].
  destruct (activateLocked_frame i now p) as (Hc & Hp & _).
  assert (Hq : mEventActivationMap (activateLocked i now p) !! i
               = Some {| ttl_ns := ttl_ns a; start_ns := now; state := kActive;
                         activationType := activationType a |})
    by (by rewrite Hmap, lookup_insert_eq).
  repeat split; try done.
  - intros j Hj. by rewrite Hmap, lookup_insert_ne.
  - apply evaluateActiveStateLocked_result. right. eexists i, _.
    split; [exact Hq |]. simpl. split; [done |]. rewrite Int64_add_exact by done. lia.
Qed.

Lemma activateLocked_active_within_ttl_witness :
  mEventActivationMap exampleRestartedProducer !! 7
  = Some {| ttl_ns := 100 * NS_PER_SEC; start_ns := 0; state := kNotActive;
            activationType := ACTIVATE_IMMEDIATELY |}
  ∧ mIsActive exampleRestartedProducer = false
  ∧ mIsActive (activateLocked 7 (10 * NS_PER_SEC) exampleRestartedProducer) = true
  ∧ (evaluateActiveStateLocked (110 * NS_PER_SEC)
       (activateLocked 7 (10 * NS_PER_SEC) exampleRestartedProducer)).2 = true.
Proof.
  split; [reflexivity |]. split; [reflexivity |].
  destruct (activateLocked_active_within_ttl exampleRestartedProducer 7
              (10 * NS_PER_SEC) (110 * NS_PER_SEC)
              {| ttl_ns := 100 * NS_PER_SEC; start_ns := 0; state := kNotActive;
                 activationType := ACTIVATE_IMMEDIATELY |})
    as (Hact & _ & _ & _ & _ & Heval);
    [reflexivity | discriminate | split; by vm_compute | by vm_compute |].
  split; [exact Hact | exact Heval].
Defined.

(** X2: a trigger for an ACTIVATE_ON_BOOT activation never activates the
    metric: [mIsActive] and the start time are unchanged, a NotActive
    activation becomes ActiveOnBoot and any other state stays; and as long as
    no activation is Active the metric evaluates as inactive at every time. *)
Theorem activateLocked_on_boot_stays_inactive `{Collaborators} (p : CountMetricProducer)
    (i now : Z) (a : Activation)
    (Hi : mEventActivationMap p !! i = Some a)
    (Htype : activationType a = ACTIVATE_ON_BOOT) :
  let q := activateLocked i now p in
  mIsActive q = mIsActive p
  ∧ mEventActivationMap q !! i
    = Some (Activation_set_state
              (if bool_decide (state a = kNotActive) then kActiveOnBoot else state a) a)
  ∧ (∀ j, j ≠ i → mEventActivationMap q !! j = mEventActivationMap p !! j)
  ∧ ((∀ j b, mEventActivationMap p !! j = Some b → state b ≠ kActive) →
     ∀ t, (evaluateActiveStateLocked t q).2 = false).
Proof.
  intros q.
  assert (Hq : mIsActive q = mIsActive p
               ∧ mEventActivationMap q
                 = <[i := Activation_set_state
                            (if bool_decide (state a = kNotActive) then kActiveOnBoot
                             else state a) a]> (mEventActivationMap p)).
  { unfold q, activateLocked. rewrite Hi, bool_decide_eq_true_2 by done.
    case_bool_decide; simpl; [done |]. split; [done |].
    symmetry. apply insert_id. rewrite Hi. by destruct a. }
  destruct Hq as [Hact Hmap]. rewrite Hmap.
  split; [done |]. split; [by rewrite lookup_insert_eq |].
  split; [by intros j Hj; rewrite lookup_insert_ne |].
  intros Hnone t. apply evaluateActiveStateLocked_none_active.
  - rewrite Hmap. apply insert_non_empty.
  - intros j b. rewrite Hmap. destruct (decide (i = j)) as [<- | Hne].
    + rewrite lookup_insert_eq. intros [= <-]. simpl.
      case_bool_decide; [done | by apply (Hnone i a)].
    + rewrite lookup_insert_ne by done. apply Hnone.
Qed.

Lemma activateLocked_on_boot_stays_inactive_witness :
  let p := set_mEventActivationMap
             {[ 7 := {| ttl_ns := 100 * NS_PER_SEC; start_ns := 0; state := kNotActive;
                        activationType := ACTIVATE_ON_BOOT |} ]}
             exampleRestartedProducer in
  mIsActive (activateLocked 7 (10 * NS_PER_SEC) p) = false
  ∧ mEventActivationMap (activateLocked 7 (10 * NS_PER_SEC) p) !! 7
    = Some {| ttl_ns := 100 * NS_PER_SEC; start_ns := 0; state := kActiveOnBoot;
              activationType := ACTIVATE_ON_BOOT |}.
Proof.
  cbv zeta.
  destruct (activateLocked_on_boot_stays_inactive
              (set_mEventActivationMap
                 {[ 7 := {| ttl_ns := 100 * NS_PER_SEC; start_ns := 0; state := kNotActive;
                            activationType := ACTIVATE_ON_BOOT |} ]}
                 exampleRestartedProducer)
              7 (10 * NS_PER_SEC)
              {| ttl_ns := 100 * NS_PER_SEC; start_ns := 0; state := kNotActive;
                 activationType := ACTIVATE_ON_BOOT |})
    as (Hact & Hmap & _); [reflexivity | reflexivity |].
  split; [exact Hact | exact Hmap].
Defined.

(** X3: a deactivation trigger sets every activation it lists to NotActive
    and leaves the others alone; it does not change [mIsActive] itself, but
    when it cancels every Active activation the next [flushIfExpire], at any
    time, makes the metric inactive. *)
Theorem cancelEventActivationLocked_deactivates `{Collaborators}
    (p : CountMetricProducer) (d : Z) (toCancel : list Z)
    (Hd : mEventDeactivationMap p !! d = Some toCancel) :
  let q := cancelEventActivationLocked d p in
  mIsActive q = mIsActive p
  ∧ (∀ j, j ∈ toCancel →
       mEventActivationMap q !! j
       = Activation_set_state kNotActive <$> mEventActivationMap p !! j)
  ∧ (∀ j, j ∉ toCancel → mEventActivationMap q !! j = mEventActivationMap p !! j)
  ∧ (mEventActivationMap p ≠ ∅ →
     (∀ j b, mEventActivationMap p !! j = Some b → state b = kActive → j ∈ toCancel) →
     ∀ t, mIsActive (flushIfExpire t q) = false).
Proof.
  intros q.
  assert (Hmap : ∀ j, mEventActivationMap q !! j
                      = if bool_decide (j ∈ toCancel)
                        then Activation_set_state kNotActive <$> mEventActivationMap p !! j
                        else mEventActivationMap p !! j).
  { intros j. unfold q, cancelEventActivationLocked. rewrite Hd. simpl.
    apply cancel_fold_lookup. }
  assert (Hact : mIsActive q = mIsActive p).
  { unfold q, cancelEventActivationLocked. by rewrite Hd. }
  split; [done |]. split; [| split].
  - intros j Hj. by rewrite Hmap, bool_decide_eq_true_2.
  - intros j Hj. by rewrite Hmap, bool_decide_eq_false_2.
  - intros Hne Hall t. unfold flushIfExpire.
    destruct (mIsActive q) eqn:Hq; [| done]. simpl.
    assert (Heval : (evaluateActiveStateLocked t q).2 = false).
    { apply evaluateActiveStateLocked_none_active.
      - intros Hempty. apply Hne. apply map_eq. intros j.
        pose proof (Hmap j) as Hj. rewrite Hempty, lookup_empty in Hj.
        rewrite lookup_empty. case_bool_decide; [| done].
        by destruct (mEventActivationMap p !! j).
      - intros j b. rewrite Hmap. case_bool_decide as Hin.
        + destruct (mEventActivationMap p !! j); [| done]. by intros [= <-].
        + intros Hj Hst. by apply Hin, (Hall j b). }
    destruct (evaluateActiveStateLocked t q) as [q1 [|]]; [done | done].
Qed.

Lemma cancelEventActivationLocked_deactivates_witness :
  let p := set_mIsActive true
             (newCountMetricProducer 0 exampleMetric (-1) kTrue 0 0
                {[ 7 := exampleActivation ]} {[ 9 := [7] ]} []) in
  mEventDeactivationMap p !! 9 = Some [7]
  ∧ mIsActive (cancelEventActivationLocked 9 p) = true
  ∧ mIsActive (flushIfExpire (20 * NS_PER_SEC) (cancelEventActivationLocked 9 p)) = false.
Proof.
  cbv zeta. split; [reflexivity |].
  destruct (cancelEventActivationLocked_deactivates
              (set_mIsActive true
                 (newCountMetricProducer 0 exampleMetric (-1) kTrue 0 0
                    {[ 7 := exampleActivation ]} {[ 9 := [7] ]} []))
              9 [7]) as (Hact & _ & _ & Hflush); [reflexivity |].
  split; [exact Hact |]. apply Hflush.
  - apply (map_non_empty_singleton (M := gmap Z)).
  - intros j b Hj _. change (({[7 := exampleActivation]} : gmap Z Activation) !! j = Some b) in Hj.
    apply lookup_singleton_Some in Hj as [<- _]. apply list_elem_of_here.
Defined.

(** X4: [flushIfExpire] is idempotent: a second call at the same time
    changes nothing, whether the first call deactivated the metric or not. *)
Theorem flushIfExpire_idempotent `{Collaborators} (p : CountMetricProducer) (t : Z) :
  flushIfExpire t (flushIfExpire t p) = flushIfExpire t p.
Proof.
  destruct (mIsActive p) eqn:Hact.
  2: { assert (Hno : flushIfExpire t p = p) by (unfold flushIfExpire; by rewrite Hact).
       by rewrite !Hno. }
  set (m' := expireActivation t <$> mEventActivationMap p).
  assert (Hfirst : flushIfExpire t p
                   = if (evaluateActiveStateLocked t p).2
                     then set_mEventActivationMap m' p
                     else set_mIsActive false
                            (onActiveStateChangedLocked t false
                               (set_mEventActivationMap m' p))).
  { unfold flushIfExpire. rewrite Hact. simpl.
    pose proof (evaluateActiveStateLocked_eq t p) as Heq.
    destruct (evaluateActiveStateLocked t p) as [p1 b]. simpl in Heq.
    injection Heq as ->. by destruct b. }
  rewrite Hfirst.
  destruct (evaluateActiveStateLocked t p).2 eqn:Hres; [| done].
  set (p1 := set_mEventActivationMap m' p).
  assert (Hsame : expireActivation t <$> mEventActivationMap p1 = m').
  { unfold p1, m'. simpl. rewrite <- map_fmap_compose. apply map_fmap_ext.
    intros j a _. apply expireActivation_idempotent. }
  assert (Heval : (evaluateActiveStateLocked t p1).2 = true).
  { apply evaluateActiveStateLocked_result in Hres.
    apply evaluateActiveStateLocked_result. unfold p1, m'. simpl.
    destruct Hres as [-> | (j & a & Hj & Hst & Hle)]; [left; apply fmap_empty |].
    right. exists j, (expireActivation t a).
    rewrite lookup_fmap, Hj. split; [done |].
    assert (Hkeep : expireActivation t a = a).
    { unfold expireActivation. rewrite Hst. simpl.
      by destruct (Z.ltb_spec (Int64.add (ttl_ns a) (start_ns a)) t); [lia |]. }
    by rewrite Hkeep. }
  unfold flushIfExpire. replace (mIsActive p1) with true by done. simpl.
  pose proof (evaluateActiveStateLocked_eq t p1) as Heq.
  destruct (evaluateActiveStateLocked t p1) as [p2 b]. simpl in Heq, Heval.
  injection Heq as ->. subst b. cbn [negb].
  change (expireActivation t <$> m') with (expireActivation t <$> mEventActivationMap p1).
  by rewrite Hsame.
Qed.

(** X5: evaluating the active state only ever turns Active activations
    into NotActive: keys, TTLs, start times and types are kept, activations
    that are not Active are untouched, and once the metric has evaluated as
    inactive it evaluates as inactive at every other time too, until a
    trigger or a load activates it again. *)
Theorem evaluateActiveStateLocked_never_reactivates `{Collaborators}
    (p : CountMetricProducer) (t : Z) :
  let q := (evaluateActiveStateLocked t p).1 in
  (∀ j, mEventActivationMap q !! j = expireActivation t <$> mEventActivationMap p !! j)
  ∧ (∀ j a, mEventActivationMap p !! j = Some a →
       ∃ b, mEventActivationMap q !! j = Some b
            ∧ ttl_ns b = ttl_ns a ∧ start_ns b = start_ns a
            ∧ activationType b = activationType a
            ∧ (state a ≠ kActive → b = a)
            ∧ (state b = kActive → state a = kActive))
  ∧ ((evaluateActiveStateLocked t p).2 = false →
     ∀ t', (evaluateActiveStateLocked t' q).2 = false).
Proof.
  intros q.
  assert (Hmap : ∀ j, mEventActivationMap q !! j
                      = expireActivation t <$> mEventActivationMap p !! j).
  { intros j. unfold q. by rewrite evaluateActiveStateLocked_map, lookup_fmap. }
  split; [exact Hmap |]. split.
  - intros j a Hj. exists (expireActivation t a). rewrite Hmap, Hj.
    split; [done |]. unfold expireActivation.
    destruct (state a) eqn:Hst; simpl; try rewrite Hst; try (by repeat split).
    case_match; simpl; repeat split; try done; congruence.
  - intros Hres t'.
    destruct (evaluateActiveStateLocked t' q).2 eqn:Hres'; [| done].
    rewrite <- Hres. symmetry. apply evaluateActiveStateLocked_result.
    apply evaluateActiveStateLocked_result in Hres' as [Hempty | (j & b & Hj & Hst & _)].
    + left. apply map_eq. intros j. pose proof (Hmap j) as Hj.
      rewrite Hempty, lookup_empty in Hj. rewrite lookup_empty.
      by destruct (mEventActivationMap p !! j).
    + right. rewrite Hmap in Hj.
      destruct (mEventActivationMap p !! j) as [a |] eqn:Ha; [| done].
      injection Hj as <-. exists j, a. split; [done |].
      by apply expireActivation_state.
Qed.

(** ** Persistence of activations, continued *)

Section SnapshotProofs.
Context `{Collaborators}.

Implicit Types p : CountMetricProducer.

Lemma loadActiveEventActivation_congr now p p' msg :
  mEventActivationMap p !! atom_matcher_index msg
  = mEventActivationMap p' !! atom_matcher_index msg →
  mEventActivationMap (loadActiveEventActivation now p msg) !! atom_matcher_index msg
  = mEventActivationMap (loadActiveEventActivation now p' msg) !! atom_matcher_index msg.
Proof.
  intros Heq. unfold loadActiveEventActivation. rewrite <- Heq.
  destruct (mEventActivationMap p !! atom_matcher_index msg) eqn:Hi; [| congruence].
  repeat case_match; simpl; rewrite ?lookup_insert_eq; congruence.
Qed.

Lemma loadActiveEventActivation_dom now p msg j :
  is_Some (mEventActivationMap (loadActiveEventActivation now p msg) !! j)
  ↔ is_Some (mEventActivationMap p !! j).
Proof.
  unfold loadActiveEventActivation.
  destruct (mEventActivationMap p !! atom_matcher_index msg) eqn:Hi; [| done].
  repeat case_match; simpl; try done;
    (destruct (decide (atom_matcher_index msg = j)) as [<- | Hne];
     [rewrite lookup_insert_eq, Hi; split; eauto
     | by rewrite lookup_insert_ne]).
Qed.

(** A message that says ACTIVE, or has no state, activates the metric when
    its activation exists. *)
Lemma load_fold_activates now msgs p msg :
  msg ∈ msgs →
  state_field msg = Some ACTIVE ∨ state_field msg = None →
  is_Some (mEventActivationMap p !! atom_matcher_index msg) →
  mIsActive (foldl (loadActiveEventActivation now) p msgs) = true.
Proof.
  intros Hin Hst. revert p.
  induction msgs as [| m msgs IH]; intros p Hi; [by apply elem_of_nil in Hin |].
  simpl. apply elem_of_cons in Hin as [<- | Hin].
  - apply load_fold_stays_active. unfold loadActiveEventActivation.
    destruct Hi as [a ->]. unfold has_state.
    destruct Hst as [-> | ->]; simpl; done.
  - apply IH; [done |]. by apply loadActiveEventActivation_dom.
Qed.

(** Loading messages with distinct matcher indices: the activation at the
    index of a message is what loading that message alone gives. *)
Lemma load_fold_single now msgs p msg :
  NoDup (atom_matcher_index <$> msgs) →
  msg ∈ msgs →
  mEventActivationMap (foldl (loadActiveEventActivation now) p msgs)
    !! atom_matcher_index msg
  = mEventActivationMap (loadActiveEventActivation now p msg) !! atom_matcher_index msg.
Proof.
  intros Hnd Hin. revert p Hnd.
  induction msgs as [| m msgs IH]; intros p Hnd; [by apply elem_of_nil in Hin |].
  rewrite fmap_cons in Hnd. apply NoDup_cons in Hnd as [Hfresh Hnd].
  apply elem_of_cons in Hin as [<- | Hin]; simpl.
  - apply load_fold_other. apply Forall_forall. intros m' Hm' Heq. apply Hfresh.
    rewrite <- Heq. by apply list_elem_of_fmap_2.
  - rewrite IH by done. apply loadActiveEventActivation_congr.
    apply loadActiveEventActivation_other.
    intros Heq. apply Hfresh. rewrite Heq. by apply list_elem_of_fmap_2.
Qed.

Lemma written_on_boot t reason p i a :
  mEventActivationMap p !! i = Some a →
  state a = kActiveOnBoot →
  ∃ msg, writeActiveEventActivation t reason (i, a) = Some msg
         ∧ msg ∈ activation (writeActiveMetricToProtoOutputStream t reason p).
Proof.
  intros Hi Hst.
  assert (Hw : is_Some (writeActiveEventActivation t reason (i, a))).
  { unfold writeActiveEventActivation. rewrite Hst. simpl. eauto. }
  destruct Hw as [msg Hw]. exists msg. split; [done |].
  apply list_elem_of_omap. exists (i, a). split; [by apply elem_of_map_to_list | done].
Qed.

Lemma loadActiveMetricLocked_nonempty msgs now p i a :
  mEventActivationMap p !! i = Some a →
  loadActiveMetricLocked msgs now p
  = foldl (loadActiveEventActivation now) p (activation msgs).
Proof.
  intros Hi. unfold loadActiveMetricLocked.
  destruct (Z.eqb_spec (Z.of_nat (size (mEventActivationMap p))) 0) as [Hz |]; [| done].
  assert (Hempty : mEventActivationMap p = ∅) by (apply map_size_empty_inv; lia).
  by rewrite Hempty, lookup_empty in Hi.
Qed.

Lemma Int64_sub_add_cancel a b : Int64.sub (Int64.add a b) b = Int64.wrap a.
Proof.
  unfold Int64.add, Int64.sub.
  replace (Int64.wrap (a + b) - b) with (Int64.wrap (a + b) + - b) by lia.
  rewrite Int64_wrap_wrap_add. f_equal. lia.
Qed.

End SnapshotProofs.

(** X6: what becomes of an ActiveOnBoot activation across a snapshot. Saved
    on device shutdown or on a termination signal, it is written as ACTIVE
    with its full TTL and loads as Active from the load time, making the
    metric active. Saved because statscompanion died, it loads as
    ActiveOnBoot again. Saved for any other reason, it is written without a
    state and loads as Active with no time left: it expires at the load
    time. *)
Theorem activateOnBoot_across_snapshot `{Collaborators} (p p' : CountMetricProducer)
    (i t now : Z) (a a' : Activation) (reason : DumpReportReason)
    (Hsaved : mEventActivationMap p !! i = Some a)
    (Hboot : state a = kActiveOnBoot)
    (Hconfig : mEventActivationMap p' !! i = Some a')
    (Httl : ttl_ns a' = ttl_ns a)
    (Hnow : Int64.in_range now)
    (Hback : Int64.in_range (now - ttl_ns a)) :
  let q := loadActiveMetricLocked (writeActiveMetricToProtoOutputStream t reason p) now p' in
  (reason = DEVICE_SHUTDOWN ∨ reason = TERMINATION_SIGNAL_RECEIVED →
   mEventActivationMap q !! i
   = Some (Activation_set_state kActive (Activation_set_start_ns now a'))
   ∧ mIsActive q = true)
  ∧ (reason = STATSCOMPANION_DIED →
     mEventActivationMap q !! i = Some (Activation_set_state kActiveOnBoot a'))
  ∧ (reason = OTHER_REASON →
     mEventActivationMap q !! i
     = Some (Activation_set_state kActive (Activation_set_start_ns (now - ttl_ns a) a'))).
Proof.
  intros q.
  destruct (written_on_boot t reason p i a Hsaved Hboot) as (msg & Hmsg & Hin).
  assert (Hidx : atom_matcher_index msg = i)
    by (by apply writeActiveEventActivation_index in Hmsg).
  pose proof (load_fold_single now
                (activation (writeActiveMetricToProtoOutputStream t reason p)) p' msg
                (written_indices_NoDup t reason _ (NoDup_fst_map_to_list _)) Hin) as Hload.
  rewrite <- (loadActiveMetricLocked_nonempty _ now p' i a' Hconfig) in Hload.
  fold q in Hload. rewrite Hidx in Hload.
  unfold writeActiveEventActivation in Hmsg. rewrite Hboot in Hmsg. simpl in Hmsg.
  split; [| split].
  - intros Hreason.
    assert (Hm : msg = {| atom_matcher_index := i;
                          remaining_ttl_nanos_field := Some (ttl_ns a);
                          state_field := Some ACTIVE |})
      by (destruct Hreason as [-> | ->]; by injection Hmsg as <-).
    assert (Hone : mEventActivationMap (loadActiveEventActivation now p' msg) !! i
                   = Some (Activation_set_state kActive (Activation_set_start_ns now a'))
                   ∧ mIsActive (loadActiveEventActivation now p' msg) = true).
    { rewrite Hm. unfold loadActiveEventActivation, remaining_ttl_nanos. simpl.
      rewrite Hconfig. simpl. rewrite lookup_insert_eq, Httl, Int64_sub_add_cancel.
      by rewrite Int64_wrap_id. }
    destruct Hone as [Hmap Hact]. split; [by rewrite Hload |].
    unfold q. rewrite (loadActiveMetricLocked_nonempty _ now p' i a' Hconfig).
    apply (load_fold_activates now
             (activation (writeActiveMetricToProtoOutputStream t reason p)) p' msg Hin).
    + left. by rewrite Hm.
    + rewrite Hidx, Hconfig. eauto.
  - intros ->. injection Hmsg as <-. rewrite Hload.
    unfold loadActiveEventActivation. simpl. rewrite Hconfig. simpl.
    by rewrite lookup_insert_eq.
  - intros ->. injection Hmsg as <-. rewrite Hload.
    unfold loadActiveEventActivation, remaining_ttl_nanos. simpl.
    rewrite Hconfig. simpl. rewrite lookup_insert_eq, Httl.
    rewrite (Int64_add_exact now 0), Int64_sub_exact
      by (rewrite ?Z.add_0_r; done).
    by rewrite Z.add_0_r.
Qed.

Lemma activateOnBoot_across_snapshot_witness :
  let p := set_mEventActivationMap
             {[ 7 := {| ttl_ns := 100 * NS_PER_SEC; start_ns := 0; state := kActiveOnBoot;
                        activationType := ACTIVATE_ON_BOOT |} ]}
             exampleRestartedProducer in
  let q := loadActiveMetricLocked
             (writeActiveMetricToProtoOutputStream (50 * NS_PER_SEC) DEVICE_SHUTDOWN p)
             (5 * NS_PER_SEC) exampleRestartedProducer in
  mEventActivationMap q !! 7
  = Some {| ttl_ns := 100 * NS_PER_SEC; start_ns := 5 * NS_PER_SEC; state := kActive;
            activationType := ACTIVATE_IMMEDIATELY |}
  ∧ mIsActive q = true.
Proof.
  cbv zeta.
  destruct (activateOnBoot_across_snapshot
              (set_mEventActivationMap
                 {[ 7 := {| ttl_ns := 100 * NS_PER_SEC; start_ns := 0;
                            state := kActiveOnBoot;
                            activationType := ACTIVATE_ON_BOOT |} ]}
                 exampleRestartedProducer)
              exampleRestartedProducer 7 (50 * NS_PER_SEC) (5 * NS_PER_SEC)
              {| ttl_ns := 100 * NS_PER_SEC; start_ns := 0; state := kActiveOnBoot;
                 activationType := ACTIVATE_ON_BOOT |}
              {| ttl_ns := 100 * NS_PER_SEC; start_ns := 0; state := kNotActive;
                 activationType := ACTIVATE_IMMEDIATELY |}
              DEVICE_SHUTDOWN) as (Hshutdown & _);
    [reflexivity | reflexivity | reflexivity | reflexivity
     | split; by vm_compute | split; by vm_compute |].
  exact (Hshutdown (or_introl eq_refl)).
Defined.

Section SnapshotFrameProofs.
Context `{Collaborators}.

Implicit Types p : CountMetricProducer.

Lemma loadActiveEventActivation_config now p msg j b :
  mEventActivationMap (loadActiveEventActivation now p msg) !! j = Some b →
  ∃ a, mEventActivationMap p !! j = Some a
       ∧ ttl_ns b = ttl_ns a ∧ activationType b = activationType a.
Proof.
  unfold loadActiveEventActivation.
  destruct (mEventActivationMap p !! atom_matcher_index msg) as [a |] eqn:Hi; [| eauto].
  repeat case_match; simpl; eauto;
    (destruct (decide (atom_matcher_index msg = j)) as [<- | Hne];
     [rewrite lookup_insert_eq; intros [= <-]; eauto
     | rewrite lookup_insert_ne by done; eauto]).
Qed.

Lemma loadActiveEventActivation_counters now p msg :
  mCurrentSlicedCounter (loadActiveEventActivation now p msg) = mCurrentSlicedCounter p
  ∧ mPastBuckets (loadActiveEventActivation now p msg) = mPastBuckets p.
Proof. unfold loadActiveEventActivation. by repeat case_match. Qed.

Lemma load_fold_frame now msgs p :
  let q := foldl (loadActiveEventActivation now) p msgs in
  (∀ j, is_Some (mEventActivationMap q !! j) ↔ is_Some (mEventActivationMap p !! j))
  ∧ (∀ j b, mEventActivationMap q !! j = Some b →
       ∃ a, mEventActivationMap p !! j = Some a
            ∧ ttl_ns b = ttl_ns a ∧ activationType b = activationType a)
  ∧ mCurrentSlicedCounter q = mCurrentSlicedCounter p
  ∧ mPastBuckets q = mPastBuckets p.
Proof.
  revert p. induction msgs as [| m msgs IH]; intros p; simpl.
  { repeat split; eauto. }
  destruct (IH (loadActiveEventActivation now p m)) as (Hdom & Hcfg & Hc & Hp).
  destruct (loadActiveEventActivation_counters now p m) as [Hc1 Hp1].
  repeat split.
  - intros Hj. by apply (loadActiveEventActivation_dom now p m), Hdom.
  - intros Hj. by apply Hdom, (loadActiveEventActivation_dom now p m).
  - intros j b Hj. destruct (Hcfg j b Hj) as (a1 & Ha1 & Ht1 & Hty1).
    destruct (loadActiveEventActivation_config now p m j a1 Ha1) as (a & Ha & Ht & Hty).
    exists a. split; [done |]. split; congruence.
  - congruence.
  - congruence.
Qed.

Lemma omap_length_le {A B} (f : A → option B) (l : list A) :
  (length (omap f l) ≤ length l)%nat.
Proof.
  induction l as [| x l IH]; [done |].
  cbn. destruct (f x); cbn; lia.
Qed.

End SnapshotFrameProofs.

(** X7: the snapshot holds live activations only: every message written
    belongs to an activation that is not NotActive; for an Active one the
    TTL has not run out at the time of writing and the message carries the
    state ACTIVE and the remaining TTL. No two messages share a matcher
    index, and there are at most as many messages as activations. *)
Theorem writeActiveMetric_only_live `{Collaborators} (p : CountMetricProducer)
    (t : Z) (reason : DumpReportReason) :
  let written := activation (writeActiveMetricToProtoOutputStream t reason p) in
  (∀ msg, msg ∈ written →
     ∃ a, mEventActivationMap p !! atom_matcher_index msg = Some a
          ∧ state a ≠ kNotActive
          ∧ (state a = kActive →
             t <= Int64.add (start_ns a) (ttl_ns a)
             ∧ remaining_ttl_nanos_field msg
               = Some (Int64.sub (Int64.add (start_ns a) (ttl_ns a)) t)
             ∧ state_field msg = Some ACTIVE))
  ∧ NoDup (atom_matcher_index <$> written)
  ∧ (length written ≤ size (mEventActivationMap p))%nat.
Proof.
  intros written. split; [| split].
  - intros msg (entry & Hin & Hw)%list_elem_of_omap.
    destruct entry as [i a]. apply elem_of_map_to_list in Hin.
    pose proof (writeActiveEventActivation_index _ _ _ _ Hw) as Hidx. simpl in Hidx.
    exists a. rewrite Hidx. split; [done |].
    unfold writeActiveEventActivation in Hw.
    destruct (state a) eqn:Hst; simpl in Hw; [done | |]; split; try done.
    + intros _.
      destruct (Z.ltb_spec (Int64.add (start_ns a) (ttl_ns a)) t); [done |].
      injection Hw as <-. simpl. split; [lia | done].
  - apply written_indices_NoDup, NoDup_fst_map_to_list.
  - unfold written. simpl.
    etrans; [apply omap_length_le |]. by rewrite length_map_to_list.
Qed.

(** X8: loading a snapshot never adds or removes an activation and never
    changes a TTL or an activation type; it leaves the activations no
    message names, the counters and the past buckets alone; it never makes
    an active metric inactive; and a metric without activations ignores the
    snapshot altogether. *)
Theorem loadActiveMetricLocked_frame `{Collaborators} (p : CountMetricProducer)
    (activeMetric : ActiveMetric) (now : Z) :
  let q := loadActiveMetricLocked activeMetric now p in
  (mEventActivationMap p = ∅ → q = p)
  ∧ (∀ j, is_Some (mEventActivationMap q !! j) ↔ is_Some (mEventActivationMap p !! j))
  ∧ (∀ j b, mEventActivationMap q !! j = Some b →
       ∃ a, mEventActivationMap p !! j = Some a
            ∧ ttl_ns b = ttl_ns a ∧ activationType b = activationType a)
  ∧ (∀ j, j ∉ atom_matcher_index <$> activation activeMetric →
       mEventActivationMap q !! j = mEventActivationMap p !! j)
  ∧ (mIsActive p = true → mIsActive q = true)
  ∧ mCurrentSlicedCounter q = mCurrentSlicedCounter p
  ∧ mPastBuckets q = mPastBuckets p.
Proof.
  intros q. unfold q, loadActiveMetricLocked.
  destruct (Z.eqb_spec (Z.of_nat (size (mEventActivationMap p))) 0) as [Hz | Hnz].
  { repeat split; eauto. }
  pose proof (load_fold_frame now (activation activeMetric) p) as (Hdom & Hcfg & Hc & Hp).
  split.
  { intros Hempty. rewrite Hempty, map_size_empty in Hnz. done. }
  split; [exact Hdom |]. split; [exact Hcfg |]. split; [| split; [| done]].
  - intros j Hj. apply load_fold_other. apply Forall_forall.
    intros msg Hmsg Heq. apply Hj. rewrite <- Heq. by apply list_elem_of_fmap_2.
  - apply load_fold_stays_active.
Qed.

(** ** Bucket rotation, continued *)

Section SettledProofs.
Context `{Collaborators}.

Implicit Types p : CountMetricProducer.

(** The bucket clock after a rotation. *)
Lemma flushIfNeededLocked_clock p t :
  bucketsInRange p →
  mTimeBaseNs p + (mCurrentBucketNum p + 1) * mBucketSizeNs p <= t →
  t <= Int64.max_signed →
  let bucketEnd := mTimeBaseNs p + (mCurrentBucketNum p + 1) * mBucketSizeNs p in
  let forward := (t - bucketEnd) / mBucketSizeNs p in
  let p' := flushIfNeededLocked t p in
  mTimeBaseNs p' = mTimeBaseNs p
  ∧ mBucketSizeNs p' = mBucketSizeNs p
  ∧ mCurrentBucketNum p' = mCurrentBucketNum p + 1 + forward
  ∧ mCurrentBucketStartTimeNs p' = bucketEnd + forward * mBucketSizeNs p.
Proof.
  intros Hwf Hge Hmax. cbv zeta.
  pose proof (flushIfNeededLocked_rotate p t Hwf Hge Hmax) as Hrot.
  cbv zeta in Hrot. rewrite Hrot. simpl.
  by rewrite flushCurrentBucketLocked_base, flushCurrentBucketLocked_size,
    flushCurrentBucketLocked_start.
Qed.

Lemma flushLocked_clock t p :
  mTimeBaseNs (flushLocked t p) = mTimeBaseNs (flushIfNeededLocked t p)
  ∧ mBucketSizeNs (flushLocked t p) = mBucketSizeNs (flushIfNeededLocked t p)
  ∧ mCurrentBucketNum (flushLocked t p) = mCurrentBucketNum (flushIfNeededLocked t p).
Proof.
  unfold flushLocked.
  by rewrite flushCurrentBucketLocked_base, flushCurrentBucketLocked_size,
    flushCurrentBucketLocked_num.
Qed.

End SettledProofs.

(** X9: after [flushIfNeededLocked t] the bucket clock is settled on [t]:
    the bucket number did not decrease, [t] lies before the end of the
    current bucket and, when it was not before the numbered bucket to begin
    with, inside it; a rotation starts the new bucket at its aligned start;
    and a second call at the same [t] changes nothing. *)
Theorem flushIfNeededLocked_settles `{Collaborators} (p : CountMetricProducer) (t : Z)
    (Hwf : bucketsInRange p) (Ht : Int64.in_range t)
    (Hroom : mTimeBaseNs p + (mCurrentBucketNum p + 1) * mBucketSizeNs p <= t →
             t + mBucketSizeNs p <= Int64.max_signed) :
  let p' := flushIfNeededLocked t p in
  let base := mTimeBaseNs p in
  let size := mBucketSizeNs p in
  bucketsInRange p'
  ∧ mCurrentBucketNum p <= mCurrentBucketNum p'
  ∧ t < base + (mCurrentBucketNum p' + 1) * size
  ∧ (base + mCurrentBucketNum p * size <= t → base + mCurrentBucketNum p' * size <= t)
  ∧ (base + (mCurrentBucketNum p + 1) * size <= t →
     mCurrentBucketStartTimeNs p' = base + mCurrentBucketNum p' * size
     ∧ mCurrentSlicedCounter p' = ∅)
  ∧ flushIfNeededLocked t p' = p'.
Proof.
  intros p' base size.
  pose proof (getCurrentBucketEndTimeNs_exact p Hwf) as Hend.
  pose proof (flushIfNeededLocked_end_after p t Hwf Ht Hroom) as Hafter.
  fold p' in Hafter.
  destruct (Z_lt_ge_dec t (base + (mCurrentBucketNum p + 1) * size)) as [Hlt | Hge].
  - assert (Hsame : p' = p) by (apply flushIfNeededLocked_noop; rewrite Hend; done).
    rewrite Hsame.
    repeat split; try done; try lia; try apply Hwf;
      try (apply flushIfNeededLocked_noop; rewrite Hend; done).
  - destruct Ht as [_ Hmax].
    pose proof (flushIfNeededLocked_clock p t Hwf ltac:(fold base size; lia) Hmax)
      as (Hb & Hs & Hn & Hst).
    cbv zeta in Hn, Hst. fold p' base size in Hb, Hs, Hn, Hst.
    set (forward := (t - (base + (mCurrentBucketNum p + 1) * size)) / size) in *.
    destruct Hwf as (Hsize & Hbase & Hnum & Hfit). fold base size in Hsize, Hbase, Hfit.
    specialize (Hroom ltac:(fold base size; lia)). fold size in Hroom.
    pose proof (Z.div_mod (t - (base + (mCurrentBucketNum p + 1) * size)) size
                  ltac:(lia)) as Hdm.
    pose proof (Z.mod_pos_bound (t - (base + (mCurrentBucketNum p + 1) * size)) size Hsize)
      as Hmod.
    fold forward in Hdm.
    assert (Hfwd : 0 <= forward) by (apply Z.div_pos; lia).
    assert (Hwf' : bucketsInRange p').
    { unfold bucketsInRange. rewrite Hb, Hs, Hn. fold base size.
      repeat split; [lia | lia | lia | nia]. }
    split; [exact Hwf' |]. split; [lia |]. split; [rewrite Hn; nia |].
    split; [intros _; rewrite Hn; nia |]. split.
    + intros _. split; [rewrite Hst, Hn; lia |].
      unfold p', flushIfNeededLocked. rewrite Hend. fold base size.
      destruct (Z.ltb_spec t (base + (mCurrentBucketNum p + 1) * size)); [lia |].
      simpl. apply flushCurrentBucketLocked_counter.
    + by apply flushIfNeededLocked_noop.
Qed.

Lemma flushIfNeededLocked_settles_witness :
  bucketsInRange exampleProducer
  ∧ Int64.in_range (200 * NS_PER_SEC)
  ∧ mCurrentBucketNum (flushIfNeededLocked (200 * NS_PER_SEC) exampleProducer) = 3
  ∧ flushIfNeededLocked (200 * NS_PER_SEC)
      (flushIfNeededLocked (200 * NS_PER_SEC) exampleProducer)
    = flushIfNeededLocked (200 * NS_PER_SEC) exampleProducer.
Proof.
  assert (Hwf : bucketsInRange exampleProducer) by (repeat split; by vm_compute).
  assert (Ht : Int64.in_range (200 * NS_PER_SEC)) by (split; by vm_compute).
  split; [exact Hwf |]. split; [exact Ht |]. split; [by vm_compute |].
  refine (proj2 (proj2 (proj2 (proj2 (proj2
            (flushIfNeededLocked_settles exampleProducer (200 * NS_PER_SEC) Hwf Ht _)))))).
  intros _. by vm_compute.
Defined.

(** X10: no input makes the bucket number go down: a matched event leaves
    it or moves it forward, every other input (a condition change, an
    activation trigger, a deactivation trigger) leaves it as it is. *)
Theorem deliver_bucket_number_monotone `{Collaborators} (p : CountMetricProducer)
    (input : Input)
    (Hwf : bucketsInRange p)
    (Hts : match input with
           | MatchedLogEvent _ event => Int64.in_range (GetElapsedTimestampNs event)
           | _ => True
           end) :
  mCurrentBucketNum p <= mCurrentBucketNum (deliver p input)
  ∧ ((∀ i event, input ≠ MatchedLogEvent i event) →
     mCurrentBucketNum (deliver p input) = mCurrentBucketNum p).
Proof.
  pose proof (deliver_other_frame input p) as Hother.
  destruct input as [i event | met time | index time | index].
  2-4: destruct Hother as (_ & _ & _ & Hsame & _); rewrite Hsame; split; [lia | done].
  split; [| intros Hnot; by destruct (Hnot i event)].
  simpl. unfold onMatchedLogEventLocked.
  repeat (case_match; [lia |]).
  pose proof (onMatchedLogEventInternalLocked_update i (metricKey event)
                (eventCondition event p) event p) as (_ & _ & _ & Hn & _).
  cbv zeta in Hn. rewrite Hn.
  pose proof (getCurrentBucketEndTimeNs_exact p Hwf) as Hend.
  destruct (Z_lt_ge_dec (GetElapsedTimestampNs event)
              (mTimeBaseNs p + (mCurrentBucketNum p + 1) * mBucketSizeNs p)) as [Hlt | Hge].
  - rewrite flushIfNeededLocked_noop by (rewrite Hend; done). lia.
  - destruct Hts as [_ Hmax].
    pose proof (flushIfNeededLocked_clock p (GetElapsedTimestampNs event) Hwf
                  ltac:(lia) Hmax) as (_ & _ & -> & _).
    destruct Hwf as (Hsize & _).
    assert (0 <= (GetElapsedTimestampNs event
                  - (mTimeBaseNs p + (mCurrentBucketNum p + 1) * mBucketSizeNs p))
                 / mBucketSizeNs p) by (apply Z.div_pos; lia).
    lia.
Qed.

Lemma deliver_bucket_number_monotone_witness :
  bucketsInRange exampleProducer
  ∧ mCurrentBucketNum exampleProducer
    <= mCurrentBucketNum (deliver exampleProducer (MatchedLogEvent 0 (exampleEvent 130 5)))
  ∧ mCurrentBucketNum (deliver exampleProducer (ConditionChanged false (130 * NS_PER_SEC)))
    = mCurrentBucketNum exampleProducer.
Proof.
  assert (Hwf : bucketsInRange exampleProducer) by (repeat split; by vm_compute).
  split; [exact Hwf |]. split.
  - apply (deliver_bucket_number_monotone exampleProducer
             (MatchedLogEvent 0 (exampleEvent 130 5)) Hwf).
    split; by vm_compute.
  - apply (deliver_bucket_number_monotone exampleProducer
             (ConditionChanged false (130 * NS_PER_SEC)) Hwf I).
    intros i event. discriminate.
Defined.

(** X11: a bucket closed by a rotation is reported under the number the
    producer had for it when the bucket started at its aligned start, and
    with explicit start and end milliseconds when it started later (a
    partial bucket). *)
Theorem closed_bucket_report `{Collaborators} (p : CountMetricProducer)
    (ts conditionTrueNs c : Z)
    (Hwf : bucketsInRange p) (Hts : Int64.in_range ts)
    (Hge : mTimeBaseNs p + (mCurrentBucketNum p + 1) * mBucketSizeNs p <= ts)
    (Hstart : mTimeBaseNs p + mCurrentBucketNum p * mBucketSizeNs p
              <= mCurrentBucketStartTimeNs p
              < mTimeBaseNs p + (mCurrentBucketNum p + 1) * mBucketSizeNs p) :
  let bucketEnd := mTimeBaseNs p + (mCurrentBucketNum p + 1) * mBucketSizeNs p in
  let info := writeCountBucketInfo (flushIfNeededLocked ts p)
                (closedBucketInfo p ts conditionTrueNs c) in
  count info = c
  ∧ (mCurrentBucketStartTimeNs p
     = mTimeBaseNs p + mCurrentBucketNum p * mBucketSizeNs p →
     bucket_num info = Some (mCurrentBucketNum p)
     ∧ start_bucket_elapsed_millis info = None
     ∧ end_bucket_elapsed_millis info = None)
  ∧ (mCurrentBucketStartTimeNs p
     ≠ mTimeBaseNs p + mCurrentBucketNum p * mBucketSizeNs p →
     bucket_num info = None
     ∧ start_bucket_elapsed_millis info
       = Some (NanoToMillis (mCurrentBucketStartTimeNs p))
     ∧ end_bucket_elapsed_millis info = Some (NanoToMillis bucketEnd)).
Proof.
  intros bucketEnd info.
  pose proof (getCurrentBucketEndTimeNs_exact p Hwf) as Hend. fold bucketEnd in Hend.
  destruct Hts as [_ Hmax].
  pose proof (flushIfNeededLocked_clock p ts Hwf Hge Hmax) as (Hb & Hs & _).
  destruct Hwf as (Hsize & Hbase & Hnum & Hfit). fold bucketEnd in Hfit, Hge, Hstart.
  unfold Int64.max_signed in *.
  assert (Hclosed_end : mBucketEndNs (closedBucketInfo p ts conditionTrueNs c) = bucketEnd).
  { unfold closedBucketInfo. simpl. rewrite Hend.
    by destruct (Z.ltb_spec ts bucketEnd); [lia |]. }
  assert (Hclosed_start : mBucketStartNs (closedBucketInfo p ts conditionTrueNs c)
                          = mCurrentBucketStartTimeNs p) by done.
  assert (Hlen : Int64.in_range (mBucketEndNs (closedBucketInfo p ts conditionTrueNs c)
                                 - mBucketStartNs (closedBucketInfo p ts conditionTrueNs c))).
  { rewrite Hclosed_end, Hclosed_start. apply Int64_in_range_bounds. nia. }
  split; [done |]. split.
  - intros Haligned.
    destruct (writeCountBucketInfo_full (flushIfNeededLocked ts p)
                (closedBucketInfo p ts conditionTrueNs c) Hlen) as (Hs1 & He1 & Hn1).
    { rewrite Hclosed_end, Hclosed_start, Hs, Haligned. unfold bucketEnd. lia. }
    unfold info. rewrite Hs1, He1, Hn1. split; [| done]. f_equal.
    unfold getBucketNumFromEndTimeNs. rewrite Hclosed_end, Hb, Hs.
    rewrite (Int64_sub_exact bucketEnd) by (apply Int64_in_range_bounds; lia).
    replace (bucketEnd - mTimeBaseNs p) with ((mCurrentBucketNum p + 1) * mBucketSizeNs p)
      by (unfold bucketEnd; lia).
    assert (Hquot : (mCurrentBucketNum p + 1) * mBucketSizeNs p ÷ mBucketSizeNs p
                    = mCurrentBucketNum p + 1) by (apply Z.quot_mul; lia).
    rewrite Int64_div_exact by (rewrite Hquot; apply Int64_in_range_bounds; nia).
    rewrite Hquot, Int64_sub_exact by (apply Int64_in_range_bounds; nia). lia.
  - intros Hpartial.
    destruct (writeCountBucketInfo_partial (flushIfNeededLocked ts p)
                (closedBucketInfo p ts conditionTrueNs c) Hlen) as (Hs1 & He1 & Hn1).
    { rewrite Hclosed_end, Hclosed_start, Hs. unfold bucketEnd. lia. }
    unfold info. rewrite Hs1, He1, Hn1, Hclosed_end. done.
Qed.

Lemma closed_bucket_report_witness :
  bucketsInRange exampleProducer
  ∧ bucket_num (writeCountBucketInfo (flushIfNeededLocked (70 * NS_PER_SEC) exampleProducer)
                  (closedBucketInfo exampleProducer (70 * NS_PER_SEC) 0 2))
    = Some 0.
Proof.
  assert (Hwf : bucketsInRange exampleProducer) by (repeat split; by vm_compute).
  split; [exact Hwf |].
  refine (proj1 (proj1 (proj2 (closed_bucket_report exampleProducer (70 * NS_PER_SEC) 0 2
                                 Hwf _ _ _)) _));
    try (split; by vm_compute); by vm_compute.
Defined.

(** ** Telemetry and anomaly-tracker calls *)

Section EffectProofs.
Context `{Collaborators}.

Implicit Types p : CountMetricProducer.

(** What [hitGuardRailLocked] records and what it leaves alone. *)
Lemma hitGuardRailLocked_effects k p :
  let n := Z.of_nat (size (mCurrentSlicedCounter p)) in
  statsdStats (hitGuardRailLocked k p).1
  = statsdStats p
    ++ (if bool_decide (is_Some (mCurrentSlicedCounter p !! k)) then []
        else if kDimensionKeySizeSoftLimit <=? n then
          noteMetricDimensionSize (mConfigKey p) (mMetricId p) (n + 1)
          :: (if mDimensionHardLimit p <? n + 1
              then [noteHardDimensionLimitReached (mMetricId p)] else [])
        else [])
  ∧ anomalyCalls (hitGuardRailLocked k p).1 = anomalyCalls p
  ∧ mAnomalyTrackers (hitGuardRailLocked k p).1 = mAnomalyTrackers p
  ∧ mCurrentFullCounters (hitGuardRailLocked k p).1 = mCurrentFullCounters p
  ∧ mMetricId (hitGuardRailLocked k p).1 = mMetricId p
  ∧ ((hitGuardRailLocked k p).2 = true → mHasHitGuardrail (hitGuardRailLocked k p).1 = true).
Proof.
  cbv zeta. unfold hitGuardRailLocked, StatsdStats_note.
  destruct (bool_decide (is_Some (mCurrentSlicedCounter p !! k)));
    [simpl; by rewrite app_nil_r |].
  destruct (kDimensionKeySizeSoftLimit <=? Z.of_nat (size (mCurrentSlicedCounter p)));
    [| simpl; by rewrite app_nil_r].
  simpl.
  destruct (mDimensionHardLimit p <? Z.of_nat (size (mCurrentSlicedCounter p)) + 1);
    [| done].
  destruct (mHasHitGuardrail p) eqn:Hflag; simpl; by rewrite ?Hflag, <- app_assoc.
Qed.

Lemma notifyAnomalyTrackers_effects ts k p :
  statsdStats (notifyAnomalyTrackers ts k p) = statsdStats p
  ∧ mCurrentSlicedCounter (notifyAnomalyTrackers ts k p) = mCurrentSlicedCounter p
  ∧ anomalyCalls (notifyAnomalyTrackers ts k p)
    = anomalyCalls p
      ++ ((λ tracker,
             detectAndDeclareAnomaly tracker ts (mCurrentBucketNum p) (mMetricId p) k
               (match mCurrentFullCounters p !! k with
                | Some prev => Int64.add (counterAt k p) prev
                | None => counterAt k p
                end)) <$> mAnomalyTrackers p).
Proof. done. Qed.

(** The accumulation loop, whatever the iteration order. *)
Lemma accumulateFullCounters_lookup (sliced full : gmap MetricDimensionKey Z)
    (k : MetricDimensionKey) :
  accumulateFullCounters sliced full !! k
  = match sliced !! k with
    | Some v => Some (Int64.add (default 0 (full !! k)) v)
    | None => full !! k
    end.
Proof.
  unfold accumulateFullCounters.
  apply (map_fold_weak_ind
    (λ (r : gmap MetricDimensionKey Z) (m : gmap MetricDimensionKey Z),
       r !! k = match m !! k with
                | Some v => Some (Int64.add (default 0 (full !! k)) v)
                | None => full !! k
                end)).
  - by rewrite lookup_empty.
  - intros k' v m r Hfresh IH.
    destruct (decide (k' = k)) as [-> | Hne].
    + rewrite !lookup_insert_eq. rewrite Hfresh in IH. by rewrite IH.
    + by rewrite !lookup_insert_ne.
Qed.

Lemma flushCurrentBucketLocked_anomaly ts next p :
  let merged := accumulateFullCounters (mCurrentSlicedCounter p) (mCurrentFullCounters p) in
  (mAnomalyTrackers p = [] →
   anomalyCalls (flushCurrentBucketLocked ts next p) = anomalyCalls p
   ∧ mCurrentFullCounters (flushCurrentBucketLocked ts next p) = mCurrentFullCounters p)
  ∧ (mAnomalyTrackers p ≠ [] → ts <= getCurrentBucketEndTimeNs p →
     anomalyCalls (flushCurrentBucketLocked ts next p) = anomalyCalls p
     ∧ mCurrentFullCounters (flushCurrentBucketLocked ts next p) = merged)
  ∧ (mAnomalyTrackers p ≠ [] → getCurrentBucketEndTimeNs p < ts →
     mCurrentFullCounters (flushCurrentBucketLocked ts next p) = ∅
     ∧ anomalyCalls (flushCurrentBucketLocked ts next p)
       = anomalyCalls p
         ++ ((λ tracker,
                addPastBucket tracker
                  (if decide (mCurrentFullCounters p = ∅) then mCurrentSlicedCounter p
                   else merged)
                  (mCurrentBucketNum p)) <$> mAnomalyTrackers p)).
Proof.
  cbv zeta. unfold flushCurrentBucketLocked.
  destruct (ConditionTimer_newBucketStart _ _ _) as [timer [trueNs correction]].
  split; [| split].
  - intros ->. simpl. by rewrite app_nil_r.
  - intros Htrackers Hle.
    destruct (mAnomalyTrackers p) as [| tracker trackers] eqn:Htr; [done |].
    cbn [length]. destruct (Z.ltb_spec 0 (Z.of_nat (S (length trackers)))); [| lia].
    destruct (Z.ltb_spec (getCurrentBucketEndTimeNs p) ts); [lia |].
    simpl. by rewrite app_nil_r.
  - intros Htrackers Hlt.
    destruct (mAnomalyTrackers p) as [| tracker trackers] eqn:Htr; [done |].
    cbn [length]. destruct (Z.ltb_spec 0 (Z.of_nat (S (length trackers)))); [| lia].
    destruct (Z.ltb_spec (getCurrentBucketEndTimeNs p) ts); [| lia].
    destruct (Z.ltb_spec 0 (Z.of_nat (size (mCurrentFullCounters p)))) as [Hsome | Hnone].
    + destruct (decide (mCurrentFullCounters p = ∅)) as [Hempty | _].
      { rewrite Hempty, map_size_empty in Hsome. simpl in Hsome. lia. }
      done.
    + assert (Hempty : mCurrentFullCounters p = ∅) by (apply map_size_empty_inv; lia).
      destruct (decide (mCurrentFullCounters p = ∅)); [| done].
      simpl. by rewrite Hempty.
Qed.

End EffectProofs.

(** X12: what an event within the current bucket records. An event that
    fails one of the checks before the count update leaves the producer as
    it is. An event the dimension guardrail drops records the attempted
    number of keys and the hard-limit hit with [StatsdStats], raises
    [mHasHitGuardrail] and reaches no anomaly tracker. A counted event is
    shown to every anomaly tracker once, with the count its key has after
    the event plus the count carried over from the earlier parts of the
    bucket; it records the number of keys only when it brings a new key at
    or above the soft limit. *)
Theorem matched_event_effects `{Collaborators} (p : CountMetricProducer) (i : Z)
    (event : LogEvent)
    (Hin : GetElapsedTimestampNs event < getCurrentBucketEndTimeNs p) :
  let k := metricKey event in
  let p' := onMatchedLogEventLocked i event p in
  let n := Z.of_nat (size (mCurrentSlicedCounter p)) in
  let sizeNote := noteMetricDimensionSize (mConfigKey p) (mMetricId p) (n + 1) in
  (reachesCountUpdate p event = false → p' = p)
  ∧ (reachesCountUpdate p event = true → droppedByGuardrail p k = true →
     statsdStats p' = statsdStats p ++ [sizeNote; noteHardDimensionLimitReached (mMetricId p)]
     ∧ anomalyCalls p' = anomalyCalls p
     ∧ mHasHitGuardrail p' = true)
  ∧ (eventIsCounted p event = true →
     statsdStats p'
     = statsdStats p
       ++ (if bool_decide (mCurrentSlicedCounter p !! k = None)
              && (kDimensionKeySizeSoftLimit <=? n)
           then [sizeNote] else [])
     ∧ anomalyCalls p'
       = anomalyCalls p
         ++ ((λ tracker,
                detectAndDeclareAnomaly tracker (GetElapsedTimestampNs event)
                  (mCurrentBucketNum p) (mMetricId p) k
                  (match mCurrentFullCounters p !! k with
                   | Some prev => Int64.add (counterAt k p') prev
                   | None => counterAt k p'
                   end)) <$> mAnomalyTrackers p)).
Proof.
  intros k p' n sizeNote.
  assert (Hinternal : ∀ c, onMatchedLogEventInternalLocked i k c event p
            = if negb c then p
              else match mCurrentSlicedCounter p !! k with
                   | None =>
                     let '(p1, hit) := hitGuardRailLocked k p in
                     if hit then p1
                     else notifyAnomalyTrackers (GetElapsedTimestampNs event) k
                            (set_mCurrentSlicedCounter
                               (<[k := 1]> (mCurrentSlicedCounter p1)) p1)
                   | Some c =>
                     notifyAnomalyTrackers (GetElapsedTimestampNs event) k
                       (set_mCurrentSlicedCounter
                          (<[k := Int64.add c 1]> (mCurrentSlicedCounter p)) p)
                   end).
  { intros c. unfold onMatchedLogEventInternalLocked.
    by rewrite (flushIfNeededLocked_noop _ _ Hin). }
  assert (Hreach : reachesCountUpdate p event = true →
            p' = onMatchedLogEventInternalLocked i k true event p).
  { unfold reachesCountUpdate, p', onMatchedLogEventLocked.
    intros Hr. apply andb_prop in Hr as [Hr Hcond]. apply andb_prop in Hr as [Hr Hsample].
    apply andb_prop in Hr as [Hactive Hnew]. apply Z.leb_le in Hnew.
    rewrite Hactive, Hsample, Hcond. simpl.
    by destruct (Z.ltb_spec (GetElapsedTimestampNs event) (mTimeBaseNs p)); [lia |]. }
  pose proof (hitGuardRailLocked_effects k p) as (Hstats & Hcalls & Htr & Hfull & Hid & Hflag).
  pose proof (hitGuardRailLocked_frame k p) as (Hcounter & _ & _ & Hnum & _).
  pose proof (hitGuardRailLocked_result k p) as Hres.
  cbv zeta in Hstats. fold n in Hstats.
  split; [| split].
  - unfold reachesCountUpdate, p', onMatchedLogEventLocked. intros Hr.
    destruct (mIsActive p); [| done]. simpl in *.
    destruct (Z.ltb_spec (GetElapsedTimestampNs event) (mTimeBaseNs p)); [done |].
    destruct (Z.leb_spec (mTimeBaseNs p) (GetElapsedTimestampNs event)); [| lia].
    simpl in Hr.
    destruct (passesSampleCheckLocked event p); [| done]. simpl in *.
    rewrite Hr. fold k. by rewrite Hinternal.
  - intros Hr Hdrop. rewrite (Hreach Hr), Hinternal. simpl.
    unfold droppedByGuardrail in Hdrop.
    destruct (proj1 Hres Hdrop) as (Hnone & Hsoft & Hhard). rewrite Hnone.
    destruct (hitGuardRailLocked k p) as [p1 hit]. simpl in *. subst hit.
    rewrite Hstats, Hcalls.
    rewrite bool_decide_eq_false_2 by (rewrite Hnone; by intros [? ?]).
    destruct (Z.leb_spec kDimensionKeySizeSoftLimit n); [| unfold n in *; lia].
    destruct (Z.ltb_spec (mDimensionHardLimit p) (n + 1)); [| unfold n in *; lia].
    by rewrite (Hflag eq_refl).
  - intros Hcounted. unfold eventIsCounted in Hcounted.
    apply andb_prop in Hcounted as [Hr Hkeep]. apply negb_true_iff in Hkeep.
    unfold droppedByGuardrail in Hkeep. fold k in Hkeep.
    rewrite (Hreach Hr), Hinternal. simpl. unfold counterAt.
    destruct (mCurrentSlicedCounter p !! k) as [c |] eqn:Hk.
    + rewrite bool_decide_eq_false_2 by done. simpl.
      rewrite lookup_insert_eq, app_nil_r. done.
    + rewrite bool_decide_eq_true_2 by done.
      rewrite bool_decide_eq_false_2 in Hstats by (by intros [? ?]).
      destruct (hitGuardRailLocked k p) as [p1 hit]. simpl in *. subst hit.
      destruct (notifyAnomalyTrackers_effects (GetElapsedTimestampNs event) k
                  (set_mCurrentSlicedCounter (<[k := 1]> (mCurrentSlicedCounter p1)) p1))
        as (-> & -> & ->).
      unfold counterAt. simpl.
      rewrite lookup_insert_eq, Hstats, Hcalls, Htr, Hfull, Hid, Hnum. simpl.
      destruct (Z.leb_spec kDimensionKeySizeSoftLimit n); simpl; [| done].
      destruct (Z.ltb_spec (mDimensionHardLimit p) (n + 1)) as [Hover |]; [| done].
      exfalso. assert ((p1, false).2 = true); [| done].
      apply Hres. unfold n in *. done.
Qed.

Lemma matched_event_effects_witness :
  anomalyCalls (onMatchedLogEventLocked 0 (exampleEvent 10 5) exampleTrackedProducer)
  = [detectAndDeclareAnomaly 1 (10 * NS_PER_SEC) 0 1 5 4;
     detectAndDeclareAnomaly 2 (10 * NS_PER_SEC) 0 1 5 4].
Proof.
  refine (eq_trans
            (proj2 (proj2 (proj2 (matched_event_effects exampleTrackedProducer 0
                                    (exampleEvent 10 5) _)) _)) _);
    by vm_compute.
Defined.

(** X13: what a rotation tells the anomaly trackers. Without trackers
    nothing is recorded or accumulated. With trackers, a rotation strictly
    after the end of the bucket hands every tracker the closed bucket once,
    under the number the bucket had: the current counters when nothing was
    carried over, otherwise the carried counts plus the current counters;
    and the carried counts are emptied. A rotation at exactly the end of
    the bucket hands the trackers nothing: the counters are added to the
    carried counts instead. *)
Theorem rotation_anomaly_handoff `{Collaborators} (p : CountMetricProducer) (ts : Z)
    (Hwf : bucketsInRange p) (Hts : Int64.in_range ts)
    (Hge : mTimeBaseNs p + (mCurrentBucketNum p + 1) * mBucketSizeNs p <= ts) :
  let bucketEnd := mTimeBaseNs p + (mCurrentBucketNum p + 1) * mBucketSizeNs p in
  let p' := flushIfNeededLocked ts p in
  let merged k :=
    match mCurrentSlicedCounter p !! k with
    | Some v => Some (Int64.add (default 0 (mCurrentFullCounters p !! k)) v)
    | None => mCurrentFullCounters p !! k
    end in
  (mAnomalyTrackers p = [] →
   anomalyCalls p' = anomalyCalls p ∧ mCurrentFullCounters p' = mCurrentFullCounters p)
  ∧ (mAnomalyTrackers p ≠ [] → ts = bucketEnd →
     anomalyCalls p' = anomalyCalls p ∧ ∀ k, mCurrentFullCounters p' !! k = merged k)
  ∧ (mAnomalyTrackers p ≠ [] → bucketEnd < ts →
     mCurrentFullCounters p' = ∅
     ∧ ∃ handed : gmap MetricDimensionKey Z,
         anomalyCalls p'
         = anomalyCalls p
           ++ ((λ tracker, addPastBucket tracker handed (mCurrentBucketNum p))
                 <$> mAnomalyTrackers p)
         ∧ ∀ k, handed !! k
                = if decide (mCurrentFullCounters p = ∅) then mCurrentSlicedCounter p !! k
                  else merged k).
Proof.
  intros bucketEnd p' merged.
  pose proof (getCurrentBucketEndTimeNs_exact p Hwf) as Hend. fold bucketEnd in Hend.
  destruct Hts as [_ Hmax].
  pose proof (flushIfNeededLocked_rotate p ts Hwf Hge Hmax) as Hrot.
  cbv zeta in Hrot. fold bucketEnd p' in Hrot.
  set (next := bucketEnd + (ts - bucketEnd) / mBucketSizeNs p * mBucketSizeNs p) in *.
  assert (Hcalls : anomalyCalls p' = anomalyCalls (flushCurrentBucketLocked ts next p))
    by (by rewrite Hrot).
  assert (Hfull : mCurrentFullCounters p'
                  = mCurrentFullCounters (flushCurrentBucketLocked ts next p))
    by (by rewrite Hrot).
  rewrite Hcalls, Hfull.
  pose proof (flushCurrentBucketLocked_anomaly ts next p) as (Hnone & Hat & Hafter).
  cbv zeta in Hat, Hafter. rewrite Hend in Hat, Hafter.
  split; [exact Hnone |]. split.
  - intros Htr Heq. destruct (Hat Htr ltac:(lia)) as [-> ->].
    split; [done |]. intros k. apply accumulateFullCounters_lookup.
  - intros Htr Hlt. destruct (Hafter Htr Hlt) as [-> ->].
    split; [done |]. eexists. split; [done |]. intros k.
    destruct (decide (mCurrentFullCounters p = ∅)); [done |].
    apply accumulateFullCounters_lookup.
Qed.

Lemma rotation_anomaly_handoff_witness :
  bucketsInRange exampleTrackedProducer
  ∧ anomalyCalls (flushIfNeededLocked (60 * NS_PER_SEC) exampleTrackedProducer) = []
  ∧ mCurrentFullCounters (flushIfNeededLocked (60 * NS_PER_SEC) exampleTrackedProducer) !! 5
    = Some 3.
Proof.
  assert (Hwf : bucketsInRange exampleTrackedProducer) by (repeat split; by vm_compute).
  split; [exact Hwf |].
  destruct (proj1 (proj2 (rotation_anomaly_handoff exampleTrackedProducer (60 * NS_PER_SEC)
                            Hwf ltac:(split; by vm_compute) ltac:(by vm_compute)))
              ltac:(done) ltac:(by vm_compute)) as [Hcalls Hfull].
  split; [exact Hcalls |]. exact (Hfull 5).
Defined.

(** ** Reports, continued *)

Section DumpProofs.
Context `{Collaborators}.

Implicit Types p : CountMetricProducer.

Lemma flushIfNeededLocked_twice p t :
  bucketsInRange p →
  Int64.in_range t →
  (mTimeBaseNs p + (mCurrentBucketNum p + 1) * mBucketSizeNs p <= t →
   t + mBucketSizeNs p <= Int64.max_signed) →
  flushIfNeededLocked t (flushIfNeededLocked t p) = flushIfNeededLocked t p.
Proof.
  intros Hwf Ht Hroom. apply flushIfNeededLocked_noop.
  by apply flushIfNeededLocked_end_after.
Qed.

(** The past buckets of a key after a rotation. *)
Lemma flushIfNeededLocked_past p ts k :
  bucketsInRange p →
  Int64.in_range ts →
  mTimeBaseNs p + (mCurrentBucketNum p + 1) * mBucketSizeNs p <= ts →
  ∃ trueNs,
    mPastBuckets (flushIfNeededLocked ts p) !! k
    = match mCurrentSlicedCounter p !! k with
      | Some c =>
        if countPassesThreshold p c
        then Some (default [] (mPastBuckets p !! k) ++ [closedBucketInfo p ts trueNs c])
        else mPastBuckets p !! k
      | None => mPastBuckets p !! k
      end.
Proof.
  intros Hwf [_ Hmax] Hge.
  pose proof (flushIfNeededLocked_rotate p ts Hwf Hge Hmax) as Hrot.
  cbv zeta in Hrot. rewrite Hrot. simpl.
  rewrite flushCurrentBucketLocked_past. eexists. apply appendPastBuckets_lookup.
Qed.

(** The entries of a report that does not include the current bucket: one
    for every key with past buckets. *)
Lemma onDumpReportLocked_entry t erase lat p (d : CountMetricData) :
  d ∈ count_metrics (onDumpReportLocked t false erase lat p).2
  ↔ ∃ k bs, mPastBuckets (flushIfNeededLocked t p) !! k = Some bs
            ∧ d = writeCountMetricData (flushIfNeededLocked t p) (k, bs).
Proof.
  rewrite onDumpReportLocked_entries. simpl. rewrite list_elem_of_fmap. split.
  - intros ([k bs] & -> & Hin%elem_of_map_to_list). eauto.
  - intros (k & bs & Hk & ->). exists (k, bs). split; [done |].
    by apply elem_of_map_to_list.
Qed.

(** The state a report that does not include the current bucket leaves. *)
Lemma onDumpReportLocked_state t erase lat p :
  let q := flushIfNeededLocked t p in
  (onDumpReportLocked t false erase lat p).1
  = if erase && negb (bool_decide (mPastBuckets q = ∅))
    then set_mDimensionGuardrailHit false (set_mPastBuckets ∅ q) else q.
Proof.
  cbv zeta. unfold onDumpReportLocked, flushedForDump.
  case_bool_decide; destruct erase; done.
Qed.

Lemma onDumpReportLocked_report_ext t erase erase' lat lat' p :
  (onDumpReportLocked t false erase lat p).2 = (onDumpReportLocked t false erase' lat' p).2.
Proof.
  unfold onDumpReportLocked, flushedForDump.
  case_bool_decide; destruct erase, erase'; done.
Qed.

Lemma onDumpReportLocked_settled t lat lat' p :
  flushIfNeededLocked t p = p →
  onDumpReportLocked t false false lat p
  = (p, (onDumpReportLocked t false false lat' p).2).
Proof.
  intros Hsettled. unfold onDumpReportLocked, flushedForDump. rewrite Hsettled.
  by case_bool_decide.
Qed.

Lemma onDumpReportLocked_report_flushed t erase erase' lat lat' p :
  flushIfNeededLocked t (flushIfNeededLocked t p) = flushIfNeededLocked t p →
  (onDumpReportLocked t false erase lat (flushIfNeededLocked t p)).2
  = (onDumpReportLocked t false erase' lat' p).2.
Proof.
  intros Htwice. unfold onDumpReportLocked, flushedForDump. rewrite Htwice.
  case_bool_decide; destruct erase, erase'; done.
Qed.

(** What the writer makes of the bucket a rotation closed. *)
Lemma writeCountBucketInfo_closed p ts trueNs c :
  bucketsInRange p →
  Int64.in_range ts →
  mTimeBaseNs p + (mCurrentBucketNum p + 1) * mBucketSizeNs p <= ts →
  Int64.in_range (mTimeBaseNs p + (mCurrentBucketNum p + 1) * mBucketSizeNs p
                  - mCurrentBucketStartTimeNs p) →
  let bucketEnd := mTimeBaseNs p + (mCurrentBucketNum p + 1) * mBucketSizeNs p in
  let info := writeCountBucketInfo (flushIfNeededLocked ts p)
                (closedBucketInfo p ts trueNs c) in
  count info = c
  ∧ (bucketEnd - mCurrentBucketStartTimeNs p ≠ mBucketSizeNs p →
     start_bucket_elapsed_millis info = Some (NanoToMillis (mCurrentBucketStartTimeNs p))
     ∧ end_bucket_elapsed_millis info = Some (NanoToMillis bucketEnd)
     ∧ bucket_num info = None)
  ∧ (bucketEnd - mCurrentBucketStartTimeNs p = mBucketSizeNs p →
     start_bucket_elapsed_millis info = None
     ∧ end_bucket_elapsed_millis info = None
     ∧ bucket_num info = Some (mCurrentBucketNum p)).
Proof.
  intros Hwf Hts Hge Hlen bucketEnd info. fold bucketEnd in Hge, Hlen.
  pose proof (getCurrentBucketEndTimeNs_exact p Hwf) as Hend. fold bucketEnd in Hend.
  assert (Hmax : ts <= Int64.max_signed) by apply Hts.
  pose proof (flushIfNeededLocked_rotate p ts Hwf Hge Hmax) as Hrot.
  cbv zeta in Hrot.
  assert (Hbase : mTimeBaseNs (flushIfNeededLocked ts p) = mTimeBaseNs p)
    by (rewrite Hrot; simpl; apply flushCurrentBucketLocked_base).
  assert (Hsize : mBucketSizeNs (flushIfNeededLocked ts p) = mBucketSizeNs p)
    by (rewrite Hrot; simpl; apply flushCurrentBucketLocked_size).
  assert (Hclosed_end : mBucketEndNs (closedBucketInfo p ts trueNs c) = bucketEnd).
  { unfold closedBucketInfo. simpl. rewrite Hend.
    by destruct (Z.ltb_spec ts bucketEnd); [lia |]. }
  assert (Hclosed_start : mBucketStartNs (closedBucketInfo p ts trueNs c)
                          = mCurrentBucketStartTimeNs p) by done.
  assert (Hlen' : Int64.in_range (mBucketEndNs (closedBucketInfo p ts trueNs c)
                                  - mBucketStartNs (closedBucketInfo p ts trueNs c)))
    by (by rewrite Hclosed_end, Hclosed_start).
  split; [done |]. split.
  - intros Hpartial.
    destruct (writeCountBucketInfo_partial (flushIfNeededLocked ts p)
                (closedBucketInfo p ts trueNs c) Hlen') as (Hs1 & He1 & Hn1).
    { by rewrite Hclosed_end, Hclosed_start, Hsize. }
    unfold info. by rewrite Hs1, He1, Hn1, Hclosed_end.
  - intros Hfull.
    destruct (writeCountBucketInfo_full (flushIfNeededLocked ts p)
                (closedBucketInfo p ts trueNs c) Hlen') as (Hs1 & He1 & Hn1).
    { by rewrite Hclosed_end, Hclosed_start, Hsize. }
    unfold info. rewrite Hs1, He1, Hn1. split; [done |]. split; [done |]. f_equal.
    unfold getBucketNumFromEndTimeNs. rewrite Hclosed_end, Hbase, Hsize.
    destruct Hwf as (Hpos & Hnonneg & Hnum & Hfit). fold bucketEnd in Hfit.
    unfold Int64.max_signed in Hfit.
    rewrite (Int64_sub_exact bucketEnd) by (apply Int64_in_range_bounds; lia).
    replace (bucketEnd - mTimeBaseNs p) with ((mCurrentBucketNum p + 1) * mBucketSizeNs p)
      by (unfold bucketEnd; lia).
    assert (Hquot : (mCurrentBucketNum p + 1) * mBucketSizeNs p ÷ mBucketSizeNs p
                    = mCurrentBucketNum p + 1) by (apply Z.quot_mul; lia).
    rewrite Int64_div_exact by (rewrite Hquot; apply Int64_in_range_bounds; nia).
    rewrite Hquot, Int64_sub_exact by (apply Int64_in_range_bounds; nia). lia.
Qed.

End DumpProofs.

(** C2: [flushIfNeededLocked ts] leaves the producer as it is when [ts] is
    before the end of the current bucket; otherwise it closes the current
    bucket with end time [min ts bucketEnd] (one record per counter that
    passes the upload threshold, appended to the past buckets of its key),
    starts an empty bucket and advances the bucket number by exactly
    [1 + (ts - bucketEnd) / bucket_size]. A closed bucket is reported with
    explicit start and end milliseconds iff its length differs from the
    bucket size, otherwise with its bucket number only. And the bucket the
    rotation closed is what a report shows: in a report taken before the
    next bucket ends, the one entry of the key ends, after the buckets the
    key had, with a bucket that carries the count and either the start and
    the end of the closed bucket in milliseconds and no bucket number (a
    partial bucket) or the number the bucket had and no milliseconds (a
    full bucket). *)
Theorem C2_flush_if_needed `{Collaborators} (p : CountMetricProducer) (ts : Z)
    (Hwf : bucketsInRange p) (Hts : Int64.in_range ts) :
  let bucketEnd := mTimeBaseNs p + (mCurrentBucketNum p + 1) * mBucketSizeNs p in
  let p' := flushIfNeededLocked ts p in
  (ts < bucketEnd → p' = p)
  ∧ (bucketEnd <= ts →
     mCurrentBucketNum p'
     = mCurrentBucketNum p + (1 + (ts - bucketEnd) / mBucketSizeNs p)
     ∧ mCurrentSlicedCounter p' = ∅
     ∧ ∃ closed : Z → CountBucket,
         (∀ c, mBucketStartNs (closed c) = mCurrentBucketStartTimeNs p
               ∧ mBucketEndNs (closed c) = Z.min ts bucketEnd
               ∧ mCount (closed c) = c)
         ∧ ∀ k, mPastBuckets p' !! k
                = match mCurrentSlicedCounter p !! k with
                  | Some c =>
                    if countPassesThreshold p c
                    then Some (default [] (mPastBuckets p !! k) ++ [closed c])
                    else mPastBuckets p !! k
                  | None => mPastBuckets p !! k
                  end)
  ∧ (∀ b : CountBucket,
       Int64.in_range (mBucketEndNs b - mBucketStartNs b) →
       let info := writeCountBucketInfo p b in
       (is_Some (start_bucket_elapsed_millis info)
        ↔ mBucketEndNs b - mBucketStartNs b ≠ mBucketSizeNs p)
       ∧ (is_Some (end_bucket_elapsed_millis info)
          ↔ mBucketEndNs b - mBucketStartNs b ≠ mBucketSizeNs p)
       ∧ (is_Some (bucket_num info)
          ↔ mBucketEndNs b - mBucketStartNs b = mBucketSizeNs p))
  ∧ (bucketEnd <= ts →
     Int64.in_range (bucketEnd - mCurrentBucketStartTimeNs p) →
     ∀ (t : Z) (erase_data : bool) (dumpLatency : DumpLatency)
       (k : MetricDimensionKey) (c : Z),
       t < getCurrentBucketEndTimeNs p' →
       mCurrentSlicedCounter p !! k = Some c →
       countPassesThreshold p c = true →
       let report := (onDumpReportLocked t false erase_data dumpLatency p').2 in
       ∃ d info,
         d ∈ count_metrics report
         ∧ (∀ d', d' ∈ count_metrics report → data_key d' = k → d' = d)
         ∧ data_key d = k
         ∧ bucket_info d
           = (writeCountBucketInfo p' <$> default [] (mPastBuckets p !! k)) ++ [info]
         ∧ count info = c
         ∧ (bucketEnd - mCurrentBucketStartTimeNs p ≠ mBucketSizeNs p →
            start_bucket_elapsed_millis info
            = Some (NanoToMillis (mCurrentBucketStartTimeNs p))
            ∧ end_bucket_elapsed_millis info = Some (NanoToMillis bucketEnd)
            ∧ bucket_num info = None)
         ∧ (bucketEnd - mCurrentBucketStartTimeNs p = mBucketSizeNs p →
            start_bucket_elapsed_millis info = None
            ∧ end_bucket_elapsed_millis info = None
            ∧ bucket_num info = Some (mCurrentBucketNum p))).
Proof.
  intros bucketEnd p'.
  pose proof (getCurrentBucketEndTimeNs_exact p Hwf) as Hend. fold bucketEnd in Hend.
  split; [| split; [| split]].
  - intros Hlt. apply flushIfNeededLocked_noop. by rewrite Hend.
  - intros Hge. destruct Hts as [_ Hmax].
    pose proof (flushIfNeededLocked_rotate p ts Hwf Hge Hmax) as Hrot.
    cbv zeta in Hrot. fold bucketEnd in Hrot. fold p' in Hrot. rewrite Hrot. simpl.
    split; [lia |]. split; [apply flushCurrentBucketLocked_counter |].
    eexists. split; [| intros k; rewrite flushCurrentBucketLocked_past;
                       apply appendPastBuckets_lookup].
    intros c. unfold closedBucketInfo. simpl. rewrite Hend.
    destruct (Z.ltb_spec ts bucketEnd); [lia |]. split; [done |]. split; [lia | done].
  - intros b Hr info.
    destruct (decide (mBucketEndNs b - mBucketStartNs b = mBucketSizeNs p)) as [Heq | Hne].
    + destruct (writeCountBucketInfo_full p b Hr Heq) as (Hs & He & Hn).
      unfold info. rewrite Hs, He, Hn.
      repeat split; try done; try (by intros []%is_Some_None); eauto.
    + destruct (writeCountBucketInfo_partial p b Hr Hne) as (Hs & He & Hn).
      unfold info. rewrite Hs, He, Hn.
      repeat split; try done; try (by intros []%is_Some_None); eauto.
  - intros Hge Hlen t erase_data dumpLatency k c Ht Hk Hpass report.
    destruct (flushIfNeededLocked_past p ts k Hwf Hts Hge) as [trueNs Hpast].
    fold p' in Hpast. rewrite Hk, Hpass in Hpast.
    assert (Hsettled : flushIfNeededLocked t p' = p')
      by (by apply flushIfNeededLocked_noop).
    pose proof (writeCountBucketInfo_closed p ts trueNs c Hwf Hts Hge Hlen) as Hinfo.
    cbv zeta in Hinfo. fold bucketEnd p' in Hinfo.
    exists (writeCountMetricData p'
              (k, default [] (mPastBuckets p !! k) ++ [closedBucketInfo p ts trueNs c])),
           (writeCountBucketInfo p' (closedBucketInfo p ts trueNs c)).
    split.
    { apply onDumpReportLocked_entry. rewrite Hsettled. eauto. }
    split.
    { intros d' (k' & bs & Hk' & ->)%onDumpReportLocked_entry Hkey.
      rewrite Hsettled in Hk' |- *. cbn [writeCountMetricData data_key fst] in Hkey.
      subst k'. rewrite Hpast in Hk'. by injection Hk' as <-. }
    split; [done |]. split; [simpl; by rewrite fmap_app |]. exact Hinfo.
Qed.

Lemma C2_flush_if_needed_witness :
  bucketsInRange exampleProducer
  ∧ Int64.in_range (70 * NS_PER_SEC)
  ∧ mCurrentBucketNum (flushIfNeededLocked (70 * NS_PER_SEC) exampleProducer) = 1
  ∧ flushIfNeededLocked (59 * NS_PER_SEC) exampleProducer = exampleProducer
  ∧ bucketsInRange exampleTrackedProducer
  ∧ ∃ d info,
      d ∈ count_metrics
            (onDumpReportLocked (70 * NS_PER_SEC) false false FAST
               (flushIfNeededLocked (70 * NS_PER_SEC) exampleTrackedProducer)).2
      ∧ data_key d = 5
      ∧ bucket_info d = [info]
      ∧ count info = 3
      ∧ bucket_num info = Some 0
      ∧ start_bucket_elapsed_millis info = None
      ∧ end_bucket_elapsed_millis info = None.
Proof.
  assert (Hwf : bucketsInRange exampleProducer) by (repeat split; by vm_compute).
  assert (Hwf' : bucketsInRange exampleTrackedProducer) by (repeat split; by vm_compute).
  assert (Hts : Int64.in_range (70 * NS_PER_SEC)) by (split; by vm_compute).
  assert (Hts' : Int64.in_range (59 * NS_PER_SEC)) by (split; by vm_compute).
  split; [exact Hwf |]. split; [exact Hts |]. split; [| split; [| split]].
  - destruct (C2_flush_if_needed exampleProducer (70 * NS_PER_SEC) Hwf Hts)
      as (_ & Hrot & _).
    destruct Hrot as (Hnum & _); [by vm_compute |]. exact Hnum.
  - destruct (C2_flush_if_needed exampleProducer (59 * NS_PER_SEC) Hwf Hts')
      as (Hnoop & _).
    apply Hnoop. by vm_compute.
  - exact Hwf'.
  - destruct (C2_flush_if_needed exampleTrackedProducer (70 * NS_PER_SEC) Hwf' Hts)
      as (_ & _ & _ & Hreport).
    destruct (Hreport ltac:(by vm_compute) ltac:(split; by vm_compute)
                (70 * NS_PER_SEC) false FAST 5 3 ltac:(by vm_compute) eq_refl eq_refl)
      as (d & info & Hin & _ & Hkey & Hbuckets & Hcount & _ & Hfull).
    destruct (Hfull ltac:(by vm_compute)) as (Hstart & Hend & Hnum).
    exists d, info. repeat split; try done.
Defined.

(** X14: two reports at the same time, neither including the current
    bucket. After a report that erases, a second report has no entries.
    After a report that does not erase, a second one changes nothing and
    gives the same report. Whether the first report erases or not, it is
    the same report and leaves the same current counters. *)
Theorem dump_report_twice `{Collaborators} (p : CountMetricProducer) (t : Z)
    (dumpLatency : DumpLatency)
    (Hwf : bucketsInRange p) (Ht : Int64.in_range t)
    (Hroom : mTimeBaseNs p + (mCurrentBucketNum p + 1) * mBucketSizeNs p <= t →
             t + mBucketSizeNs p <= Int64.max_signed) :
  let erased := onDumpReportLocked t false true dumpLatency p in
  let kept := onDumpReportLocked t false false dumpLatency p in
  (∀ erase_data latency,
     count_metrics (onDumpReportLocked t false erase_data latency erased.1).2 = [])
  ∧ (∀ latency, onDumpReportLocked t false false latency kept.1 = kept)
  ∧ erased.2 = kept.2
  ∧ mCurrentSlicedCounter erased.1 = mCurrentSlicedCounter kept.1.
Proof.
  intros erased kept.
  pose proof (flushIfNeededLocked_twice p t Hwf Ht Hroom) as Htwice.
  set (q := flushIfNeededLocked t p) in *.
  assert (Hkept : kept.1 = q) by apply (onDumpReportLocked_state t false).
  pose proof (onDumpReportLocked_state t true dumpLatency p) as Herased.
  cbv zeta in Herased. fold q erased in Herased.
  split; [| split; [| split]].
  - intros erase_data latency. apply onDumpReportLocked_no_entries. simpl.
    rewrite Herased. case_bool_decide as Hempty; simpl.
    + by rewrite Htwice.
    + rewrite flushIfNeededLocked_noop; [done |].
      rewrite (getCurrentBucketEndTimeNs_ext q) by done.
      by apply flushIfNeededLocked_end_after.
  - intros latency. rewrite Hkept, (surjective_pairing kept), Hkept.
    rewrite (onDumpReportLocked_settled t latency dumpLatency q Htwice). f_equal.
    apply (onDumpReportLocked_report_flushed t false false dumpLatency dumpLatency p Htwice).
  - apply onDumpReportLocked_report_ext.
  - rewrite Hkept, Herased. by case_bool_decide.
Qed.

Lemma dump_report_twice_witness :
  bucketsInRange exampleTrackedProducer
  ∧ count_metrics
      (onDumpReportLocked (70 * NS_PER_SEC) false false FAST
         (onDumpReportLocked (70 * NS_PER_SEC) false true FAST exampleTrackedProducer).1).2
    = [].
Proof.
  assert (Hwf : bucketsInRange exampleTrackedProducer) by (repeat split; by vm_compute).
  split; [exact Hwf |].
  refine (proj1 (dump_report_twice exampleTrackedProducer (70 * NS_PER_SEC) FAST Hwf _ _)
            false FAST).
  - split; by vm_compute.
  - intros _. by vm_compute.
Defined.

(** X15: from the count update to the report. When a report that does not
    include the current bucket is taken at or after the end of the bucket,
    every current counter that passes the upload threshold is reported: the
    entry of its key ends with a bucket that carries the count, after the
    buckets the key already had. A key whose counter fails the threshold
    and that has no earlier bucket has no entry. *)
Theorem dump_reports_closed_counts `{Collaborators} (p : CountMetricProducer) (t : Z)
    (erase_data : bool) (dumpLatency : DumpLatency) (k : MetricDimensionKey) (c : Z)
    (Hwf : bucketsInRange p) (Ht : Int64.in_range t)
    (Hge : mTimeBaseNs p + (mCurrentBucketNum p + 1) * mBucketSizeNs p <= t)
    (Hk : mCurrentSlicedCounter p !! k = Some c) :
  let report := (onDumpReportLocked t false erase_data dumpLatency p).2 in
  (countPassesThreshold p c = true →
   ∃ d earlier info,
     d ∈ count_metrics report
     ∧ data_key d = k
     ∧ bucket_info d = earlier ++ [info]
     ∧ count info = c
     ∧ length earlier = length (default [] (mPastBuckets p !! k)))
  ∧ (countPassesThreshold p c = false → mPastBuckets p !! k = None →
     ∀ d, d ∈ count_metrics report → data_key d ≠ k).
Proof.
  intros report.
  destruct (flushIfNeededLocked_past p t k Hwf Ht Hge) as [trueNs Hpast].
  rewrite Hk in Hpast. split.
  - intros Hpass. rewrite Hpass in Hpast.
    eexists _, _, _. split; [apply onDumpReportLocked_entry; eauto |].
    simpl. rewrite fmap_app. simpl. repeat split; try done.
    by rewrite length_fmap.
  - intros Hfail Hnone d (k' & bs & Hk' & ->)%onDumpReportLocked_entry.
    simpl. intros ->. rewrite Hfail, Hnone in Hpast. by rewrite Hpast in Hk'.
Qed.

Lemma dump_reports_closed_counts_witness :
  bucketsInRange exampleTrackedProducer
  ∧ ∃ d earlier info,
      d ∈ count_metrics
            (onDumpReportLocked (70 * NS_PER_SEC) false true FAST exampleTrackedProducer).2
      ∧ data_key d = 5
      ∧ bucket_info d = earlier ++ [info]
      ∧ count info = 3
      ∧ length earlier = length (default [] (mPastBuckets exampleTrackedProducer !! 5)).
Proof.
  assert (Hwf : bucketsInRange exampleTrackedProducer) by (repeat split; by vm_compute).
  split; [exact Hwf |].
  refine (proj1 (dump_reports_closed_counts exampleTrackedProducer (70 * NS_PER_SEC) true
                   FAST 5 3 Hwf _ _ _) _);
    try (split; by vm_compute); by vm_compute.
Defined.

(** ** Construction *)

(** X16: the producer the constructor returns, for a metric with a bucket
    of [millis] milliseconds that starts at or after its time base. The
    current bucket starts at the start time, and its number is the number
    of whole buckets between the time base and the start time, so that the
    start time lies in the numbered bucket. There are no counters and no
    past buckets. The producer is active iff it has no activations. The
    rotation the constructor runs records one bucket with [StatsdStats]
    when the start time is at least one bucket after the time base, and
    nothing otherwise. *)
Theorem newCountMetricProducer_initial `{Collaborators} (key : Z) (metric : CountMetric)
    (conditionIndex : Z) (initialCondition : ConditionState) (timeBaseNs startTimeNs : Z)
    (eventActivationMap : gmap Z Activation) (eventDeactivationMap : gmap Z (list Z))
    (slicedStateAtoms : list Z) (millis : Z)
    (Hbucket : bucket metric = Some millis) (Hmillis : 0 < millis)
    (Hbase : 0 <= timeBaseNs <= startTimeNs)
    (Hfit : startTimeNs + millis * 1000000 <= Int64.max_signed) :
  let p := newCountMetricProducer key metric conditionIndex initialCondition timeBaseNs
             startTimeNs eventActivationMap eventDeactivationMap slicedStateAtoms in
  let size := millis * 1000000 in
  bucketsInRange p
  ∧ mBucketSizeNs p = size
  ∧ mCurrentBucketStartTimeNs p = startTimeNs
  ∧ mCurrentBucketNum p = (startTimeNs - timeBaseNs) / size
  ∧ timeBaseNs + mCurrentBucketNum p * size <= startTimeNs
    < timeBaseNs + (mCurrentBucketNum p + 1) * size
  ∧ mCurrentSlicedCounter p = ∅
  ∧ mPastBuckets p = ∅
  ∧ (mIsActive p = true ↔ eventActivationMap = ∅)
  ∧ statsdStats p
    = (if startTimeNs <? timeBaseNs + size then []
       else [noteBucketCount (metric_id metric)]).
Proof.
  intros p size. unfold p, newCountMetricProducer. rewrite Hbucket. cbv zeta.
  match goal with
  | |- context [flushIfNeededLocked startTimeNs ?q] => set (p0 := q)
  end.
  assert (Hsize0 : mBucketSizeNs p0 = size).
  { unfold p0, size. simpl. apply Int64_mul_exact, Int64_in_range_bounds.
    unfold Int64.max_signed in Hfit. lia. }
  assert (Hbase0 : mTimeBaseNs p0 = timeBaseNs) by done.
  assert (Hnum0 : mCurrentBucketNum p0 = 0) by done.
  assert (Hcounter0 : mCurrentSlicedCounter p0 = ∅) by done.
  assert (Hpast0 : mPastBuckets p0 = ∅) by done.
  assert (Hactive0 : mIsActive p0 = bool_decide (eventActivationMap = ∅)) by done.
  assert (Hstats0 : statsdStats p0 = []) by done.
  assert (Hid0 : mMetricId p0 = metric_id metric) by done.
  assert (Hpos : 0 < size) by (unfold size; lia).
  assert (Hwf0 : bucketsInRange p0).
  { unfold bucketsInRange. rewrite Hsize0, Hbase0, Hnum0. repeat split; lia. }
  clearbody p0.
  set (q := flushIfNeededLocked startTimeNs p0).
  assert (Hfields :
    bucketsInRange q ∧ mBucketSizeNs q = size ∧ mTimeBaseNs q = timeBaseNs
    ∧ mCurrentBucketNum q = (startTimeNs - timeBaseNs) / size
    ∧ mCurrentSlicedCounter q = ∅ ∧ mPastBuckets q = ∅
    ∧ mIsActive q = bool_decide (eventActivationMap = ∅)
    ∧ statsdStats q = (if startTimeNs <? timeBaseNs + size then []
                       else [noteBucketCount (metric_id metric)])).
  { pose proof (getCurrentBucketEndTimeNs_exact p0 Hwf0) as Hend.
    rewrite Hsize0, Hbase0, Hnum0 in Hend.
    destruct (Z.ltb_spec startTimeNs (timeBaseNs + size)) as [Hlt | Hge].
    - assert (Hq : q = p0) by (apply flushIfNeededLocked_noop; lia).
      rewrite Hq. split; [exact Hwf0 |]. split; [done |]. split; [done |].
      split; [rewrite Hnum0; symmetry; apply Z.div_small; lia |]. done.
    - assert (Hmax : startTimeNs <= Int64.max_signed) by lia.
      assert (Hge0 : mTimeBaseNs p0 + (mCurrentBucketNum p0 + 1) * mBucketSizeNs p0
                     <= startTimeNs) by (rewrite Hsize0, Hbase0, Hnum0; lia).
      pose proof (flushIfNeededLocked_rotate p0 startTimeNs Hwf0 Hge0 Hmax) as Hrot.
      cbv zeta in Hrot. fold q in Hrot.
      rewrite Hsize0, Hbase0, Hnum0 in Hrot.
      set (forward := (startTimeNs - (timeBaseNs + (0 + 1) * size)) / size) in *.
      assert (Hforward : 0 + 1 + forward = (startTimeNs - timeBaseNs) / size).
      { unfold forward.
        replace (startTimeNs - timeBaseNs)
          with ((startTimeNs - (timeBaseNs + (0 + 1) * size)) + 1 * size) by lia.
        rewrite Z.div_add by lia. lia. }
      pose proof (Z.div_mod (startTimeNs - timeBaseNs) size ltac:(lia)) as Hdm.
      pose proof (Z.mod_pos_bound (startTimeNs - timeBaseNs) size Hpos) as Hmod.
      assert (Hq0 : 0 <= (startTimeNs - timeBaseNs) / size) by (apply Z.div_pos; lia).
      set (flushed := flushCurrentBucketLocked startTimeNs
                        (timeBaseNs + (0 + 1) * size + forward * size) p0) in *.
      assert (Hb : mTimeBaseNs q = timeBaseNs)
        by (rewrite Hrot; simpl; unfold flushed;
            by rewrite flushCurrentBucketLocked_base).
      assert (Hs : mBucketSizeNs q = size)
        by (rewrite Hrot; simpl; unfold flushed;
            by rewrite flushCurrentBucketLocked_size).
      assert (Hn : mCurrentBucketNum q = (startTimeNs - timeBaseNs) / size)
        by (rewrite Hrot; simpl; done).
      split.
      { unfold bucketsInRange. rewrite Hb, Hs, Hn. repeat split; [lia | lia | lia | nia]. }
      split; [done |]. split; [done |]. split; [done |].
      rewrite Hrot. simpl. unfold flushed.
      rewrite flushCurrentBucketLocked_counter, flushCurrentBucketLocked_past.
      rewrite appendPastBuckets_empty by done.
      split; [done |]. split; [done |].
      unfold flushCurrentBucketLocked.
      destruct (ConditionTimer_newBucketStart _ _ _) as [timer [trueNs correction]].
      repeat case_match; simpl; by rewrite ?Hactive0, ?Hstats0, ?Hid0. }
  clearbody q.
  destruct Hfields as (Hwf & Hs & Hb & Hn & Hc & Hp & Ha & Hst).
  cbn [set_mConditionTimer set_mCurrentBucketStartTimeNs mBucketSizeNs
       mCurrentBucketStartTimeNs mCurrentBucketNum mCurrentSlicedCounter mPastBuckets
       mIsActive statsdStats mCondition mConditionTimer].
  pose proof (Z.div_mod (startTimeNs - timeBaseNs) size ltac:(lia)) as Hdm.
  pose proof (Z.mod_pos_bound (startTimeNs - timeBaseNs) size Hpos) as Hmod.
  split; [exact Hwf |]. split; [done |]. split; [done |]. split; [done |].
  split; [rewrite Hn; nia |]. split; [done |]. split; [done |].
  split; [| done]. rewrite Ha. split.
  - by intros ?%bool_decide_eq_true_1.
  - intros ->. by apply bool_decide_eq_true_2.
Qed.

Lemma newCountMetricProducer_initial_witness :
  mCurrentBucketNum
    (newCountMetricProducer 0 exampleMetric (-1) kTrue 0 (150 * NS_PER_SEC) ∅ ∅ [])
  = 2
  ∧ statsdStats
      (newCountMetricProducer 0 exampleMetric (-1) kTrue 0 (150 * NS_PER_SEC) ∅ ∅ [])
    = [noteBucketCount 1].
Proof.
  destruct (newCountMetricProducer_initial 0 exampleMetric (-1) kTrue 0 (150 * NS_PER_SEC)
              ∅ ∅ [] 60000)
    as (_ & _ & _ & Hnum & _ & _ & _ & _ & Hstats);
    [reflexivity | lia | by vm_compute | by vm_compute |].
  split; [exact Hnum | exact Hstats].
Defined.

(** ** Registration with the pull scheduler *)

Section RegistrationProofs.

Implicit Types (env : Environment) (s : StatsPullerManager) (r : ReceiverInfo).
Implicit Types table : list (ReceiverKey * list ReceiverInfo).

Lemma registerInTable_registered key r r' table table' :
  registerInTable key r table = Some table' →
  receiver r' = receiver r →
  registerInTable key r' table' = None.
Proof.
  intros Hreg Hsame. revert table' Hreg.
  induction table as [| [k rs] table IH]; intros table' Hreg; simpl in Hreg.
  - injection Hreg as <-. simpl. rewrite bool_decide_eq_true_2 by done.
    rewrite bool_decide_eq_true_2; [done |]. rewrite Hsame. simpl. apply list_elem_of_here.
  - case_bool_decide as Hk.
    + case_bool_decide as Hin; [done |]. injection Hreg as <-. simpl.
      rewrite bool_decide_eq_true_2 by done.
      rewrite bool_decide_eq_true_2; [done |].
      rewrite fmap_app, Hsame. apply elem_of_app. right. simpl. apply list_elem_of_here.
    + destruct (registerInTable key r table) as [table1 |] eqn:Hrest; [| done].
      simpl in Hreg. injection Hreg as <-. simpl.
      rewrite bool_decide_eq_false_2 by done. by rewrite (IH table1).
Qed.

Lemma registerInTable_None key r table :
  registerInTable key r table = None ↔ receiver r ∈ receiver <$> receiversOf key table.
Proof.
  induction table as [| [k rs] table IH]; simpl.
  - split; [done | by intros ?%elem_of_nil].
  - case_bool_decide as Hk.
    + case_bool_decide as Hin; [done |]. split; [done | by intros ?].
    + destruct (registerInTable key r table); simpl; [| tauto].
      split; [done |]. intros Hin. by apply IH in Hin.
Qed.

Lemma registerInTable_receiversOf key r table table' key' :
  registerInTable key r table = Some table' →
  receiversOf key' table'
  = if bool_decide (key' = key) then receiversOf key table ++ [r]
    else receiversOf key' table.
Proof.
  revert table'. induction table as [| [k rs] table IH]; intros table' Hreg;
    simpl in Hreg.
  - injection Hreg as <-. simpl.
    destruct (decide (key = key')) as [-> | Hne].
    + by rewrite !bool_decide_eq_true_2.
    + rewrite !bool_decide_eq_false_2; [done | congruence | done].
  - case_bool_decide as Hk.
    + case_bool_decide as Hin; [done |]. injection Hreg as <-. subst k. simpl.
      destruct (decide (key = key')) as [-> | Hne].
      * by rewrite !bool_decide_eq_true_2.
      * rewrite !bool_decide_eq_false_2; [done | congruence | done].
    + destruct (registerInTable key r table) as [table1 |] eqn:Hrest; [| done].
      simpl in Hreg. injection Hreg as <-. simpl.
      rewrite (IH table1 eq_refl).
      repeat case_bool_decide; simplify_eq; done.
Qed.

Lemma unregisterInTable_receiversOf key target table key' :
  receiversOf key' (unregisterInTable key target table)
  = if bool_decide (key' = key) then eraseReceiver target (receiversOf key table)
    else receiversOf key' table.
Proof.
  induction table as [| [k rs] table IH]; simpl.
  - by case_bool_decide.
  - destruct (decide (k = key)) as [-> | Hk].
    + rewrite bool_decide_eq_true_2 by done. simpl.
      destruct (decide (key = key')) as [-> | Hne].
      * by rewrite !bool_decide_eq_true_2.
      * rewrite !bool_decide_eq_false_2; [done | congruence | done].
    + rewrite (bool_decide_eq_false_2 (k = key)) by done. simpl. rewrite IH.
      repeat case_bool_decide; simplify_eq; done.
Qed.

Lemma eraseReceiver_last target rs r :
  target ∉ receiver <$> rs →
  receiver r = target →
  eraseReceiver target (rs ++ [r]) = rs.
Proof.
  intros Hnotin Hr. induction rs as [| r' rs IH]; simpl.
  - by rewrite bool_decide_eq_true_2.
  - rewrite fmap_cons in Hnotin. apply not_elem_of_cons in Hnotin as [Hne Hnotin].
    rewrite bool_decide_eq_false_2 by done. by rewrite IH.
Qed.

Lemma eraseReceiver_subseteq target rs : eraseReceiver target rs ⊆ rs.
Proof.
  induction rs as [| r rs IH]; simpl; [done |].
  case_bool_decide.
  - intros x Hx. by apply list_elem_of_further.
  - intros x [-> | Hx]%elem_of_cons; [apply list_elem_of_here |].
    apply list_elem_of_further. by apply IH.
Qed.

Lemma eraseReceiver_NoDup target rs :
  NoDup (receiver <$> rs) →
  NoDup (receiver <$> eraseReceiver target rs)
  ∧ target ∉ receiver <$> eraseReceiver target rs.
Proof.
  induction rs as [| r rs IH]; simpl.
  - intros _. split; [constructor | by intros ?%elem_of_nil].
  - intros [Hnotin Hnodup]%NoDup_cons. case_bool_decide as Htarget.
    + split; [done |]. by rewrite Htarget.
    + destruct (IH Hnodup) as [Hnodup' Hgone]. simpl. split.
      * apply NoDup_cons. split; [| done].
        intros (x & Hx & Hin)%list_elem_of_fmap. apply Hnotin.
        apply list_elem_of_fmap. exists x. split; [done |].
        by apply eraseReceiver_subseteq in Hin.
      * intros [Heq | Hin]%elem_of_cons; [done | by apply Hgone].
Qed.

Lemma updateAlarmLocked_frame s :
  mReceivers (updateAlarmLocked s) = mReceivers s
  ∧ mNextPullTimeNs (updateAlarmLocked s) = mNextPullTimeNs s
  ∧ kAllPullAtomInfo (updateAlarmLocked s) = kAllPullAtomInfo s
  ∧ mPullUidProviders (updateAlarmLocked s) = mPullUidProviders s
  ∧ mStatsCompanionService (updateAlarmLocked s) = mStatsCompanionService s.
Proof. unfold updateAlarmLocked. by repeat case_match. Qed.

(** What [RegisterReceiver] does to the table and to the alarm time. *)
Lemma RegisterReceiver_fields tag key target next interval s :
  let key' := {| atomTag := tag; configKey := key |} in
  let r := {| intervalNs := roundedIntervalNs interval; nextPullTimeNs := next;
              receiver := target |} in
  match registerInTable key' r (mReceivers s) with
  | None => RegisterReceiver tag key target next interval s = s
  | Some table =>
    mReceivers (RegisterReceiver tag key target next interval s) = table
    ∧ mNextPullTimeNs (RegisterReceiver tag key target next interval s)
      = Z.min next (mNextPullTimeNs s)
  end.
Proof.
  cbv zeta. unfold RegisterReceiver.
  destruct (registerInTable _ _ _) as [table |]; [| done]. simpl.
  destruct (Z.ltb_spec next (mNextPullTimeNs s)).
  - destruct (updateAlarmLocked_frame (set_mNextPullTimeNs next (set_mReceivers table s)))
      as (-> & -> & _).
    simpl. split; [done | lia].
  - simpl. split; [done | lia].
Qed.

Lemma nextPullTimes_receiversOf table x :
  x ∈ nextPullTimes table
  ↔ ∃ k rs r, (k, rs) ∈ table ∧ r ∈ rs ∧ nextPullTimeNs r = x.
Proof.
  unfold nextPullTimes. rewrite list_elem_of_bind. split.
  - intros ([k rs] & (r & -> & Hr)%list_elem_of_fmap & Hin). simpl in *. eauto 6.
  - intros (k & rs & r & Hin & Hr & <-). exists (k, rs). split; [| done].
    simpl. apply list_elem_of_fmap. eauto.
Qed.

Lemma registerInTable_elem key r table table' k rs x :
  registerInTable key r table = Some table' →
  (k, rs) ∈ table' → x ∈ rs →
  x = r ∨ ∃ rs0, (k, rs0) ∈ table ∧ x ∈ rs0.
Proof.
  revert table'. induction table as [| [k0 rs0] table IH]; intros table' Hreg Hin Hx;
    simpl in Hreg.
  - injection Hreg as <-. apply list_elem_of_singleton in Hin. injection Hin as -> ->.
    apply list_elem_of_singleton in Hx. by left.
  - case_bool_decide as Hk.
    + case_bool_decide as Hdup; [done |]. injection Hreg as <-.
      apply elem_of_cons in Hin as [Heq | Hin].
      * injection Heq as -> ->. apply elem_of_app in Hx as [Hx | Hx].
        -- right. exists rs0. split; [apply list_elem_of_here | done].
        -- apply list_elem_of_singleton in Hx. by left.
      * right. exists rs. split; [by apply list_elem_of_further | done].
    + destruct (registerInTable key r table) as [table1 |] eqn:Hrest; [| done].
      simpl in Hreg. injection Hreg as <-.
      apply elem_of_cons in Hin as [Heq | Hin].
      * injection Heq as -> ->. right. exists rs0.
        split; [apply list_elem_of_here | done].
      * destruct (IH table1 eq_refl Hin Hx) as [-> | (rs1 & Hin1 & Hx1)]; [by left |].
        right. exists rs1. split; [by apply list_elem_of_further | done].
Qed.

Lemma unregisterInTable_elem key target table k rs x :
  (k, rs) ∈ unregisterInTable key target table → x ∈ rs →
  ∃ rs0, (k, rs0) ∈ table ∧ x ∈ rs0.
Proof.
  induction table as [| [k0 rs0] table IH]; simpl; [by intros ?%elem_of_nil |].
  case_bool_decide as Hk.
  - intros [Heq | Hin]%elem_of_cons Hx.
    + injection Heq as -> ->. exists rs0. split; [apply list_elem_of_here |].
      by apply eraseReceiver_subseteq in Hx.
    + exists rs. split; [by apply list_elem_of_further | done].
  - intros [Heq | Hin]%elem_of_cons Hx.
    + injection Heq as -> ->. exists rs0. split; [apply list_elem_of_here | done].
    + destruct (IH Hin Hx) as (rs1 & Hin1 & Hx1).
      exists rs1. split; [by apply list_elem_of_further | done].
Qed.

Lemma registerInTable_registeredOnce key r table table' :
  registerInTable key r table = Some table' →
  registeredOnce table → registeredOnce table'.
Proof.
  unfold registeredOnce. revert table'.
  induction table as [| [k rs] table IH]; intros table' Hreg Honce; simpl in Hreg.
  - injection Hreg as <-. repeat constructor. by intros ?%elem_of_nil.
  - apply Forall_cons in Honce as [Hrs Honce]. simpl in Hrs.
    case_bool_decide as Hk.
    + case_bool_decide as Hdup; [done |]. injection Hreg as <-.
      constructor; [| done]. simpl. rewrite fmap_app. apply NoDup_app.
      split; [done |]. split; [| repeat constructor; by intros ?%elem_of_nil].
      intros x Hx Hx'. apply list_elem_of_singleton in Hx'. by subst x.
    + destruct (registerInTable key r table) as [table1 |] eqn:Hrest; [| done].
      simpl in Hreg. injection Hreg as <-. constructor; [done |]. by apply IH.
Qed.

Lemma unregisterInTable_registeredOnce key target table :
  registeredOnce table → registeredOnce (unregisterInTable key target table).
Proof.
  unfold registeredOnce. induction table as [| [k rs] table IH]; simpl; [done |].
  intros [Hrs Honce]%Forall_cons. simpl in Hrs. case_bool_decide.
  - constructor; [| done]. simpl. by apply eraseReceiver_NoDup.
  - constructor; [done |]. by apply IH.
Qed.

Lemma receiversOf_registeredOnce key table :
  registeredOnce table → NoDup (receiver <$> receiversOf key table).
Proof.
  unfold registeredOnce. induction table as [| [k rs] table IH]; simpl.
  - intros _. constructor.
  - intros [Hrs Honce]%Forall_cons. case_bool_decide; [done | by apply IH].
Qed.

End RegistrationProofs.

(** X17: the interval [RegisterReceiver] stores is a whole number of
    minutes and at least one minute; an interval of a minute or more is
    rounded down, by less than a minute. *)
Theorem roundedIntervalNs_whole_minutes (intervalNs : Z)
    (Hrange : Int64.in_range intervalNs) :
  let minute := 60 * NS_PER_SEC in
  minute <= roundedIntervalNs intervalNs
  ∧ roundedIntervalNs intervalNs mod minute = 0
  ∧ (minute <= intervalNs →
     intervalNs - minute < roundedIntervalNs intervalNs <= intervalNs).
Proof.
  cbv zeta. pose proof (proj1 (Int64_in_range_bounds _) Hrange) as Hbounds.
  unfold roundedIntervalNs, NS_PER_SEC.
  set (secs := intervalNs ÷ 1000000000).
  set (mins := secs ÷ 60).
  pose proof (Z.quot_rem intervalNs 1000000000 ltac:(lia)) as Hqr1.
  pose proof (Z.quot_rem secs 60 ltac:(lia)) as Hqr2.
  fold secs in Hqr1. fold mins in Hqr2.
  pose proof (Z.rem_bound_abs intervalNs 1000000000 ltac:(lia)) as Hr1.
  pose proof (Z.rem_bound_abs secs 60 ltac:(lia)) as Hr2.
  assert (Hsign : (0 <= 1000000000 * secs <= intervalNs ∧ 0 <= 60 * mins <= secs)
                  ∨ (intervalNs <= 1000000000 * secs <= 0 ∧ secs <= 60 * mins <= 0)).
  { destruct (Z_le_gt_dec 0 intervalNs) as [Hpos | Hneg].
    - left. pose proof (Z.mul_quot_le intervalNs 1000000000 Hpos ltac:(lia)) as H1.
      fold secs in H1. split; [done |]. apply Z.mul_quot_le; lia.
    - right. pose proof (Z.mul_quot_ge intervalNs 1000000000 ltac:(lia) ltac:(lia)) as H1.
      fold secs in H1. split; [done |]. apply Z.mul_quot_ge; lia. }
  rewrite (Int64_div_exact intervalNs) by (apply Int64_in_range_bounds; fold secs; lia).
  fold secs.
  rewrite (Int64_div_exact secs) by (apply Int64_in_range_bounds; fold mins; lia).
  fold mins.
  rewrite (Int64_mul_exact mins) by (apply Int64_in_range_bounds; lia).
  rewrite (Int64_mul_exact (mins * 1000000000))
    by (apply Int64_in_range_bounds; lia).
  rewrite (Int64_mul_exact 60) by (apply Int64_in_range_bounds; lia).
  destruct (Z.ltb_spec (mins * 1000000000 * 60) (60 * 1000000000)) as [Hsmall | Hlarge].
  - split; [lia |]. split; [apply Z.mod_same; lia |]. intros Hminute. lia.
  - split; [lia |]. split.
    + replace (mins * 1000000000 * 60) with (mins * (60 * 1000000000)) by lia.
      apply Z.mod_mul. lia.
    + intros Hminute. lia.
Qed.

Lemma roundedIntervalNs_whole_minutes_witness :
  Int64.in_range (150 * NS_PER_SEC)
  ∧ 150 * NS_PER_SEC - 60 * NS_PER_SEC < roundedIntervalNs (150 * NS_PER_SEC)
    <= 150 * NS_PER_SEC.
Proof.
  assert (Hrange : Int64.in_range (150 * NS_PER_SEC)) by (split; by vm_compute).
  split; [exact Hrange |].
  apply (proj2 (proj2 (roundedIntervalNs_whole_minutes (150 * NS_PER_SEC) Hrange))).
  by vm_compute.
Defined.

(** X18: registering a receiver that is already registered under the key
    changes nothing, whatever next pull time and interval the second call
    gives: the first registration stands and no alarm is set again. *)
Theorem RegisterReceiver_twice (tagId : Z) (configKey : Z * Z) (receiver : Z)
    (nextPullTimeNs intervalNs nextPullTimeNs' intervalNs' : Z) (s : StatsPullerManager) :
  RegisterReceiver tagId configKey receiver nextPullTimeNs' intervalNs'
    (RegisterReceiver tagId configKey receiver nextPullTimeNs intervalNs s)
  = RegisterReceiver tagId configKey receiver nextPullTimeNs intervalNs s.
Proof.
  pose proof (RegisterReceiver_fields tagId configKey receiver nextPullTimeNs intervalNs s)
    as Hfirst.
  cbv zeta in Hfirst.
  set (s1 := RegisterReceiver tagId configKey receiver nextPullTimeNs intervalNs s) in *.
  pose proof (RegisterReceiver_fields tagId configKey receiver nextPullTimeNs' intervalNs'
                s1) as Hsecond.
  cbv zeta in Hsecond.
  destruct (registerInTable _ _ (mReceivers s)) as [table |] eqn:Hreg.
  - destruct Hfirst as [Htable _]. rewrite Htable in Hsecond.
    by rewrite (registerInTable_registered _ _ _ _ _ Hreg) in Hsecond.
  - apply registerInTable_None in Hreg. simpl in Hreg. rewrite Hfirst in Hsecond.
    destruct (registerInTable _ _ (mReceivers s)) eqn:Hreg'; [| by rewrite Hfirst].
    assert (registerInTable {| atomTag := tagId; configKey := configKey |}
              {| intervalNs := roundedIntervalNs intervalNs';
                 nextPullTimeNs := nextPullTimeNs'; receiver := receiver |}
              (mReceivers s) = None) as Hnone by (by apply registerInTable_None).
    congruence.
Qed.

(** X19: registering a receiver that is not yet registered under the key
    and unregistering it again leaves every key with the receivers it had;
    the alarm time does not move back: it stays at the earlier of the old
    alarm time and the next pull time the registration gave. *)
Theorem RegisterReceiver_then_UnRegisterReceiver (tagId : Z) (configKey : Z * Z)
    (target : Z) (next interval : Z) (s : StatsPullerManager)
    (Hfresh : target ∉ receiver
                <$> receiversOf {| atomTag := tagId; configKey := configKey |}
                      (mReceivers s)) :
  let s' := UnRegisterReceiver tagId configKey target
              (RegisterReceiver tagId configKey target next interval s) in
  (∀ key, receiversOf key (mReceivers s') = receiversOf key (mReceivers s))
  ∧ mNextPullTimeNs s' = Z.min next (mNextPullTimeNs s).
Proof.
  cbv zeta.
  pose proof (RegisterReceiver_fields tagId configKey target next interval s)
    as Hreg.
  cbv zeta in Hreg.
  destruct (registerInTable _ _ (mReceivers s)) as [table |] eqn:Htable.
  - destruct Hreg as [Hrs Hnext]. unfold UnRegisterReceiver. simpl. split; [| done].
    intros key. rewrite unregisterInTable_receiversOf, Hrs.
    rewrite !(registerInTable_receiversOf _ _ _ _ _ Htable).
    rewrite (bool_decide_eq_true_2 (_ = _) eq_refl).
    case_bool_decide as Hkey; [| done]. subst key.
    by apply eraseReceiver_last.
  - apply registerInTable_None in Htable. done.
Qed.

Lemma RegisterReceiver_then_UnRegisterReceiver_witness :
  mNextPullTimeNs
    (UnRegisterReceiver 10001 (0, 12345) 2
       (RegisterReceiver 10001 (0, 12345) 2 (30 * NS_PER_SEC) (90 * NS_PER_SEC)
          exampleManager))
  = Z.min (30 * NS_PER_SEC) (mNextPullTimeNs exampleManager).
Proof.
  apply (RegisterReceiver_then_UnRegisterReceiver 10001 (0, 12345) 2 (30 * NS_PER_SEC)
           (90 * NS_PER_SEC) exampleManager).
  vm_compute. intros Hin. apply list_elem_of_singleton in Hin. discriminate Hin.
Defined.

(** X20: no list of the table comes to hold a receiver twice through
    [RegisterReceiver] or [UnRegisterReceiver], and after
    [UnRegisterReceiver] the receiver is not registered under the key. *)
Theorem receivers_registered_once (tagId : Z) (configKey : Z * Z) (target : Z)
    (next interval : Z) (s : StatsPullerManager)
    (Honce : registeredOnce (mReceivers s)) :
  registeredOnce
    (mReceivers (RegisterReceiver tagId configKey target next interval s))
  ∧ registeredOnce (mReceivers (UnRegisterReceiver tagId configKey target s))
  ∧ target ∉ receiver
      <$> receiversOf {| atomTag := tagId; configKey := configKey |}
            (mReceivers (UnRegisterReceiver tagId configKey target s)).
Proof.
  split; [| split].
  - pose proof (RegisterReceiver_fields tagId configKey target next interval
                  s) as Hreg.
    cbv zeta in Hreg.
    destruct (registerInTable _ _ (mReceivers s)) as [table |] eqn:Htable.
    + destruct Hreg as [-> _]. by eapply registerInTable_registeredOnce.
    + by rewrite Hreg.
  - by apply unregisterInTable_registeredOnce.
  - unfold UnRegisterReceiver. simpl. rewrite unregisterInTable_receiversOf.
    rewrite bool_decide_eq_true_2 by done.
    apply eraseReceiver_NoDup. by apply receiversOf_registeredOnce.
Qed.

Lemma receivers_registered_once_witness :
  registeredOnce (mReceivers exampleManager)
  ∧ registeredOnce (mReceivers (UnRegisterReceiver 10001 (0, 12345) 1 exampleManager)).
Proof.
  assert (Honce : registeredOnce (mReceivers exampleManager)).
  { vm_compute. repeat constructor. intros Hin. apply elem_of_nil in Hin. destruct Hin. }
  split; [exact Honce |].
  apply (receivers_registered_once 10001 (0, 12345) 1 0 0 exampleManager Honce).
Defined.

(** X21: the alarm stays not late: when the alarm time is not after any
    receiver's next pull time, it is not after any either once a receiver
    has been registered or unregistered. *)
Theorem alarm_stays_not_late (tagId : Z) (configKey : Z * Z) (target : Z)
    (next interval : Z) (s : StatsPullerManager)
    (Hnotlate : alarmNotLate s) :
  alarmNotLate (RegisterReceiver tagId configKey target next interval s)
  ∧ alarmNotLate (UnRegisterReceiver tagId configKey target s).
Proof.
  unfold alarmNotLate in *. rewrite Forall_forall in Hnotlate. split.
  - pose proof (RegisterReceiver_fields tagId configKey target next interval
                  s) as Hreg.
    cbv zeta in Hreg.
    destruct (registerInTable _ _ (mReceivers s)) as [table |] eqn:Htable.
    + destruct Hreg as [-> ->]. apply Forall_forall.
      intros x (k & rs & r & Hin & Hr & <-)%nextPullTimes_receiversOf.
      destruct (registerInTable_elem _ _ _ _ _ _ _ Htable Hin Hr)
        as [-> | (rs0 & Hin0 & Hr0)]; [simpl; lia |].
      assert (mNextPullTimeNs s <= nextPullTimeNs r); [| lia].
      apply Hnotlate, nextPullTimes_receiversOf. eauto 6.
    + rewrite Hreg. by apply Forall_forall.
  - unfold UnRegisterReceiver. simpl. apply Forall_forall.
    intros x (k & rs & r & Hin & Hr & <-)%nextPullTimes_receiversOf.
    destruct (unregisterInTable_elem _ _ _ _ _ _ Hin Hr) as (rs0 & Hin0 & Hr0).
    apply Hnotlate, nextPullTimes_receiversOf. eauto 6.
Qed.

Lemma alarm_stays_not_late_witness :
  alarmNotLate exampleManager
  ∧ alarmNotLate
      (RegisterReceiver 10001 (0, 12345) 2 (30 * NS_PER_SEC) (90 * NS_PER_SEC)
         exampleManager).
Proof.
  assert (Hnotlate : alarmNotLate exampleManager).
  { vm_compute. repeat constructor. discriminate. }
  split; [exact Hnotlate |].
  apply (alarm_stays_not_late 10001 (0, 12345) 2 (30 * NS_PER_SEC) (90 * NS_PER_SEC)
           exampleManager Hnotlate).
Defined.

(** ** The alarm after a pull rotation *)

Section AlarmProofs.

Implicit Types (env : Environment) (s : StatsPullerManager) (r : ReceiverInfo).
Implicit Types table : list (ReceiverKey * list ReceiverInfo).

Lemma foldr_min_min a x (L : list Z) :
  foldr Z.min (Z.min a x) L = Z.min a (foldr Z.min x L).
Proof. induction L as [| b L IH]; simpl; [done |]. rewrite IH. lia. Qed.

Lemma foldr_min_perm x (L1 L2 : list Z) :
  L1 ≡ₚ L2 → foldr Z.min x L1 = foldr Z.min x L2.
Proof. induction 1; simpl; [done | congruence | lia | congruence]. Qed.

Lemma nextPullTimes_cons (key : ReceiverKey) (rs : list ReceiverInfo) table :
  nextPullTimes ((key, rs) :: table) = (nextPullTimeNs <$> rs) ++ nextPullTimes table.
Proof. done. Qed.

Lemma four_lists_perm (A B C D : list Z) :
  (C ++ A) ++ (D ++ B) ≡ₚ (A ++ B) ++ (C ++ D).
Proof.
  rewrite (Permutation_app_comm C A), (Permutation_app_comm D B).
  rewrite <- !app_assoc. apply Permutation_app_head.
  rewrite !app_assoc. apply Permutation_app_tail. apply Permutation_app_comm.
Qed.

Lemma two_by_two_perm (A B C D : list Z) :
  (A ++ C) ++ (B ++ D) ≡ₚ (A ++ B) ++ (C ++ D).
Proof.
  rewrite <- !app_assoc. apply Permutation_app_head.
  rewrite !app_assoc. apply Permutation_app_tail. apply Permutation_app_comm.
Qed.

Lemma notifiedReceivers_app (E1 E2 : list PullerEffect) :
  notifiedReceivers (E1 ++ E2) = notifiedReceivers E1 ++ notifiedReceivers E2.
Proof. apply omap_app. Qed.

Lemma notes_not_notified env t (notes : list PullerEffect) :
  Forall (λ e, isDataPulled e = false) notes →
  notifiedReceivers notes = [] ∧ Forall (wellNotified env t) notes.
Proof.
  induction 1 as [| e notes He _ [IH1 IH2]]; [by split |].
  destruct e; try done; simpl; (split; [exact IH1 | by constructor]).
Qed.

(** A pull hands data to no receiver: it only leaves notes. *)
Lemma PullLocked_notes env tag key t s :
  ∃ notes, effects (PullLocked env tag key t s).1.1 = effects s ++ notes
           ∧ Forall (λ e, isDataPulled e = false) notes
           ∧ dispatchedPulls notes = [].
Proof.
  assert (Huids : ∀ uids, ∃ notes,
            effects (PullLocked_uids env tag uids t s).1.1 = effects s ++ notes
            ∧ Forall (λ e, isDataPulled e = false) notes
            ∧ dispatchedPulls notes = []).
  { induction uids as [| uid uids IH]; simpl.
    - eexists [_]. split; [done |]. split; [by repeat constructor | done].
    - destruct (kAllPullAtomInfo s !! (uid, tag)) as [puller |]; [| exact IH].
      destruct (puller_Pull env puller t) as [[] data]; simpl.
      + exists []. split; [by rewrite app_nil_r |]. split; [constructor | done].
      + eexists [_]. split; [done |]. split; [by repeat constructor | done].
      + eexists [_; _]. split; [by rewrite <- app_assoc |].
        split; [by repeat constructor | done]. }
  unfold PullLocked.
  destruct (mPullUidProviders s !! key) as [provider |];
    [destruct (provider_promote env provider); simpl |]; [apply Huids | |];
    (eexists [_]; split; [done |]; split; [by repeat constructor | done]).
Qed.

Lemma dispatchedPulls_app (E1 E2 : list PullerEffect) :
  dispatchedPulls (E1 ++ E2) = dispatchedPulls E1 ++ dispatchedPulls E2.
Proof. apply omap_app. Qed.

Lemma expectedPulls_cons env t (key : ReceiverKey) (rs : list ReceiverInfo)
    (table : list (ReceiverKey * list ReceiverInfo)) :
  expectedPulls env t ((key, rs) :: table)
  = (if existsb (pullNecessaryNow env t) rs
     then [(atomTag key, configKey key, t)] else [])
    ++ expectedPulls env t table.
Proof. unfold expectedPulls. simpl. by destruct (existsb _ rs). Qed.

(** Both loops on the receivers of one key: the receivers they leave, the
    minimum each loop computes and the calls each loop makes. [L1] lists
    the next pull times the first loop has seen, [L2] those the second loop
    sees; [E1] are the calls of the first loop, [E2] those of the second. *)
Lemma scan_then_notify_min env t (rs : list ReceiverInfo) :
  Forall (dueReceiverAlive env t) rs →
  ∀ j m eff,
  ∃ rs1 sel m1 E1 (L1 L2 : list Z),
    scanReceiverList env t j rs m eff = Some (rs1, sel, m1, eff ++ E1)
    ∧ m1 = foldr Z.min m L1
    ∧ L1 ++ L2 ≡ₚ nextPullTimeNs <$> (advanceIfDue t <$> rs)
    ∧ Forall (wellNotified env t) E1
    ∧ dispatchedPulls E1 = []
    ∧ (0 <? Z.of_nat (length sel)) = existsb (pullNecessaryNow env t) rs
    ∧ ∀ data res (pre : list ReceiverInfo) m0 e0,
        length pre = j →
        res ≠ PULL_NOT_NEEDED →
        ∃ E2,
          (foldl (notifyReceiver env t data res) (pre ++ rs1, m0, e0) sel).1.1
          = pre ++ (advanceIfDue t <$> rs)
          ∧ (foldl (notifyReceiver env t data res) (pre ++ rs1, m0, e0) sel).1.2
            = foldr Z.min m0 L2
          ∧ (foldl (notifyReceiver env t data res) (pre ++ rs1, m0, e0) sel).2 = e0 ++ E2
          ∧ Forall (wellNotified env t) E2
          ∧ dispatchedPulls E2 = []
          ∧ notifiedReceivers E1 ++ notifiedReceivers E2
            ≡ₚ receiver <$> filter (λ r, nextPullTimeNs r <= t) rs.
Proof.
  induction 1 as [| r rs Halive _ IH]; intros j m eff.
  { exists [], [], m, [], [], []. rewrite app_nil_r.
    split; [done |]. split; [done |]. split; [done |]. split; [constructor |].
    split; [done |]. split; [done |].
    intros data res pre m0 e0 _ _. exists []. simpl. rewrite !app_nil_r.
    repeat split; done. }
  unfold dueReceiverAlive in Halive.
  rewrite !fmap_cons. unfold advanceIfDue at 1 3.
  cbn [scanReceiverList existsb]. unfold pullNecessaryNow at 1.
  destruct (Z.leb_spec (nextPullTimeNs r) t) as [Hdue | Hlater]; cbn [andb].
  - rewrite (Halive Hdue). cbn [andb]. rewrite filter_cons_True by done.
    destruct (isPullNeeded env (receiver r)) eqn:Hneeded.
    + destruct (IH (S j) m eff)
        as (rs1 & sel & m1 & E1 & L1 & L2 & -> & Hm & Hperm & Hwell & Hquiet & Hsel
            & Hfold).
      exists (r :: rs1), (j :: sel), m1, E1, L1,
             (nextPullTimeNs (advanceNextPullTime t r) :: L2).
      split; [done |]. split; [done |]. split.
      { rewrite <- Hperm. symmetry. apply Permutation_middle. }
      split; [done |]. split; [done |].
      split; [cbn [length orb]; by destruct (Z.ltb_spec 0 (Z.of_nat (S (length sel)))); [| lia] |].
      intros data res pre m0 e0 Hlen Hres.
      cbn [foldl]. rewrite <- Hlen, notifyReceiver_selected by auto.
      destruct (Hfold data res (pre ++ [advanceNextPullTime t r])
                  (Z.min (nextPullTimeNs (advanceNextPullTime t r)) m0)
                  (e0 ++ [onDataPulled (receiver r) data res t]))
        as (E2 & Hrs & Hmin & Heff & Hwell2 & Hquiet2 & Hnote); [| done |].
      { rewrite length_app. simpl. lia. }
      exists (onDataPulled (receiver r) data res t :: E2).
      rewrite Hrs, Hmin, Heff.
      split; [by rewrite <- app_assoc |]. split; [simpl; apply foldr_min_min |].
      split; [by rewrite <- app_assoc |]. split.
      * constructor; [| done]. simpl. split; [done |]. rewrite Hneeded. by split.
      * split; [done |].
        rewrite fmap_cons. simpl. rewrite <- Hnote. symmetry. apply Permutation_middle.
    + destruct (IH (S j) (Z.min (nextPullTimeNs (advanceNextPullTime t r)) m)
                  (eff ++ [onDataPulled (receiver r) [] PULL_NOT_NEEDED t]))
        as (rs1 & sel & m1 & E1 & L1 & L2 & -> & Hm & Hperm & Hwell & Hquiet & Hsel
            & Hfold).
      exists (advanceNextPullTime t r :: rs1), sel, m1,
             (onDataPulled (receiver r) [] PULL_NOT_NEEDED t :: E1),
             (nextPullTimeNs (advanceNextPullTime t r) :: L1), L2.
      split; [simpl; by rewrite <- app_assoc |].
      split; [rewrite Hm; simpl; apply foldr_min_min |].
      split; [simpl; by rewrite Hperm |]. split.
      { constructor; [| done]. simpl. split; [done |]. rewrite Hneeded. by split. }
      split; [done |]. split; [done |].
      intros data res pre m0 e0 Hlen Hres.
      rewrite (cons_middle _ pre rs1), app_assoc.
      destruct (Hfold data res (pre ++ [advanceNextPullTime t r]) m0 e0)
        as (E2 & Hrs & Hmin & Heff & Hwell2 & Hquiet2 & Hnote); [| done |].
      { rewrite length_app. simpl. lia. }
      exists E2. rewrite Hrs, Hmin, Heff.
      split; [by rewrite <- app_assoc |]. split; [done |]. split; [done |].
      split; [done |]. split; [done |]. rewrite fmap_cons. simpl. by rewrite Hnote.
  - rewrite filter_cons_False by lia.
    destruct (IH (S j) (Z.min (nextPullTimeNs r) m) eff)
      as (rs1 & sel & m1 & E1 & L1 & L2 & -> & Hm & Hperm & Hwell & Hquiet & Hsel
          & Hfold).
    exists (r :: rs1), sel, m1, E1, (nextPullTimeNs r :: L1), L2.
    split; [done |]. split; [rewrite Hm; simpl; apply foldr_min_min |].
    split; [simpl; by rewrite Hperm |]. split; [done |].
    split; [done |]. split; [done |].
    intros data res pre m0 e0 Hlen Hres.
    rewrite (cons_middle _ pre rs1), app_assoc.
    destruct (Hfold data res (pre ++ [r]) m0 e0)
      as (E2 & Hrs & Hmin & Heff & Hwell2 & Hquiet2 & Hnote); [| done |].
    { rewrite length_app. simpl. lia. }
    exists E2. rewrite Hrs, Hmin, Heff.
    split; [by rewrite <- app_assoc |]. done.
Qed.

Lemma dueReceivers_cons t (key : ReceiverKey) (rs : list ReceiverInfo) table :
  dueReceivers t ((key, rs) :: table)
  = (receiver <$> filter (λ r, nextPullTimeNs r <= t) rs) ++ dueReceivers t table.
Proof. done. Qed.

(** Both loops on the whole table. *)
Lemma scan_then_pull_min env t wall table :
  dueReceiversAlive env t table →
  ∀ i m eff,
  ∃ table1 need m1 E1 (L1 L2 : list Z),
    scanReceivers env t i table m eff = Some (table1, need, m1, eff ++ E1)
    ∧ m1 = foldr Z.min m L1
    ∧ L1 ++ L2 ≡ₚ nextPullTimes (advanceDueReceivers t table)
    ∧ Forall (wellNotified env t) E1
    ∧ dispatchedPulls E1 = []
    ∧ ∀ (pre : list (ReceiverKey * list ReceiverInfo)) s m0,
        length pre = i →
        mReceivers s = pre ++ table1 →
        ∃ E2,
          mReceivers (foldl (pullAndNotify env t wall) (s, m0) need).1
          = pre ++ advanceDueReceivers t table
          ∧ (foldl (pullAndNotify env t wall) (s, m0) need).2 = foldr Z.min m0 L2
          ∧ effects (foldl (pullAndNotify env t wall) (s, m0) need).1 = effects s ++ E2
          ∧ Forall (wellNotified env t) E2
          ∧ dispatchedPulls E2 = expectedPulls env t table
          ∧ notifiedReceivers E1 ++ notifiedReceivers E2 ≡ₚ dueReceivers t table.
Proof.
  induction 1 as [| [key rs] table Halive _ IH]; intros i m eff.
  { exists [], [], m, [], [], []. rewrite app_nil_r.
    split; [done |]. split; [done |]. split; [done |]. split; [constructor |].
    split; [done |].
    intros pre s m0 _ Hs. exists []. simpl. rewrite !app_nil_r in *.
    repeat split; done. }
  simpl in Halive. simpl scanReceivers.
  change (advanceDueReceivers t ((key, rs) :: table))
    with ((key, advanceIfDue t <$> rs) :: advanceDueReceivers t table).
  rewrite nextPullTimes_cons, dueReceivers_cons, expectedPulls_cons.
  destruct (Z.eqb_spec (Z.of_nat (length rs)) 0) as [Hempty | Hsome]; simpl.
  - assert (rs = []) as -> by (destruct rs; [done | simpl in Hempty; lia]).
    destruct (IH (S i) m eff)
      as (table1 & need & m1 & E1 & L1 & L2 & -> & Hm & Hperm & Hwell & Hquiet & Hfold).
    simpl.
    exists ((key, []) :: table1), need, m1, E1, L1, L2.
    split; [done |]. split; [done |]. split; [done |]. split; [done |].
    split; [done |].
    intros pre s m0 Hlen Hs.
    rewrite (cons_middle _ pre table1), app_assoc in Hs.
    destruct (Hfold (pre ++ [(key, [])]) s m0)
      as (E2 & Hrs & Hmin & Heff & Hwell2 & Hpulls & Hnote); [| done |].
    { rewrite length_app. simpl. lia. }
    exists E2. rewrite Hrs, Hmin, Heff.
    split; [by rewrite <- app_assoc |]. done.
  - destruct (scan_then_notify_min env t rs Halive 0%nat m eff)
      as (rs1 & sel & m1 & Ea1 & La1 & La2 & Hscan & Hm1 & Hperm1 & Hwell1 & Hquieta
          & Hsel' & Hnotify).
    rewrite Hscan. simpl. rewrite <- Hsel'.
    destruct (IH (S i) m1 (eff ++ Ea1))
      as (table1 & need & m2 & Eb1 & Lb1 & Lb2 & -> & Hm2 & Hperm2 & Hwellb & Hquietb
          & Hfold).
    simpl.
    eexists ((key, rs1) :: table1), _, m2, (Ea1 ++ Eb1), (Lb1 ++ La1), (Lb2 ++ La2).
    split; [by rewrite app_assoc |].
    split; [by rewrite foldr_app, <- Hm1 |].
    split; [rewrite <- Hperm1, <- Hperm2; apply four_lists_perm |].
    split; [by apply Forall_app |].
    split; [by rewrite dispatchedPulls_app, Hquieta, Hquietb |].
    intros pre s m0 Hlen Hs. rewrite foldr_app.
    destruct (Z.ltb_spec 0 (Z.of_nat (length sel))) as [Hsel | Hnosel].
    + cbn [foldl]. unfold pullAndNotify at 2 4 6. cbn [fst snd].
      rewrite Hs, (list_lookup_middle pre table1 (key, rs1) i) by done.
      pose proof (PullLocked_mReceivers env (atomTag key) (configKey key) t
                    (emit (PullLocked_called (atomTag key) (configKey key) t) s))
        as Hkeep.
      destruct (PullLocked_notes env (atomTag key) (configKey key) t
                  (emit (PullLocked_called (atomTag key) (configKey key) t) s))
        as (notes & Hnotes & Hquiet & Hnopull).
      destruct (PullLocked env (atomTag key) (configKey key) t
                  (emit (PullLocked_called (atomTag key) (configKey key) t) s))
        as [[s' ok] data]. simpl in Hkeep, Hnotes.
      destruct (Hnotify (stampPulledEvent t wall <$> data)
                  (if ok then PULL_RESULT_SUCCESS else PULL_RESULT_FAIL)
                  [] m0 (effects s') eq_refl ltac:(by destruct ok))
        as (Ea2 & Hrs & Hmin & Heff & Hwella & Hquieta2 & Hnotea).
      simpl in Hrs, Hmin, Heff.
      destruct (foldl _ (rs1, m0, effects s') sel) as [[rs2 m3] eff3].
      simpl in Hrs, Hmin, Heff. subst rs2 m3 eff3.
      match goal with
      | |- context [foldl _ (?s3, ?m3) need] =>
        destruct (Hfold (pre ++ [(key, advanceIfDue t <$> rs)]) s3 m3)
          as (Eb2 & Hrs' & Hmin' & Heff' & Hwellb2 & Hpullsb & Hnoteb)
      end.
      * rewrite length_app. simpl. lia.
      * simpl. rewrite Hkeep. simpl. rewrite Hs.
        rewrite <- Hlen, <- (Nat.add_0_r (length pre)), insert_app_r.
        by rewrite <- app_assoc.
      * destruct (notes_not_notified env t
                    (PullLocked_called (atomTag key) (configKey key) t :: notes))
          as [Hnone Hwelln]; [by constructor |].
        exists ((PullLocked_called (atomTag key) (configKey key) t :: notes)
                ++ Ea2 ++ Eb2).
        rewrite Hrs', Hmin', Heff'. cbn [effects set_effects]. rewrite Hnotes.
        split; [by rewrite <- app_assoc |]. split; [done |].
        split; [by rewrite <- !app_assoc |].
        split; [apply Forall_app; split; [done | by apply Forall_app] |].
        split.
        { rewrite !dispatchedPulls_app, Hquieta2, Hpullsb. simpl.
          by rewrite Hnopull. }
        rewrite !notifiedReceivers_app, Hnone. cbn [app].
        rewrite <- Hnotea, <- Hnoteb. apply two_by_two_perm.
    + assert (sel = []) as -> by (destruct sel; [done | simpl in Hnosel; lia]).
      destruct (Hnotify [] PULL_RESULT_FAIL [] m0 [] eq_refl ltac:(done))
        as (Ea2 & Hrs & Hmin & Heff & Hwella & Hquieta2 & Hnotea).
      simpl in Hrs, Hmin, Heff. subst rs1 Ea2. rewrite <- Hmin.
      destruct (Hfold (pre ++ [(key, advanceIfDue t <$> rs)]) s m0)
        as (Eb2 & Hrs' & Hmin' & Heff' & Hwellb2 & Hpullsb & Hnoteb).
      * rewrite length_app. simpl. lia.
      * by rewrite Hs, <- app_assoc.
      * exists Eb2. rewrite Hrs', Hmin', Heff'.
        split; [by rewrite <- app_assoc |]. split; [done |]. split; [done |].
        split; [done |]. split; [done |]. simpl in Hnotea. rewrite app_nil_r in Hnotea.
        rewrite notifiedReceivers_app, <- Hnotea, <- Hnoteb.
        by rewrite <- app_assoc.
Qed.

Lemma updateAlarmLocked_effects s :
  effects (updateAlarmLocked s)
  = effects s
    ++ (if negb (mNextPullTimeNs s =? NO_ALARM_UPDATE) && mStatsCompanionService s
        then [setPullingAlarm (Int64.div (mNextPullTimeNs s) 1000000)] else []).
Proof.
  unfold updateAlarmLocked.
  destruct (mNextPullTimeNs s =? NO_ALARM_UPDATE); simpl; [by rewrite app_nil_r |].
  destruct (mStatsCompanionService s); simpl; [done | by rewrite app_nil_r].
Qed.

(** The first loop returns only when every due receiver still promotes. *)
Lemma scanReceiverList_alive env t (rs : list ReceiverInfo) j m eff :
  is_Some (scanReceiverList env t j rs m eff) → Forall (dueReceiverAlive env t) rs.
Proof.
  revert j m eff. induction rs as [| r rs IH]; intros j m eff; [constructor |].
  cbn [scanReceiverList]. unfold dueReceiverAlive at 1.
  destruct (Z.leb_spec (nextPullTimeNs r) t) as [Hdue | Hlater]; cbn [andb].
  - destruct (receiver_promote env (receiver r)) eqn:Hpromote; cbn [andb].
    + destruct (isPullNeeded env (receiver r)).
      * destruct (scanReceiverList env t (S j) rs m eff) eqn:Hrest;
          [| by intros [? ?]].
        intros _. constructor; [done |]. apply (IH (S j) m eff). by rewrite Hrest.
      * destruct (scanReceiverList env t (S j) rs _ _) eqn:Hrest; [| by intros [? ?]].
        intros _. constructor; [done |]. eapply IH. by rewrite Hrest.
    + by intros [? ?].
  - destruct (scanReceiverList env t (S j) rs _ _) eqn:Hrest; [| by intros [? ?]].
    intros _. constructor; [intros; lia |]. eapply IH. by rewrite Hrest.
Qed.

Lemma scanReceivers_alive env t table i m eff :
  is_Some (scanReceivers env t i table m eff) → dueReceiversAlive env t table.
Proof.
  revert i m eff. induction table as [| [key rs] table IH]; intros i m eff; [constructor |].
  cbn [scanReceivers].
  destruct (Z.eqb_spec (Z.of_nat (length rs)) 0) as [Hempty | Hsome]; cbn [negb].
  - assert (rs = []) as -> by (destruct rs; [done | simpl in Hempty; lia]).
    destruct (scanReceivers env t (S i) table m eff) eqn:Hrest; [| by intros [? ?]].
    intros _. constructor; [constructor |]. eapply IH. by rewrite Hrest.
  - destruct (scanReceiverList env t 0 rs m eff) as [[[[rs1 sel] m1] eff1] |] eqn:Hscan;
      [| by intros [? ?]].
    cbn [mbind option_bind].
    destruct (scanReceivers env t (S i) table m1 eff1) eqn:Hrest; [| by intros [? ?]].
    intros _. constructor.
    + simpl. eapply scanReceiverList_alive. by rewrite Hscan.
    + eapply IH. by rewrite Hrest.
Qed.

(** What a call with every due receiver alive has done when it returns. *)
Lemma OnAlarmFired_dispatch env t s :
  dueReceiversAlive env t (mReceivers s) →
  ∃ s1 dispatched,
    OnAlarmFired env t s = Some s1
    ∧ mReceivers s1 = advanceDueReceivers t (mReceivers s)
    ∧ effects s1 = effects s ++ dispatched
    ∧ dispatchedPulls dispatched = expectedPulls env t (mReceivers s)
    ∧ notifiedReceivers dispatched ≡ₚ dueReceivers t (mReceivers s).
Proof.
  intros Halive. unfold OnAlarmFired.
  destruct (scan_then_pull_min env t (getWallClockNs env) (mReceivers s) Halive
              0%nat NO_ALARM_UPDATE (effects s))
    as (table1 & need & m1 & E1 & L1 & L2 & -> & _ & _ & _ & Hquiet & Hfold). simpl.
  destruct (Hfold [] (set_effects (effects s ++ E1) (set_mReceivers table1 s)) m1
              eq_refl eq_refl) as (E2 & Hrs & _ & Heff & _ & Hpulls & Hnote).
  destruct (foldl _ _ need) as [s2 m2]. simpl in Hrs, Heff.
  eexists _, _. split; [done |].
  destruct (updateAlarmLocked_frame (set_mNextPullTimeNs m2 s2)) as (-> & _).
  rewrite updateAlarmLocked_effects. simpl. rewrite Heff, <- !app_assoc.
  split; [done |]. split; [done |].
  match goal with
  | |- context [if ?c then ?x else ?y] => set (alarm := if c then x else y)
  end.
  assert (Halarm : dispatchedPulls alarm = [] ∧ notifiedReceivers alarm = [])
    by (unfold alarm; by case_match).
  destruct Halarm as [Hnopull Hnonote].
  rewrite !dispatchedPulls_app, !notifiedReceivers_app, Hquiet, Hpulls, Hnopull, Hnonote.
  by rewrite !app_nil_r.
Qed.

Lemma OnAlarmFired_Some_alive env t s :
  is_Some (OnAlarmFired env t s) → dueReceiversAlive env t (mReceivers s).
Proof.
  unfold OnAlarmFired. intros Hsome.
  apply (scanReceivers_alive env t (mReceivers s) 0%nat NO_ALARM_UPDATE (effects s)).
  destruct (scanReceivers _ _ _ _ _ _); [done |]. by destruct Hsome.
Qed.

End AlarmProofs.

(** C7: when every due receiver still promotes, [OnAlarmFired t] returns:
    it has dispatched one pull for every key with a due receiver that needs
    it, has told every due receiver once, and has moved every due receiver
    by a whole number of intervals, so that every receiver's next pull time
    is strictly after [t]. A second call at the same [t], in whatever
    environment, then dispatches no pull and hands no data to any receiver,
    and leaves the table as it is. The intervals and times are assumed in
    range. When a due receiver no longer promotes, the call does not return:
    its first loop calls [onDataPulled] through the null pointer, where the
    second loop of the same function tests the pointer first. *)
Theorem C7_pull_rotation_idempotent :
  (∀ (env env' : Environment) (t : Z) (s : StatsPullerManager),
     receiversInRange t (mReceivers s) →
     dueReceiversAlive env t (mReceivers s) →
     ∃ s1 s2 dispatched added,
       OnAlarmFired env t s = Some s1
       ∧ mReceivers s1 = advanceDueReceivers t (mReceivers s)
       ∧ effects s1 = effects s ++ dispatched
       ∧ dispatchedPulls dispatched = expectedPulls env t (mReceivers s)
       ∧ notifiedReceivers dispatched ≡ₚ dueReceivers t (mReceivers s)
       ∧ Forall (λ entry : ReceiverKey * list ReceiverInfo,
                   Forall (λ r, t < nextPullTimeNs r) entry.2) (mReceivers s1)
       ∧ OnAlarmFired env' t s1 = Some s2
       ∧ mReceivers s2 = mReceivers s1
       ∧ effects s2 = effects s1 ++ added
       ∧ Forall (λ e, isPull e = false ∧ isDataPulled e = false) added)
  ∧ (∀ (env : Environment) (t : Z) (s : StatsPullerManager),
       ¬ dueReceiversAlive env t (mReceivers s) → OnAlarmFired env t s = None)
  ∧ OnAlarmFired exampleGoneEnvironment (65 * NS_PER_SEC) exampleManager = None.
Proof.
  split; [| split].
  - intros env env' t s Hrange Halive.
    destruct (OnAlarmFired_dispatch env t s Halive)
      as (s1 & dispatched & Hfirst & Htable & Heff & Hpulls & Hnotified).
    assert (Hlater : Forall (λ entry : ReceiverKey * list ReceiverInfo,
                               Forall (λ r, t < nextPullTimeNs r) entry.2)
                       (mReceivers s1)).
    { rewrite Htable. by apply advanceDueReceivers_past. }
    destruct (OnAlarmFired_none_due env' t s1 Hlater)
      as (s2 & added & Hsecond & Hsame & Heff2 & Hnone).
    by exists s1, s2, dispatched, added.
  - intros env t s Hgone.
    destruct (OnAlarmFired env t s) as [s1 |] eqn:Hcall; [| done].
    destruct Hgone. apply OnAlarmFired_Some_alive. by rewrite Hcall.
  - by vm_compute.
Qed.

Lemma C7_pull_rotation_idempotent_witness :
  receiversInRange (65 * NS_PER_SEC) (mReceivers exampleManager)
  ∧ dueReceiversAlive exampleEnvironment (65 * NS_PER_SEC) (mReceivers exampleManager)
  ∧ advanceDueReceivers (65 * NS_PER_SEC) (mReceivers exampleManager)
    = [({| atomTag := 10001; configKey := (0, 12345) |},
        [set_nextPullTimeNs (120 * NS_PER_SEC) exampleReceiver])]
  ∧ expectedPulls exampleEnvironment (65 * NS_PER_SEC) (mReceivers exampleManager)
    = [(10001, (0, 12345), 65 * NS_PER_SEC)]
  ∧ ∃ s1 s2 dispatched added,
      OnAlarmFired exampleEnvironment (65 * NS_PER_SEC) exampleManager = Some s1
      ∧ mReceivers s1 = advanceDueReceivers (65 * NS_PER_SEC) (mReceivers exampleManager)
      ∧ effects s1 = effects exampleManager ++ dispatched
      ∧ dispatchedPulls dispatched
        = expectedPulls exampleEnvironment (65 * NS_PER_SEC) (mReceivers exampleManager)
      ∧ notifiedReceivers dispatched
        ≡ₚ dueReceivers (65 * NS_PER_SEC) (mReceivers exampleManager)
      ∧ Forall (λ entry : ReceiverKey * list ReceiverInfo,
                  Forall (λ r, 65 * NS_PER_SEC < nextPullTimeNs r) entry.2) (mReceivers s1)
      ∧ OnAlarmFired exampleEnvironment (65 * NS_PER_SEC) s1 = Some s2
      ∧ mReceivers s2 = mReceivers s1
      ∧ effects s2 = effects s1 ++ added
      ∧ Forall (λ e, isPull e = false ∧ isDataPulled e = false) added.
Proof.
  assert (Hrange : receiversInRange (65 * NS_PER_SEC) (mReceivers exampleManager))
    by (repeat constructor; by vm_compute).
  assert (Halive : dueReceiversAlive exampleEnvironment (65 * NS_PER_SEC)
                     (mReceivers exampleManager))
    by (repeat constructor).
  split; [exact Hrange |]. split; [exact Halive |].
  split; [by vm_compute |]. split; [by vm_compute |].
  exact (proj1 C7_pull_rotation_idempotent exampleEnvironment exampleEnvironment
           (65 * NS_PER_SEC) exampleManager Hrange Halive).
Defined.

(** X22: [OnAlarmFired] returns exactly when every due receiver still
    promotes; a due receiver that is gone makes the first loop call
    [onDataPulled] through a null pointer. *)
Theorem OnAlarmFired_returns_iff (env : Environment) (elapsedTimeNs : Z)
    (s : StatsPullerManager) :
  is_Some (OnAlarmFired env elapsedTimeNs s)
  ↔ dueReceiversAlive env elapsedTimeNs (mReceivers s).
Proof.
  split.
  - unfold OnAlarmFired. intros Hsome.
    apply (scanReceivers_alive env elapsedTimeNs (mReceivers s) 0%nat NO_ALARM_UPDATE
             (effects s)).
    destruct (scanReceivers _ _ _ _ _ _); [done |]. by destruct Hsome.
  - intros Halive.
    destruct (OnAlarmFired_receivers env elapsedTimeNs s Halive) as (s' & -> & _). done.
Qed.

(** X23: after [OnAlarmFired] the alarm time is the earliest next pull time
    of all registered receivers, [NO_ALARM_UPDATE] when there is none; and
    the last thing the call does, when there is a receiver and the
    companion service is set, is to set the alarm to that time in
    milliseconds. *)
Theorem OnAlarmFired_sets_earliest_alarm (env : Environment) (elapsedTimeNs : Z)
    (s : StatsPullerManager)
    (Halive : dueReceiversAlive env elapsedTimeNs (mReceivers s)) :
  ∃ s', OnAlarmFired env elapsedTimeNs s = Some s'
        ∧ mNextPullTimeNs s' = earliestNextPullTime (mReceivers s')
        ∧ alarmNotLate s'
        ∧ ∃ before,
            effects s'
            = before
              ++ (if negb (mNextPullTimeNs s' =? NO_ALARM_UPDATE)
                     && mStatsCompanionService s'
                  then [setPullingAlarm (Int64.div (mNextPullTimeNs s') 1000000)]
                  else []).
Proof.
  unfold OnAlarmFired.
  destruct (scan_then_pull_min env elapsedTimeNs (getWallClockNs env) (mReceivers s) Halive
              0%nat NO_ALARM_UPDATE (effects s))
    as (table1 & need & m1 & E1 & L1 & L2 & -> & Hm & Hperm & _ & _ & Hfold). simpl.
  destruct (Hfold [] (set_effects (effects s ++ E1) (set_mReceivers table1 s)) m1
              eq_refl eq_refl) as (E2 & Hrs & Hmin & _).
  destruct (foldl _ _ need) as [s2 m2]. simpl in Hrs, Hmin.
  eexists. split; [done |].
  destruct (updateAlarmLocked_frame (set_mNextPullTimeNs m2 s2))
    as (Htable & Hnext & _ & _ & Hservice).
  assert (Hearliest : m2 = earliestNextPullTime (advanceDueReceivers elapsedTimeNs
                                                   (mReceivers s))).
  { unfold earliestNextPullTime. rewrite <- (foldr_min_perm _ _ _ Hperm).
    rewrite Hmin, Hm, <- foldr_app. apply foldr_min_perm, Permutation_app_comm. }
  rewrite Htable, Hnext. simpl. rewrite Hrs.
  split; [done |]. split.
  - unfold alarmNotLate. rewrite Htable, Hnext. simpl. rewrite Hrs, Hearliest.
    unfold earliestNextPullTime. apply Forall_forall.
    generalize (nextPullTimes (advanceDueReceivers elapsedTimeNs (mReceivers s))).
    intros L x Hx. induction L as [| y L IH]; [by apply elem_of_nil in Hx |].
    simpl. apply elem_of_cons in Hx as [-> | Hx]; [lia |]. specialize (IH Hx). lia.
  - exists (effects s2). rewrite updateAlarmLocked_effects. simpl.
    by rewrite Hservice.
Qed.

Lemma OnAlarmFired_sets_earliest_alarm_witness :
  ∃ s', OnAlarmFired exampleEnvironment (130 * NS_PER_SEC) exampleManager = Some s'
        ∧ mNextPullTimeNs s' = earliestNextPullTime (mReceivers s').
Proof.
  destruct (OnAlarmFired_sets_earliest_alarm exampleEnvironment (130 * NS_PER_SEC)
              exampleManager) as (s' & Hs' & Hnext & _).
  - repeat constructor.
  - exists s'. split; [exact Hs' | exact Hnext].
Defined.



(** ** Pulls, pullers and uid providers *)

Section PullOutcomeProofs.

Implicit Types (env : Environment) (s : StatsPullerManager).

(** The notes a failed pull leaves with [StatsdStats]. *)
Lemma PullLocked_uids_outcome env tag uids t s :
  let r := PullLocked_uids env tag uids t s in
  mReceivers r.1.1 = mReceivers s
  ∧ mNextPullTimeNs r.1.1 = mNextPullTimeNs s
  ∧ mPullUidProviders r.1.1 = mPullUidProviders s
  ∧ mStatsCompanionService r.1.1 = mStatsCompanionService s
  ∧ kAllPullAtomInfo r.1.1 ⊆ kAllPullAtomInfo s
  ∧ (r.1.2 = true → r.1.1 = s)
  ∧ (r.1.2 = false →
     ∃ rest, effects r.1.1 = effects s ++ notePullerNotFound tag :: rest
             ∨ effects r.1.1 = effects s ++ notePullFailed tag :: rest).
Proof.
  cbv zeta. induction uids as [| uid uids IH]; simpl.
  - repeat split; try done. intros _. exists []. by left.
  - destruct (kAllPullAtomInfo s !! (uid, tag)) as [puller |]; [| exact IH].
    destruct (puller_Pull env puller t) as [[] data]; simpl.
    + repeat split; done.
    + repeat split; try done. intros _. exists []. by right.
    + repeat split; try done; [apply delete_subseteq |].
      intros _. eexists. right. by rewrite <- app_assoc.
Qed.

End PullOutcomeProofs.

(** X24: what a pull may change. A pull never touches the receivers, the
    alarm time or the uid providers, and never adds a puller. A successful
    pull leaves the manager exactly as it was. A failed pull always leaves
    a note with [StatsdStats]: no uid provider, no puller, or a failed
    pull. *)
Theorem PullLocked_outcome (env : Environment) (tagId : Z) (configKey : Z * Z)
    (eventTimeNs : Z) (s : StatsPullerManager) :
  let r := PullLocked env tagId configKey eventTimeNs s in
  mReceivers r.1.1 = mReceivers s
  ∧ mNextPullTimeNs r.1.1 = mNextPullTimeNs s
  ∧ mPullUidProviders r.1.1 = mPullUidProviders s
  ∧ kAllPullAtomInfo r.1.1 ⊆ kAllPullAtomInfo s
  ∧ (r.1.2 = true → r.1.1 = s)
  ∧ (r.1.2 = false →
     ∃ note rest,
       effects r.1.1 = effects s ++ note :: rest
       ∧ note ∈ [notePullUidProviderNotFound tagId; notePullerNotFound tagId;
                 notePullFailed tagId]).
Proof.
  cbv zeta. unfold PullLocked.
  assert (Hmissing :
    let r := (emit (notePullUidProviderNotFound tagId) s, false, @nil PulledEvent) in
    mReceivers r.1.1 = mReceivers s
    ∧ mNextPullTimeNs r.1.1 = mNextPullTimeNs s
    ∧ mPullUidProviders r.1.1 = mPullUidProviders s
    ∧ kAllPullAtomInfo r.1.1 ⊆ kAllPullAtomInfo s
    ∧ (r.1.2 = true → r.1.1 = s)
    ∧ (r.1.2 = false →
       ∃ note rest,
         effects r.1.1 = effects s ++ note :: rest
         ∧ note ∈ [notePullUidProviderNotFound tagId; notePullerNotFound tagId;
                   notePullFailed tagId])).
  { simpl. repeat split; try done. intros _. eexists _, []. split; [done |].
    apply list_elem_of_here. }
  destruct (mPullUidProviders s !! configKey) as [provider |]; [| exact Hmissing].
  destruct (provider_promote env provider); simpl; [| exact Hmissing].
  destruct (PullLocked_uids_outcome env tagId (getPullAtomUids env provider tagId)
              eventTimeNs s) as (Hr & Hn & Hp & _ & Hk & Hok & Hfail).
  repeat split; try done. intros Hfalse.
  destruct (Hfail Hfalse) as [rest [Heff | Heff]]; eexists _, rest; (split; [exact Heff |]).
  - apply list_elem_of_further, list_elem_of_here.
  - do 2 apply list_elem_of_further. apply list_elem_of_here.
Qed.

(** X25: a pull that finds the process of the puller dead fails, notes the
    failure and the lost registration, and leaves the pullers as
    [UnregisterPullAtomCallback] would: the next pull for the same uid finds
    no puller. *)
Theorem dead_puller_is_unregistered (env : Environment) (tagId uid : Z) (uids : list Z)
    (eventTimeNs : Z) (s : StatsPullerManager) (puller : Z) (data : list PulledEvent)
    (Hregistered : kAllPullAtomInfo s !! (uid, tagId) = Some puller)
    (Hdead : puller_Pull env puller eventTimeNs = (PULL_DEAD_OBJECT, data)) :
  let r := PullLocked_uids env tagId (uid :: uids) eventTimeNs s in
  r.1.2 = false
  ∧ kAllPullAtomInfo r.1.1 = kAllPullAtomInfo (UnregisterPullAtomCallback uid tagId s)
  ∧ effects r.1.1
    = effects s ++ [notePullFailed tagId;
                    notePullerCallbackRegistrationChanged tagId false]
  ∧ ∀ env' t,
      PullLocked_uids env' tagId [uid] t r.1.1
      = (emit (notePullerNotFound tagId) r.1.1, false, []).
Proof.
  cbv zeta.
  assert (Hr : PullLocked_uids env tagId (uid :: uids) eventTimeNs s
               = (set_kAllPullAtomInfo (delete (uid, tagId) (kAllPullAtomInfo s))
                    (emit (notePullerCallbackRegistrationChanged tagId false)
                       (emit (notePullFailed tagId) s)), false, data)).
  { cbn [PullLocked_uids]. by rewrite Hregistered, Hdead. }
  rewrite Hr. cbn [fst snd]. unfold UnregisterPullAtomCallback.
  rewrite bool_decide_eq_true_2 by eauto.
  split; [done |]. split; [done |]. split; [simpl; by rewrite <- app_assoc |].
  intros env' t. cbn [PullLocked_uids]. simpl. by rewrite lookup_delete_eq.
Qed.

Lemma dead_puller_is_unregistered_witness :
  kAllPullAtomInfo
    (PullLocked_uids exampleDeadEnvironment 10001 [1000] (60 * NS_PER_SEC) exampleManager).1.1
  = kAllPullAtomInfo (UnregisterPullAtomCallback 1000 10001 exampleManager).
Proof.
  apply (dead_puller_is_unregistered exampleDeadEnvironment 10001 1000 [] (60 * NS_PER_SEC)
           exampleManager 1 []); reflexivity.
Defined.

(** X26: registering a callback makes it the puller of its uid and atom: a
    pull that reaches the uid asks the new puller, whatever was registered
    before. Unregistering it again leaves the pullers without an entry for
    the uid and atom; when there was none before, the pullers are as
    before and the two calls leave one note each. A null callback
    registers nothing. *)
Theorem RegisterPullAtomCallback_registers (env : Environment) (uid atomTag : Z)
    (callback : Z) (uids : list Z) (eventTimeNs : Z) (s : StatsPullerManager) :
  let s1 := RegisterPullAtomCallback uid atomTag (Some callback) s in
  let r := PullLocked_uids env atomTag (uid :: uids) eventTimeNs s1 in
  let s2 := UnregisterPullAtomCallback uid atomTag s1 in
  r.2 = (puller_Pull env callback eventTimeNs).2
  ∧ r.1.2 = bool_decide ((puller_Pull env callback eventTimeNs).1 = PULL_SUCCESS)
  ∧ kAllPullAtomInfo s2 = delete (uid, atomTag) (kAllPullAtomInfo s)
  ∧ (kAllPullAtomInfo s !! (uid, atomTag) = None →
     kAllPullAtomInfo s2 = kAllPullAtomInfo s
     ∧ effects s2
       = effects s ++ [notePullerCallbackRegistrationChanged atomTag true;
                       notePullerCallbackRegistrationChanged atomTag false])
  ∧ RegisterPullAtomCallback uid atomTag None s = s.
Proof.
  cbv zeta.
  assert (Hlookup : kAllPullAtomInfo (RegisterPullAtomCallback uid atomTag (Some callback) s)
                    !! (uid, atomTag) = Some callback).
  { unfold RegisterPullAtomCallback. simpl. case_bool_decide; simpl;
      by rewrite lookup_insert_eq. }
  assert (Hmap : kAllPullAtomInfo (RegisterPullAtomCallback uid atomTag (Some callback) s)
                 = <[(uid, atomTag) := callback]> (kAllPullAtomInfo s)).
  { unfold RegisterPullAtomCallback. simpl. by case_bool_decide. }
  split; [| split; [| split; [| split]]].
  - cbn [PullLocked_uids]. rewrite Hlookup.
    by destruct (puller_Pull env callback eventTimeNs).
  - cbn [PullLocked_uids]. rewrite Hlookup.
    by destruct (puller_Pull env callback eventTimeNs).
  - unfold UnregisterPullAtomCallback. rewrite Hlookup.
    rewrite bool_decide_eq_true_2 by eauto.
    cbn [kAllPullAtomInfo set_kAllPullAtomInfo]. rewrite Hmap.
    apply delete_insert_eq.
  - intros Hnone.
    assert (Heff : effects (RegisterPullAtomCallback uid atomTag (Some callback) s)
                   = effects s ++ [notePullerCallbackRegistrationChanged atomTag true]).
    { unfold RegisterPullAtomCallback. cbv zeta.
      by rewrite bool_decide_eq_false_2 by (rewrite Hnone; by intros [? ?]). }
    unfold UnregisterPullAtomCallback. rewrite Hlookup.
    rewrite bool_decide_eq_true_2 by eauto.
    cbn [kAllPullAtomInfo effects set_kAllPullAtomInfo emit set_effects].
    rewrite Hmap, Heff. split.
    + rewrite delete_insert_eq. by apply delete_id.
    + by rewrite <- app_assoc.
  - done.
Qed.

(** X27: the uid provider of a configuration. After
    [RegisterPullUidProvider] a pull for the configuration asks the new
    provider for the uids, or notes that the provider is gone when it no
    longer promotes. [UnregisterPullUidProvider] with another provider than
    the registered one changes nothing; with the registered one it removes
    the entry, and a pull for the configuration then fails with the note
    that there is no provider. *)
Theorem PullUidProvider_registration (env : Environment) (tagId : Z) (configKey : Z * Z)
    (eventTimeNs : Z) (provider other : Z) (s : StatsPullerManager) :
  let s1 := RegisterPullUidProvider configKey provider s in
  let s2 := UnregisterPullUidProvider configKey provider s1 in
  PullLocked env tagId configKey eventTimeNs s1
  = (if provider_promote env provider
     then PullLocked_uids env tagId (getPullAtomUids env provider tagId) eventTimeNs s1
     else (emit (notePullUidProviderNotFound tagId) s1, false, []))
  ∧ (other ≠ provider → UnregisterPullUidProvider configKey other s1 = s1)
  ∧ mPullUidProviders s2 = delete configKey (mPullUidProviders s)
  ∧ PullLocked env tagId configKey eventTimeNs s2
    = (emit (notePullUidProviderNotFound tagId) s2, false, []).
Proof.
  cbv zeta.
  assert (Hlookup : mPullUidProviders (RegisterPullUidProvider configKey provider s)
                    !! configKey = Some provider)
    by (simpl; apply lookup_insert_eq).
  assert (Hs2 : mPullUidProviders
                  (UnregisterPullUidProvider configKey provider
                     (RegisterPullUidProvider configKey provider s))
                = delete configKey (mPullUidProviders s)).
  { unfold UnregisterPullUidProvider. rewrite Hlookup.
    rewrite bool_decide_eq_true_2 by done. simpl. apply delete_insert_eq. }
  split; [| split; [| split]].
  - unfold PullLocked. rewrite Hlookup. by destruct (provider_promote env provider).
  - intros Hother. unfold UnregisterPullUidProvider. rewrite Hlookup.
    by rewrite bool_decide_eq_false_2 by congruence.
  - exact Hs2.
  - unfold PullLocked. by rewrite Hs2, lookup_delete_eq.
Qed.

(** X28: the alarm follows the schedule. [SetStatsCompanionService] and
    [RegisterReceiver] set the alarm at most once, and only to the alarm
    time the manager then holds, in milliseconds, while the companion
    service is set and a pull is scheduled. *)
Theorem alarm_follows_schedule (s : StatsPullerManager) (statsCompanionService : bool)
    (tagId : Z) (configKey : Z * Z) (receiver nextPullTimeNs intervalNs : Z)
    (Hnext : mNextPullTimeNs s <= NO_ALARM_UPDATE) :
  ∀ s',
    s' = SetStatsCompanionService statsCompanionService s
    ∨ s' = RegisterReceiver tagId configKey receiver nextPullTimeNs intervalNs s →
    effects s' = effects s
    ∨ (effects s'
       = effects s ++ [setPullingAlarm (Int64.div (mNextPullTimeNs s') 1000000)]
       ∧ mStatsCompanionService s' = true
       ∧ mNextPullTimeNs s' < NO_ALARM_UPDATE).
Proof.
  assert (Halarm : ∀ s0, mNextPullTimeNs s0 <= NO_ALARM_UPDATE →
            effects (updateAlarmLocked s0) = effects s0
            ∨ (effects (updateAlarmLocked s0)
               = effects s0
                 ++ [setPullingAlarm
                       (Int64.div (mNextPullTimeNs (updateAlarmLocked s0)) 1000000)]
               ∧ mStatsCompanionService (updateAlarmLocked s0) = true
               ∧ mNextPullTimeNs (updateAlarmLocked s0) < NO_ALARM_UPDATE)).
  { intros s0 Hle.
    destruct (updateAlarmLocked_frame s0) as (_ & Hn & _ & _ & Hservice).
    rewrite updateAlarmLocked_effects, Hn, Hservice.
    destruct (Z.eqb_spec (mNextPullTimeNs s0) NO_ALARM_UPDATE); simpl;
      [left; by rewrite app_nil_r |].
    destruct (mStatsCompanionService s0); [right | left; by rewrite app_nil_r].
    split; [done |]. split; [done | lia]. }
  intros s' [-> | ->].
  - unfold SetStatsCompanionService. simpl.
    destruct statsCompanionService; [| by left].
    apply (Halarm (set_mStatsCompanionService true s)). done.
  - unfold RegisterReceiver.
    destruct (registerInTable _ _ _) as [table |]; [| by left]. simpl.
    destruct (Z.ltb_spec nextPullTimeNs (mNextPullTimeNs s)); [| by left].
    apply (Halarm (set_mNextPullTimeNs nextPullTimeNs (set_mReceivers table s))).
    simpl. lia.
Qed.

Lemma alarm_follows_schedule_witness :
  effects (RegisterReceiver 10001 (0, 12345) 2 (30 * NS_PER_SEC) (90 * NS_PER_SEC)
             exampleManager)
  = [setPullingAlarm 30000].
Proof.
  destruct (alarm_follows_schedule exampleManager true 10001 (0, 12345) 2
              (30 * NS_PER_SEC) (90 * NS_PER_SEC) ltac:(by vm_compute)
              (RegisterReceiver 10001 (0, 12345) 2 (30 * NS_PER_SEC) (90 * NS_PER_SEC)
                 exampleManager) (or_intror eq_refl)) as [Hsame | (Halarm & _ & _)].
  - vm_compute in Hsame. discriminate Hsame.
  - exact Halarm.
Defined.

(** ** Condition changes *)

(** X29: a condition change takes effect on the next event. After
    [onConditionChangedLocked] the condition is true or false, never
    unknown. For a metric whose condition is not sliced, an event then
    reaches the count update iff the condition was met and the event passes
    the other checks, which the change does not affect; for a metric with a
    sliced condition the change has no influence on what is counted. The
    change itself touches no counter, no past bucket and no activation, and
    the condition timer hears of it only while the metric is active. *)
Theorem onConditionChangedLocked_gates_counting `{Collaborators}
    (p : CountMetricProducer) (conditionMet : bool) (eventTime : Z) :
  let p' := onConditionChangedLocked conditionMet eventTime p in
  mCondition p' = (if conditionMet then kTrue else kFalse)
  ∧ (mConditionSliced p = false →
     ∀ event,
       reachesCountUpdate p' event
       = mIsActive p && (mTimeBaseNs p <=? GetElapsedTimestampNs event)
         && passesSampleCheckLocked event p && conditionMet)
  ∧ (mConditionSliced p = true →
     ∀ event, reachesCountUpdate p' event = reachesCountUpdate p event)
  ∧ (∀ key, droppedByGuardrail p' key = droppedByGuardrail p key)
  ∧ mCurrentSlicedCounter p' = mCurrentSlicedCounter p
  ∧ mPastBuckets p' = mPastBuckets p
  ∧ mEventActivationMap p' = mEventActivationMap p
  ∧ mIsActive p' = mIsActive p
  ∧ (mIsActive p = false → mConditionTimer p' = mConditionTimer p)
  ∧ (mIsActive p = true →
     mConditionTimer p'
     = ConditionTimer_onConditionChanged (mConditionTimer p) conditionMet eventTime).
Proof.
  cbv zeta. unfold onConditionChangedLocked.
  assert (Hkind : ∀ q : CountMetricProducer,
            mCondition q = (if conditionMet then kTrue else kFalse) →
            mConditionSliced q = mConditionSliced p →
            mIsActive q = mIsActive p →
            mTimeBaseNs q = mTimeBaseNs p →
            mShardCount q = mShardCount p →
            mSampledWhatFields q = mSampledWhatFields p →
            (mConditionSliced p = false →
             ∀ event,
               reachesCountUpdate q event
               = mIsActive p && (mTimeBaseNs p <=? GetElapsedTimestampNs event)
                 && passesSampleCheckLocked event p && conditionMet)
            ∧ (mConditionSliced p = true →
               ∀ event, reachesCountUpdate q event = reachesCountUpdate p event)).
  { intros q Hc Hs Ha Hb Hn Hf.
    unfold reachesCountUpdate, eventCondition, passesSampleCheckLocked.
    rewrite Hc, Hs, Ha, Hb, Hn, Hf. split; intros -> event; [| done].
    by destruct conditionMet. }
  assert (Hdrop : ∀ q : CountMetricProducer,
            mCurrentSlicedCounter q = mCurrentSlicedCounter p →
            mDimensionHardLimit q = mDimensionHardLimit p →
            ∀ key, droppedByGuardrail q key = droppedByGuardrail p key).
  { intros q Hc Hl key. unfold droppedByGuardrail. apply Bool.eq_true_iff_eq.
    by rewrite !hitGuardRailLocked_result, Hc, Hl. }
  assert (Hflag : mIsActive (set_mCondition (if conditionMet then kTrue else kFalse) p)
                  = mIsActive p) by done.
  rewrite Hflag. clear Hflag.
  destruct (mIsActive p) eqn:Hactive; cbn [negb].
  - split; [done |].
    split; [apply Hkind; done |]. split; [apply Hkind; done |].
    split; [apply Hdrop; done |]. repeat split; try done.
    intros _. by destruct conditionMet.
  - split; [done |].
    split; [apply Hkind; done |]. split; [apply Hkind; done |].
    split; [apply Hdrop; done |]. repeat split; done.
Qed.
